(** * core/types/block.go: headers, blocks and their derived fields

    A shallow embedding of the block and header data model of
    [core/types/block.go].  Go objects that are reached through pointers or
    slices (big integers, byte arrays, headers, blocks, the backing arrays of
    transaction and receipt lists) live in an explicit store, so that sharing
    and copying are visible; a nil dereference or an index out of range is a
    panic of the small state-and-error monad [M]. *)

From stdpp Require Import base option list vector sorting gmap.
From Stdlib Require Import ZArith Lia.
From Stdlib.Strings Require Import Byte.

Local Open Scope Z_scope.

(** ** Fixed-size byte arrays *)

Global Instance byte_eq_dec : EqDecision byte.
Proof.
  intros x y. destruct (Byte.eqb x y) eqn:E.
  - left. by apply Byte.byte_dec_bl.
  - right. by apply Byte.eqb_false.
Defined.

(** [common.Hash] is [[32]byte], [common.Address] is [[20]byte], [Bloom] is
    [[256]byte] and [BlockNonce] is [[8]byte]. *)
Definition common_Hash : Type := vec byte 32.
Definition common_Address : Type := vec byte 20.
Definition types_Bloom : Type := vec byte 256.
Definition BlockNonce : Type := vec byte 8.

(** ** Pointers and slices *)

Definition loc : Type := positive.

(** A Go pointer: [None] is nil. *)
Definition ptr : Type := option loc.

(** A Go slice: nil, or a window [off, off+len) into a backing array.  No
    function of the file appends to or re-slices a slice, so the capacity is
    not recorded. *)
Inductive slice : Type :=
| SNil
| SArr (a : loc) (off : nat) (n : nat).

Definition len (s : slice) : nat :=
  match s with SNil => 0%nat | SArr _ _ n => n end.

Global Instance slice_eq_dec : EqDecision slice.
Proof. solve_decision. Defined.

(** ** Header and Block *)

(** [type Header struct].  [uint16] and [uint64] fields are integers in their
    range; the three [*big.Int] fields are pointers; [Extra] is a slice. *)
Record Header : Type := mkHeader {
  ShardId : Z;
  ParentHash : common_Hash;
  Coinbase : common_Address;
  Root : common_Hash;
  TxHash : common_Hash;
  ReceiptHash : common_Hash;
  Bloom : types_Bloom;
  Difficulty : ptr;
  Number : ptr;
  GasLimit : Z;
  GasUsed : Z;
  Time : ptr;
  Extra : slice;
  MixDigest : common_Hash;
  Nonce : BlockNonce
}.

Definition with_TxHash (v : common_Hash) (h : Header) : Header :=
  mkHeader (ShardId h) (ParentHash h) (Coinbase h) (Root h) v (ReceiptHash h)
    (Bloom h) (Difficulty h) (Number h) (GasLimit h) (GasUsed h) (Time h)
    (Extra h) (MixDigest h) (Nonce h).
Definition with_ReceiptHash (v : common_Hash) (h : Header) : Header :=
  mkHeader (ShardId h) (ParentHash h) (Coinbase h) (Root h) (TxHash h) v
    (Bloom h) (Difficulty h) (Number h) (GasLimit h) (GasUsed h) (Time h)
    (Extra h) (MixDigest h) (Nonce h).
Definition with_Bloom (v : types_Bloom) (h : Header) : Header :=
  mkHeader (ShardId h) (ParentHash h) (Coinbase h) (Root h) (TxHash h)
    (ReceiptHash h) v (Difficulty h) (Number h) (GasLimit h) (GasUsed h)
    (Time h) (Extra h) (MixDigest h) (Nonce h).
Definition with_Difficulty (v : ptr) (h : Header) : Header :=
  mkHeader (ShardId h) (ParentHash h) (Coinbase h) (Root h) (TxHash h)
    (ReceiptHash h) (Bloom h) v (Number h) (GasLimit h) (GasUsed h) (Time h)
    (Extra h) (MixDigest h) (Nonce h).
Definition with_Number (v : ptr) (h : Header) : Header :=
  mkHeader (ShardId h) (ParentHash h) (Coinbase h) (Root h) (TxHash h)
    (ReceiptHash h) (Bloom h) (Difficulty h) v (GasLimit h) (GasUsed h)
    (Time h) (Extra h) (MixDigest h) (Nonce h).
Definition with_Time (v : ptr) (h : Header) : Header :=
  mkHeader (ShardId h) (ParentHash h) (Coinbase h) (Root h) (TxHash h)
    (ReceiptHash h) (Bloom h) (Difficulty h) (Number h) (GasLimit h)
    (GasUsed h) v (Extra h) (MixDigest h) (Nonce h).
Definition with_Extra (v : slice) (h : Header) : Header :=
  mkHeader (ShardId h) (ParentHash h) (Coinbase h) (Root h) (TxHash h)
    (ReceiptHash h) (Bloom h) (Difficulty h) (Number h) (GasLimit h)
    (GasUsed h) (Time h) v (MixDigest h) (Nonce h).

(** [type Block struct].  The two [atomic.Value] caches hold either nothing
    or a value; [size] holds a [common.StorageSize], a byte count.  The relay
    bookkeeping fields [ReceivedAt] and [ReceivedFrom] take no part in any
    function below and are left out. *)
Record Block : Type := mkBlock {
  header : ptr;
  transactions : slice;
  receipts : slice;
  hash : option common_Hash;
  size : option Z;
  td : ptr
}.

Definition with_header (v : ptr) (b : Block) : Block :=
  mkBlock v (transactions b) (receipts b) (hash b) (size b) (td b).
Definition with_transactions (v : slice) (b : Block) : Block :=
  mkBlock (header b) v (receipts b) (hash b) (size b) (td b).
Definition with_receipts (v : slice) (b : Block) : Block :=
  mkBlock (header b) (transactions b) v (hash b) (size b) (td b).
Definition with_hash (v : option common_Hash) (b : Block) : Block :=
  mkBlock (header b) (transactions b) (receipts b) v (size b) (td b).
Definition with_size (v : option Z) (b : Block) : Block :=
  mkBlock (header b) (transactions b) (receipts b) (hash b) v (td b).

(** [type Body struct]. *)
Record Body : Type := mkBody {
  Body_Transactions : slice;
  Body_Receipts : slice
}.

(** [type extblock struct]: the relay encoding of a block. *)
Record extblock : Type := mkExtblock {
  eb_Header : ptr;
  eb_Txs : slice;
  eb_Receipts : slice
}.

(** [rlp.Kind]. *)
Inductive rlp_Kind : Type := rlp_Byte | rlp_String | rlp_List.

(** The [DerivableList] interface that [DeriveSha] consumes. *)
Class DerivableList (T : Type) : Type := {
  Len : T → nat;
  GetRlp : T → nat → list byte
}.

(** ** External collaborators

    Types and functions of other files and packages, taken as parameters:
    the transaction and contract-result entities (a contract result carries
    the hash of its transaction in the field [TxHash]), Go's [error], the
    Merkle root [DeriveSha], the log filter [CreateBloom] and Keccak-256.
    The elements of [Transactions] and [ContractResults] are pointers, nil
    being [None]. *)
Class Entities : Type := {
  Transaction : Type;
  ContractResult : Type;
  error : Type;
  Transaction_Hash : Transaction → common_Hash;
  ContractResult_TxHash : ContractResult → common_Hash;
  Transactions_Derivable :: DerivableList (list (option Transaction));
  ContractResults_Derivable :: DerivableList (list (option ContractResult));
  DeriveSha : ∀ T : Type, DerivableList T → T → common_Hash;
  CreateBloom : list (option ContractResult) → types_Bloom;
  Keccak256 : list byte → common_Hash
}.

Section Store.
Context {E : Entities}.

Definition Transactions : Type := list (option Transaction).
Definition ContractResults : Type := list (option ContractResult).

(** ** The store *)

Inductive cell : Type :=
| CBigInt (z : Z)
| CBytes (bs : list byte)
| CHeader (h : Header)
| CTxs (l : Transactions)
| CRcs (l : ContractResults)
| CBlock (b : Block)
| CBlocks (l : list ptr).

Abbreviation Store := (gmap loc cell).

(** State and panic: [None] is a Go run-time panic. *)
Definition M (A : Type) : Type := Store → option (A * Store).

#[export] Instance M_ret : MRet M := λ A a σ, Some (a, σ).
#[export] Instance M_bind : MBind M := λ A B f m σ,
  match m σ with
  | Some (a, σ') => f a σ'
  | None => None
  end.

Definition panic {A : Type} : M A := λ _, None.
Definition get_store : M Store := λ σ, Some (σ, σ).

(** [new(T)] / [&T{...}]: a fresh cell. *)
Definition alloc (c : cell) : M loc := λ σ,
  let l := fresh (dom σ) in Some (l, <[l := c]> σ).

(** [*p]: panics on nil. *)
Definition load (p : ptr) : M cell := λ σ,
  match p with
  | None => None
  | Some l => match σ !! l with Some c => Some (c, σ) | None => None end
  end.

(** [*p = c]: panics on nil. *)
Definition store (p : ptr) (c : cell) : M unit := λ σ,
  match p with
  | None => None
  | Some l => match σ !! l with
              | Some _ => Some (tt, <[l := c]> σ)
              | None => None
              end
  end.

Definition load_big (p : ptr) : M Z :=
  c ← load p; match c with CBigInt z => mret z | _ => panic end.
Definition load_header (p : ptr) : M Header :=
  c ← load p; match c with CHeader h => mret h | _ => panic end.
Definition load_block (p : ptr) : M Block :=
  c ← load p; match c with CBlock b => mret b | _ => panic end.

(** [p.field = v] on a header or a block. *)
Definition modify_header (p : ptr) (f : Header → Header) : M unit :=
  h ← load_header p; store p (CHeader (f h)).
Definition modify_block (p : ptr) (f : Block → Block) : M unit :=
  b ← load_block p; store p (CBlock (f b)).

(** *** math/big *)

(** [new(big.Int)]: a fresh zero. *)
Definition new_big_Int : M ptr := l ← alloc (CBigInt 0); mret (Some l).

(** [z.Set(x)]: sets [z] to the value of [x] and returns [z]. *)
Definition big_Int_Set (z x : ptr) : M ptr :=
  v ← load_big x; _ ← load_big z; store z (CBigInt v);; mret z.

(** [x.Cmp(y)]: -1, 0 or +1; the same pointer on both sides compares equal
    without being read. *)
Definition big_Int_Cmp (x y : ptr) : M Z :=
  if decide (x = y) then mret 0
  else
    vx ← load_big x; vy ← load_big y;
    mret (match vx ?= vy with Lt => -1 | Eq => 0 | Gt => 1 end).

(** *** Slices over the four kinds of backing array *)

Record ArrKind (A : Type) : Type := mkArrKind {
  arr_inj : list A → cell;
  arr_proj : cell → option (list A);
  arr_zero : A
}.
Arguments arr_inj {A}.
Arguments arr_proj {A}.
Arguments arr_zero {A}.

Definition bytesK : ArrKind byte :=
  mkArrKind byte CBytes
    (λ c, match c with CBytes l => Some l | _ => None end) x00.
Definition txsK : ArrKind (option Transaction) :=
  mkArrKind _ CTxs (λ c, match c with CTxs l => Some l | _ => None end) None.
Definition rcsK : ArrKind (option ContractResult) :=
  mkArrKind _ CRcs (λ c, match c with CRcs l => Some l | _ => None end) None.
Definition blocksK : ArrKind ptr :=
  mkArrKind _ CBlocks
    (λ c, match c with CBlocks l => Some l | _ => None end) None.

(** The whole backing array of a non-nil slice, checked against the
    slice's window. *)
Definition load_arr {A : Type} (K : ArrKind A) (a : loc) (off n : nat)
  : M (list A) :=
  c ← load (Some a);
  match arr_proj K c with
  | Some l => if decide (off + n ≤ length l)%nat then mret l else panic
  | None => panic
  end.

(** The elements [s[0], ..., s[len(s)-1]]. *)
Definition slice_load {A : Type} (K : ArrKind A) (s : slice) : M (list A) :=
  match s with
  | SNil => mret []
  | SArr a off n => l ← load_arr K a off n; mret (take n (drop off l))
  end.

(** [make([]T, n)]. *)
Definition slice_make {A : Type} (K : ArrKind A) (n : nat) : M slice :=
  a ← alloc (arr_inj K (replicate n (arr_zero K))); mret (SArr a 0 n).

(** [copy(dst, src)]: copies [min(len(dst), len(src))] elements and
    returns that number. *)
Definition slice_copy {A : Type} (K : ArrKind A) (dst src : slice) : M nat :=
  vs ← slice_load K src;
  let k := (len dst `min` len src)%nat in
  match dst with
  | SNil => mret k
  | SArr a off n =>
      l ← load_arr K a off n;
      store (Some a)
        (arr_inj K (take off l ++ take k vs ++ drop (off + k) l));;
      mret k
  end.

(** [s[i]] and [s[i] = v]: panic when [i] is out of range. *)
Definition slice_index {A : Type} (K : ArrKind A) (s : slice) (i : nat)
  : M A :=
  vs ← slice_load K s;
  match vs !! i with Some v => mret v | None => panic end.

Definition slice_assign {A : Type} (K : ArrKind A) (s : slice) (i : nat)
  (v : A) : M unit :=
  match s with
  | SNil => panic
  | SArr a off n =>
      l ← load_arr K a off n;
      if decide (i < n)%nat
      then store (Some a) (arr_inj K (<[(off + i)%nat := v]> l))
      else panic
  end.

(** Modelled from the spec: [common.CopyBytes], of package [common],
    returns an independent copy of a byte sequence; nil stays nil. *)
Definition common_CopyBytes (b : slice) : M slice :=
  match b with
  | SNil => mret SNil
  | _ =>
      copiedBytes ← slice_make bytesK (len b);
      slice_copy bytesK copiedBytes b;;
      mret copiedBytes
  end.

(** ** Constructors and copies *)

(** [var EmptyRootHash = DeriveSha(Transactions{})]. *)
Definition EmptyRootHash : common_Hash := DeriveSha Transactions _ [].

(** [func CopyHeader(h *Header) *Header]. *)
Definition CopyHeader (h : ptr) : M ptr :=
  hv ← load_header h;
  let cpy := hv in
  t ← new_big_Int;
  let cpy := with_Time t cpy in
  (if decide (Time hv ≠ None) then big_Int_Set (Time cpy) (Time hv)
   else mret (Time cpy));;
  d ← new_big_Int;
  let cpy := with_Difficulty d cpy in
  (if decide (Difficulty hv ≠ None)
   then big_Int_Set (Difficulty cpy) (Difficulty hv)
   else mret (Difficulty cpy));;
  n ← new_big_Int;
  let cpy := with_Number n cpy in
  (if decide (Number hv ≠ None) then big_Int_Set (Number cpy) (Number hv)
   else mret (Number cpy));;
  cpy ← (if decide (0 < len (Extra hv))%nat then
           e ← slice_make bytesK (len (Extra hv));
           slice_copy bytesK e (Extra hv);;
           mret (with_Extra e cpy)
         else mret cpy);
  l ← alloc (CHeader cpy);
  mret (Some l).

(** [func NewBlock(header *Header, txs []*Transaction,
    receipts []*ContractResult) *Block]. *)
Definition NewBlock (h : ptr) (txs receipts : slice) : M ptr :=
  hc ← CopyHeader h;
  tdp ← new_big_Int;
  bl ← alloc (CBlock (mkBlock hc SNil SNil None None tdp));
  let b := Some bl in
  (if decide (len txs = 0%nat) then
     B ← load_block b;
     modify_header (header B) (with_TxHash EmptyRootHash)
   else
     vs ← slice_load txsK txs;
     B ← load_block b;
     modify_header (header B) (with_TxHash (DeriveSha _ _ vs));;
     ts ← slice_make txsK (len txs);
     modify_block b (with_transactions ts);;
     B ← load_block b;
     slice_copy txsK (transactions B) txs;;
     mret tt);;
  (if decide (len receipts = 0%nat) then
     B ← load_block b;
     modify_header (header B) (with_ReceiptHash EmptyRootHash)
   else
     rs ← slice_load rcsK receipts;
     B ← load_block b;
     modify_header (header B) (with_ReceiptHash (DeriveSha _ _ rs));;
     B ← load_block b;
     modify_header (header B) (with_Bloom (CreateBloom rs)));;
  mret b.

(** [func NewBlockWithHeader(header *Header) *Block]. *)
Definition NewBlockWithHeader (h : ptr) : M ptr :=
  hc ← CopyHeader h;
  bl ← alloc (CBlock (mkBlock hc SNil SNil None None None));
  mret (Some bl).

(** [func (b *Block) WithSeal(header *Header) *Block]. *)
Definition Block_WithSeal (b : ptr) (h : ptr) : M ptr :=
  cpy ← load_header h;
  B ← load_block b;
  hc ← alloc (CHeader cpy);
  bl ← alloc (CBlock
               (mkBlock (Some hc) (transactions B) (receipts B)
                  None None None));
  mret (Some bl).

(** [func (b *Block) WithBody(transactions []*Transaction,
    contractReceipts ContractResults) *Block]. *)
Definition Block_WithBody (b : ptr) (txs contractReceipts : slice)
  : M ptr :=
  B ← load_block b;
  hc ← CopyHeader (header B);
  bl ← alloc (CBlock (mkBlock hc SNil SNil None None None));
  let block := Some bl in
  ts ← slice_make txsK (len txs);
  modify_block block (with_transactions ts);;
  rs ← slice_make rcsK (len contractReceipts);
  modify_block block (with_receipts rs);;
  B' ← load_block block;
  slice_copy txsK (transactions B') txs;;
  slice_copy rcsK (receipts B') contractReceipts;;
  mret block.

End Store.

Abbreviation Store := (gmap loc cell).

Arguments arr_inj {_ A}.
Arguments arr_proj {_ A}.
Arguments arr_zero {_ A}.

(** ** Interfaces and engines *)

(** [io.Writer]: [Write] returns the new state of the writer, the number of
    bytes written and an error or nil. *)
Class io_Writer {E : Entities} (W : Type) : Type :=
  Write : W → list byte → W * (nat * option error).

(** [sort.Interface]. *)
Class sort_Interface {E : Entities} (T : Type) : Type := {
  sort_Len : T → M nat;
  sort_Less : T → nat → nat → M bool;
  sort_Swap : T → nat → nat → M unit
}.

(** The canonical encoding engine (package [rlp]) and Go's [sort.Sort].

    - [Stream_Kind s] is [s.Kind()]: kind and content size of the next value;
    - [Stream_Decode_extblock s] is [s.Decode(&eb)] for an [extblock]: an
      error, or the decoded value, whose header and lists it puts in the
      store;
    - [rlp_ListSize] is [rlp.ListSize];
    - [rlp_chunks_Header] and [rlp_chunks_extblock] are the byte chunks that
      [rlp.Encode] hands to its writer, one [Write] call each, for a header
      and for an [extblock];
    - [sort_Sort] is [sort.Sort]. *)
Class Engines {E : Entities} : Type := {
  rlp_Stream : Type;
  Stream_Kind : rlp_Stream → (rlp_Kind * Z * option error) * rlp_Stream;
  Stream_Decode_extblock :
    rlp_Stream → Store → (error + extblock) * rlp_Stream * Store;
  rlp_ListSize : Z → Z;
  rlp_chunks_Header : Store → ptr → list (list byte);
  rlp_chunks_extblock : Store → extblock → list (list byte);
  sort_Sort : ∀ T : Type, sort_Interface T → T → M unit
}.

Section Methods.
Context {E : Entities} {G : Engines}.

(** *** Accessors *)

(** [func (b *Block) Transactions() Transactions]. *)
Definition Block_Transactions (b : ptr) : M slice :=
  B ← load_block b; mret (transactions B).

(** [func (b *Block) Receiptions() ContractResults]. *)
Definition Block_Receiptions (b : ptr) : M slice :=
  B ← load_block b; mret (receipts B).

(** [func (b *Block) ContractReceipts() ContractResults]. *)
Definition Block_ContractReceipts (b : ptr) : M slice :=
  B ← load_block b; mret (receipts B).

(** [transaction.Hash()] on an element of the list: a nil receiver
    panics. *)
Definition call_Transaction_Hash (transaction : option Transaction)
  : M common_Hash :=
  match transaction with
  | Some tx => mret (Transaction_Hash tx)
  | None => panic
  end.

(** [receipt.TxHash] on an element of the list. *)
Definition read_ContractResult_TxHash (receipt : option ContractResult)
  : M common_Hash :=
  match receipt with
  | Some r => mret (ContractResult_TxHash r)
  | None => panic
  end.

(** The loop of [Transaction]. *)
Fixpoint Transaction_range (hash : common_Hash)
  (l : list (option Transaction)) : M (option Transaction) :=
  match l with
  | [] => mret None
  | transaction :: rest =>
      h ← call_Transaction_Hash transaction;
      if decide (h = hash) then mret transaction
      else Transaction_range hash rest
  end.

(** [func (b *Block) Transaction(hash common.Hash) *Transaction]. *)
Definition Block_Transaction (b : ptr) (hash : common_Hash)
  : M (option Transaction) :=
  B ← load_block b;
  l ← slice_load txsK (transactions B);
  Transaction_range hash l.

(** The loop of [ContrcatReceipt]. *)
Fixpoint ContrcatReceipt_range (hash : common_Hash)
  (l : list (option ContractResult)) : M (option ContractResult) :=
  match l with
  | [] => mret None
  | receipt :: rest =>
      h ← read_ContractResult_TxHash receipt;
      if decide (h = hash) then mret receipt
      else ContrcatReceipt_range hash rest
  end.

(** [func (b *Block) ContrcatReceipt(hash common.Hash) *ContractResult]. *)
Definition Block_ContrcatReceipt (b : ptr) (hash : common_Hash)
  : M (option ContractResult) :=
  B ← load_block b;
  l ← slice_load rcsK (receipts B);
  ContrcatReceipt_range hash l.

Definition Block_ShardId (b : ptr) : M Z :=
  B ← load_block b; h ← load_header (header B); mret (ShardId h).

(** [func (b *Block) Number() *big.Int]. *)
Definition Block_Number (b : ptr) : M ptr :=
  B ← load_block b; h ← load_header (header B);
  z ← new_big_Int; big_Int_Set z (Number h).

Definition Block_GasLimit (b : ptr) : M Z :=
  B ← load_block b; h ← load_header (header B); mret (GasLimit h).
Definition Block_GasUsed (b : ptr) : M Z :=
  B ← load_block b; h ← load_header (header B); mret (GasUsed h).

(** [func (b *Block) Difficulty() *big.Int]. *)
Definition Block_Difficulty (b : ptr) : M ptr :=
  B ← load_block b; h ← load_header (header B);
  z ← new_big_Int; big_Int_Set z (Difficulty h).

(** [func (b *Block) Time() *big.Int]. *)
Definition Block_Time (b : ptr) : M ptr :=
  B ← load_block b; h ← load_header (header B);
  z ← new_big_Int; big_Int_Set z (Time h).

Definition Block_MixDigest (b : ptr) : M common_Hash :=
  B ← load_block b; h ← load_header (header B); mret (MixDigest h).
Definition Block_Bloom (b : ptr) : M types_Bloom :=
  B ← load_block b; h ← load_header (header B); mret (Bloom h).
Definition Block_Coinbase (b : ptr) : M common_Address :=
  B ← load_block b; h ← load_header (header B); mret (Coinbase h).
Definition Block_Root (b : ptr) : M common_Hash :=
  B ← load_block b; h ← load_header (header B); mret (Root h).
Definition Block_ParentHash (b : ptr) : M common_Hash :=
  B ← load_block b; h ← load_header (header B); mret (ParentHash h).
Definition Block_TxHash (b : ptr) : M common_Hash :=
  B ← load_block b; h ← load_header (header B); mret (TxHash h).
Definition Block_ReceiptHash (b : ptr) : M common_Hash :=
  B ← load_block b; h ← load_header (header B); mret (ReceiptHash h).

(** [func (b *Block) Extra() []byte]. *)
Definition Block_Extra (b : ptr) : M slice :=
  B ← load_block b; h ← load_header (header B);
  common_CopyBytes (Extra h).

(** [func (b *Block) Header() *Header]. *)
Definition Block_Header (b : ptr) : M ptr :=
  B ← load_block b; CopyHeader (header B).

(** [func (b *Block) Body() *Body]: the fresh [Body] struct is returned
    by value. *)
Definition Block_Body (b : ptr) : M Body :=
  B ← load_block b; mret (mkBody (transactions B) (receipts B)).

(** *** Encoding, hashing and the two caches *)

(** [rlp.Encode(w, x)], given the chunks the engine produces for [x]:
    every chunk is handed to [w.Write]; the first write error stops the
    encoding and is returned. *)
Fixpoint rlp_Encode {W : Type} `{!io_Writer W} (w : W)
  (chunks : list (list byte)) : W * option error :=
  match chunks with
  | [] => (w, None)
  | c :: rest =>
      match Write w c with
      | (w', (_, None)) => rlp_Encode w' rest
      | (w', (_, Some e)) => (w', Some e)
      end
  end.

(** The Keccak-256 hasher of [sha3.NewKeccak256]: it absorbs what is
    written to it, and [Sum] hashes what was absorbed. *)
Record KeccakState : Type := mkKeccak { absorbed : list byte }.
#[export] Instance KeccakState_Writer : io_Writer KeccakState :=
  λ hw b, (mkKeccak (absorbed hw ++ b), (length b, None)).
Definition sha3_NewKeccak256 : KeccakState := mkKeccak [].
Definition KeccakState_Sum (hw : KeccakState) : common_Hash :=
  Keccak256 (absorbed hw).

(** [type writeCounter common.StorageSize] and its [Write]. *)
Definition writeCounter : Type := Z.
Definition writeCounter_Write (c : writeCounter) (b : list byte)
  : writeCounter * (nat * option error) :=
  (c + Z.of_nat (length b), (length b, None)).
#[export] Instance writeCounter_Writer : io_Writer writeCounter :=
  writeCounter_Write.

(** A byte buffer, the writer that keeps the encoding itself. *)
#[export] Instance buffer_Writer : io_Writer (list byte) :=
  λ w b, (w ++ b, (length b, None)).

(** [func rlpHash(x interface{}) (h common.Hash)], at a header. *)
Definition rlpHash_Header (x : ptr) : M common_Hash :=
  σ ← get_store;
  let hw := sha3_NewKeccak256 in
  let '(hw, _) := rlp_Encode hw (rlp_chunks_Header σ x) in
  mret (KeccakState_Sum hw).

(** [func (h *Header) Hash() common.Hash]. *)
Definition Header_Hash (h : ptr) : M common_Hash := rlpHash_Header h.

(** [func (b *Block) Hash() common.Hash]. *)
Definition Block_Hash (b : ptr) : M common_Hash :=
  B ← load_block b;
  match hash B with
  | Some hash => mret hash
  | None =>
      v ← Header_Hash (header B);
      modify_block b (with_hash (Some v));;
      mret v
  end.

(** [func (b *Block) EncodeRLP(w io.Writer) error]. *)
Definition Block_EncodeRLP {W : Type} `{!io_Writer W} (b : ptr) (w : W)
  : M (W * option error) :=
  B ← load_block b;
  σ ← get_store;
  mret (rlp_Encode w
          (rlp_chunks_extblock σ
             (mkExtblock (header B) (transactions B) (receipts B)))).

(** [func (b *Block) Size() common.StorageSize]; [rlp.Encode(&c, b)] calls
    the block's own [EncodeRLP] and its error is dropped. *)
Definition Block_Size (b : ptr) : M Z :=
  B ← load_block b;
  match size B with
  | Some size => mret size
  | None =>
      let c : writeCounter := 0 in
      '(c, _) ← Block_EncodeRLP b c;
      modify_block b (with_size (Some c));;
      mret c
  end.

(** [func (b *Block) DecodeRLP(s *rlp.Stream) error]: the result is the
    error (or nil) and the stream after the call. *)
Definition Block_DecodeRLP (b : ptr) (s : rlp_Stream)
  : M (option error * rlp_Stream) := λ σ,
  let '((_, size, _), s) := Stream_Kind s in
  match Stream_Decode_extblock s σ with
  | (inl err, s, σ) => Some ((Some err, s), σ)
  | (inr eb, s, σ) =>
      (modify_block b
         (λ B, with_receipts (eb_Receipts eb)
                 (with_transactions (eb_Txs eb)
                    (with_header (eb_Header eb) B)));;
       modify_block b (with_size (Some (rlp_ListSize size)));;
       mret (None, s)) σ
  end.

(** *** Ordering *)

(** [type BlockBy func(b1, b2 *Block) bool]. *)
Definition BlockBy : Type := ptr → ptr → M bool.

(** [type scblockSorter struct]. *)
Record scblockSorter : Type := mkSorter {
  blocks : slice;
  by_ : BlockBy
}.

Definition scblockSorter_Len (self : scblockSorter) : M nat :=
  mret (len (blocks self)).

Definition scblockSorter_Swap (self : scblockSorter) (i j : nat) : M unit :=
  bj ← slice_index blocksK (blocks self) j;
  bi ← slice_index blocksK (blocks self) i;
  slice_assign blocksK (blocks self) i bj;;
  slice_assign blocksK (blocks self) j bi.

Definition scblockSorter_Less (self : scblockSorter) (i j : nat) : M bool :=
  bi ← slice_index blocksK (blocks self) i;
  bj ← slice_index blocksK (blocks self) j;
  by_ self bi bj.

#[export] Instance scblockSorter_Interface : sort_Interface scblockSorter :=
  {| sort_Len := scblockSorter_Len;
     sort_Less := scblockSorter_Less;
     sort_Swap := scblockSorter_Swap |}.

(** [func (self BlockBy) Sort(blocks Blocks)]. *)
Definition BlockBy_Sort (self : BlockBy) (blocks : slice) : M unit :=
  let bs := mkSorter blocks self in
  sort_Sort scblockSorter _ bs.

(** [func Number(b1, b2 *Block) bool]; the name carries a prefix to keep it
    apart from the header field. *)
Definition BlockBy_Number : BlockBy := λ b1 b2,
  B1 ← load_block b1; h1 ← load_header (header B1);
  B2 ← load_block b2; h2 ← load_header (header B2);
  c ← big_Int_Cmp (Number h1) (Number h2);
  mret (bool_decide (c < 0)).

End Methods.

(** ** Go's insertion sort over a [sort.Interface]

    [sort.Sort] runs [insertionSort(data, 0, n)] on short inputs; it is used
    below as a concrete engine on which the ordering results are run. *)
Section InsertionSort.
Context {E : Entities} {T : Type} {I : sort_Interface T}.

(** [for j := i; j > 0 && data.Less(j, j-1); j-- { data.Swap(j, j-1) }]. *)
Fixpoint insertionSort_inner (data : T) (j : nat) : M unit :=
  match j with
  | O => mret tt
  | S j' =>
      lt ← sort_Less data j j';
      if lt : bool then sort_Swap data j j';; insertionSort_inner data j'
      else mret tt
  end.

(** [for i := a + 1; i < b; i++ { ... }], with [k] iterations left. *)
Fixpoint insertionSort_outer (data : T) (i k : nat) : M unit :=
  match k with
  | O => mret tt
  | S k' =>
      insertionSort_inner data i;; insertionSort_outer data (S i) k'
  end.

Definition insertionSort (data : T) : M unit :=
  n ← sort_Len data; insertionSort_outer data 1 (n - 1).
End InsertionSort.

(** ** Observations on the store, used to state the properties *)
Section Views.
Context {E : Entities}.

(** [wp m Q σ]: [m] runs from [σ] without panic and ends in [Q]. *)
Definition wp {A : Type} (m : M A) (Q : A → Store → Prop) (σ : Store)
  : Prop :=
  match m σ with
  | Some (a, σ') => Q a σ'
  | None => False
  end.

(** The value of a big integer behind a pointer; [None] for nil. *)
Definition big_val (σ : Store) (p : ptr) : option Z :=
  match p with
  | Some l => match σ !! l with Some (CBigInt z) => Some z | _ => None end
  | None => None
  end.

(** The elements of a slice. *)
Definition slice_val {A : Type} (K : ArrKind A) (σ : Store) (s : slice)
  : list A :=
  match slice_load K s σ with Some (l, _) => l | None => [] end.

(** A pointer that is nil or points to a big integer. *)
Definition big_ok (σ : Store) (p : ptr) : Prop :=
  match p with
  | Some l => ∃ z, σ !! l = Some (CBigInt z)
  | None => True
  end.

(** A slice that is nil or a window of an allocated array of its kind. *)
Definition slice_ok {A : Type} (K : ArrKind A) (σ : Store) (s : slice)
  : Prop :=
  match s with
  | SNil => True
  | SArr a off n =>
      ∃ c l, σ !! a = Some c ∧ arr_proj K c = Some l
             ∧ (off + n ≤ length l)%nat
  end.

(** The pointers and the slice of a header refer to allocated storage, as
    Go's memory safety has it. *)
Definition header_ok (σ : Store) (h : Header) : Prop :=
  big_ok σ (Time h) ∧ big_ok σ (Difficulty h) ∧ big_ok σ (Number h)
  ∧ slice_ok bytesK σ (Extra h).

(** The content of a header: its fields, with big integers and the extra
    data read through. *)
Record HeaderVal : Type := mkHeaderVal {
  v_ShardId : Z;
  v_ParentHash : common_Hash;
  v_Coinbase : common_Address;
  v_Root : common_Hash;
  v_TxHash : common_Hash;
  v_ReceiptHash : common_Hash;
  v_Bloom : types_Bloom;
  v_Difficulty : option Z;
  v_Number : option Z;
  v_GasLimit : Z;
  v_GasUsed : Z;
  v_Time : option Z;
  v_Extra : list byte;
  v_MixDigest : common_Hash;
  v_Nonce : BlockNonce
}.

Definition read_Header (σ : Store) (h : Header) : HeaderVal :=
  mkHeaderVal (ShardId h) (ParentHash h) (Coinbase h) (Root h) (TxHash h)
    (ReceiptHash h) (Bloom h) (big_val σ (Difficulty h))
    (big_val σ (Number h)) (GasLimit h) (GasUsed h) (big_val σ (Time h))
    (slice_val bytesK σ (Extra h)) (MixDigest h) (Nonce h).

Definition header_val (σ : Store) (p : ptr) : option HeaderVal :=
  match p with
  | Some l =>
      match σ !! l with
      | Some (CHeader h) => Some (read_Header σ h)
      | _ => None
      end
  | None => None
  end.

(** A nil big integer read as zero: what a copy holds for it. *)
Definition zero_for_nil (v : HeaderVal) : HeaderVal :=
  mkHeaderVal (v_ShardId v) (v_ParentHash v) (v_Coinbase v) (v_Root v)
    (v_TxHash v) (v_ReceiptHash v) (v_Bloom v)
    (Some (default 0 (v_Difficulty v))) (Some (default 0 (v_Number v)))
    (v_GasLimit v) (v_GasUsed v) (Some (default 0 (v_Time v)))
    (v_Extra v) (v_MixDigest v) (v_Nonce v).

(** What a holder of a header pointer can do to the header: assign fields
    of the struct, change one of its big integers in place, or write a
    byte of its extra data. *)
Inductive mutation : Type :=
| SetFields (f : Header → Header)
| SetTime (v : Z)
| SetDifficulty (v : Z)
| SetNumber (v : Z)
| SetExtraByte (i : nat) (x : byte).

Definition set_big (p : ptr) (v : Z) : M unit :=
  _ ← load_big p; store p (CBigInt v).

Definition mutate (p : ptr) (m : mutation) : M unit :=
  match m with
  | SetFields f => modify_header p f
  | SetTime v => h ← load_header p; set_big (Time h) v
  | SetDifficulty v => h ← load_header p; set_big (Difficulty h) v
  | SetNumber v => h ← load_header p; set_big (Number h) v
  | SetExtraByte i x => h ← load_header p; slice_assign bytesK (Extra h) i x
  end.

(** The number of a block, read through its header; zero when a link is
    missing. *)
Definition block_number (σ : Store) (b : ptr) : Z :=
  match b ≫= (σ !!.) with
  | Some (CBlock B) =>
      match header B ≫= (σ !!.) with
      | Some (CHeader h) => default 0 (big_val σ (Number h))
      | _ => 0
      end
  | _ => 0
  end.

(** A block pointer whose block, header and number are all there. *)
Definition block_numbered (σ : Store) (b : ptr) : Prop :=
  ∃ bl B hl h, b = Some bl ∧ σ !! bl = Some (CBlock B)
               ∧ header B = Some hl ∧ σ !! hl = Some (CHeader h)
               ∧ is_Some (big_val σ (Number h)).

(** A kind of array is told apart by its cells. *)
Class ArrKindOk {A : Type} (K : ArrKind A) : Prop := {
  arr_proj_inj : ∀ l, arr_proj K (arr_inj K l) = Some l;
  arr_inj_proj : ∀ c l, arr_proj K c = Some l → c = arr_inj K l
}.

(** The outcome of [CopyHeader] on a header [hv], from [σ] to [σ']: the
    copy [r] and its three big integers are new cells, the big integers
    hold the values of the original (zero for nil), and the extra data of
    a non-empty original is a new array with the same bytes. *)
Definition CopyHeader_post (σ : Store) (hv : Header) (r : ptr) (σ' : Store)
  : Prop :=
  ∃ c t d n ex,
    r = Some c ∧ σ ⊆ σ'
    ∧ σ !! c = None ∧ σ !! t = None ∧ σ !! d = None ∧ σ !! n = None
    ∧ σ' !! c = Some (CHeader
                        (with_Extra ex
                           (with_Number (Some n)
                              (with_Difficulty (Some d)
                                 (with_Time (Some t) hv)))))
    ∧ σ' !! t = Some (CBigInt (default 0 (big_val σ (Time hv))))
    ∧ σ' !! d = Some (CBigInt (default 0 (big_val σ (Difficulty hv))))
    ∧ σ' !! n = Some (CBigInt (default 0 (big_val σ (Number hv))))
    ∧ (if decide (0 < len (Extra hv))%nat
       then ∃ e, ex = SArr e 0 (len (Extra hv)) ∧ σ !! e = None
                 ∧ σ' !! e = Some (CBytes (slice_val bytesK σ (Extra hv)))
       else ex = Extra hv).
(** The outcome of [NewBlock] on a header [hv] and the two lists, from [σ]
    to [σ']: a new block [r] with empty caches over a new header [c], which
    is the copy [cv] of [hv] with its roots and filter set from the lists,
    and a transaction list with the same elements in a new array. *)
Definition NewBlock_post (σ : Store) (hv : Header) (txs rcs : slice)
  (r : ptr) (σ' : Store) : Prop :=
  ∃ b c B cv,
    r = Some b ∧ σ ⊆ σ' ∧ σ !! b = None ∧ σ !! c = None
    ∧ σ' !! b = Some (CBlock B)
    ∧ header B = Some c ∧ receipts B = SNil
    ∧ hash B = None ∧ size B = None
    ∧ σ' !! c
      = Some (CHeader
                ((if decide (len rcs = 0%nat)
                  then with_ReceiptHash EmptyRootHash
                  else λ x,
                      with_Bloom (CreateBloom (slice_val rcsK σ rcs))
                        (with_ReceiptHash
                           (DeriveSha ContractResults _
                              (slice_val rcsK σ rcs)) x))
                   (with_TxHash
                      (if decide (len txs = 0%nat) then EmptyRootHash
                       else DeriveSha Transactions _
                              (slice_val txsK σ txs)) cv)))
    ∧ (∃ t d n ex, cv = with_Extra ex
                          (with_Number (Some n)
                             (with_Difficulty (Some d)
                                (with_Time (Some t) hv))))
    ∧ slice_val txsK σ' (transactions B) = slice_val txsK σ txs
    ∧ (if decide (len txs = 0%nat) then transactions B = SNil
       else ∃ a, transactions B = SArr a 0 (len txs) ∧ σ !! a = None).
End Views.

(** ** Two callers that keep the header they passed in *)
Section Callers.
Context {E : Entities} {G : Engines}.

(** Seal block [b] with header [h], read the number of the new block, set
    the number of [h] to [v] in place, and read the number of the new
    block again. *)
Definition seal_then_set_number (b h : ptr) (v : Z) : M (Z * Z) :=
  b' ← Block_WithSeal b h;
  n0 ← Block_Number b'; v0 ← load_big n0;
  mutate h (SetNumber v);;
  n1 ← Block_Number b'; v1 ← load_big n1;
  mret (v0, v1).

(** The same with [NewBlockWithHeader] in place of [WithSeal]. *)
Definition wrap_then_set_number (h : ptr) (v : Z) : M (Z * Z) :=
  b' ← NewBlockWithHeader h;
  n0 ← Block_Number b'; v0 ← load_big n0;
  mutate h (SetNumber v);;
  n1 ← Block_Number b'; v1 ← load_big n1;
  mret (v0, v1).
End Callers.

(** ** Contracts of the engines *)
Section Contracts.
Context {E : Entities} {G : Engines}.

(** The unread input of a stream is not observable in Go; the contract of
    [Kind] and [Decode] is stated against a ghost view of it. *)
Definition Kind_Decode_contract (input : rlp_Stream → list byte) : Prop :=
  ∀ s k size e s1 σ eb s2 σ2,
    Stream_Kind s = ((k, size, e), s1) →
    Stream_Decode_extblock s1 σ = (inr eb, s2, σ2) →
    ∃ blob, input s = blob ++ input s2
            ∧ rlp_ListSize size = Z.of_nat (length blob).

(** Decoding only allocates: what was in the store stays as it was. *)
Definition Decode_frame : Prop :=
  ∀ s σ r s' σ',
    Stream_Decode_extblock s σ = (r, s', σ') → σ ⊆ σ'.

(** A strict weak order, as [sort.Sort] expects of [Less]. *)
Definition strict_weak {A : Type} (lt : A → A → bool) : Prop :=
  (∀ a, lt a a = false)
  ∧ (∀ a b c, lt a b = true → lt b c = true → lt a c = true)
  ∧ (∀ a b c, lt a b = false → lt b c = false → lt a c = false).

(** [sort.Sort] on a [data] that behaves as a sequence [view] compared by
    [lt]: it ends without panic, having only swapped, with the sequence in
    ascending order. *)
Definition sort_contract : Prop :=
  ∀ (T : Type) (I : sort_Interface T) (data : T) (A : Type)
    (view : Store → list A) (lt : A → A → bool) (Inv : Store → Prop)
    (σ : Store),
    strict_weak lt →
    Inv σ →
    (∀ σ1, Inv σ1 → sort_Len data σ1 = Some (length (view σ1), σ1)) →
    (∀ σ1 i j a b, Inv σ1 → view σ1 !! i = Some a → view σ1 !! j = Some b →
       sort_Less data i j σ1 = Some (lt a b, σ1)) →
    (∀ σ1 i j a b, Inv σ1 → view σ1 !! i = Some a → view σ1 !! j = Some b →
       ∃ σ2, sort_Swap data i j σ1 = Some (tt, σ2) ∧ Inv σ2
             ∧ view σ2 = <[j := a]> (<[i := b]> (view σ1))) →
    ∃ σ', sort_Sort T I data σ = Some (tt, σ') ∧ Inv σ'
          ∧ view σ' ≡ₚ view σ
          ∧ Sorted (λ a b, lt b a = false) (view σ').
End Contracts.

(** ** A concrete instance of the collaborators

    Small stand-ins on which the model can be run: transactions and
    contract results are numbers and their hash repeats that number;
    [ex_DeriveSha] repeats the length of its list; the stream is the list of
    unread bytes, read with RLP's one-byte list heads. *)

Definition ex_byte (n : nat) : byte :=
  default x00 (Byte.of_nat (n `mod` 256)%nat).

Definition ex_hash (n : nat) : common_Hash := vreplicate 32 (ex_byte n).

Definition ex_list_Derivable {A : Type} : DerivableList (list A) :=
  {| Len := length; GetRlp := λ _ i, [ex_byte i] |}.

Definition ex_DeriveSha (T : Type) (D : DerivableList T) (l : T)
  : common_Hash := ex_hash (100 + Len l).

Definition ex_Entities : Entities :=
  {| Transaction := nat;
     ContractResult := nat;
     error := nat;
     Transaction_Hash := ex_hash;
     ContractResult_TxHash := ex_hash;
     Transactions_Derivable := ex_list_Derivable;
     ContractResults_Derivable := ex_list_Derivable;
     DeriveSha := ex_DeriveSha;
     CreateBloom := λ l, vreplicate 256 (ex_byte (length l));
     Keccak256 := λ bs, ex_hash (length bs) |}.

Section Example.
#[local] Existing Instance ex_Entities.

(** [rlp.ListSize]: the content size plus the size of the list head. *)
Definition ex_ListSize (n : Z) : Z :=
n + (if n <? 56 then 1 else 1 + (Z.log2 n / 8 + 1)).

(** The head of a short list is the byte [0xC0 + size]. *)
Definition ex_Kind (s : list byte) : (rlp_Kind * Z * option nat) * list byte :=
match s with
| b :: _ =>
    let n := Z.of_nat (Byte.to_nat b) in
    if decide (192 ≤ n < 248) then ((rlp_List, n - 192, None), s)
    else ((rlp_Byte, 0, None), s)
| [] => ((rlp_Byte, 0, Some 1%nat), s)
end.

(** Decodes the encoding [C3 C0 C0 C0] of an [extblock] without fields, and
  fails with error 2 on any other input. *)
Definition ex_Decode (s : list byte) (σ : Store)
: (nat + extblock) * list byte * Store :=
if decide (take 4 s = [xc3; xc0; xc0; xc0]) then
  let l := fresh (dom σ) in
  (inr (mkExtblock (Some l) SNil SNil), drop 4 s,
   <[l := CHeader
            (mkHeader 0 (ex_hash 0) (vreplicate 20 x00) (ex_hash 0)
               (ex_hash 0) (ex_hash 0) (vreplicate 256 x00) None None 0 0
               None SNil (ex_hash 0) (vreplicate 8 x00))]> σ)
else (inl 2%nat, s, σ).

Definition ex_Engines : Engines :=
{| rlp_Stream := list byte;
   Stream_Kind := ex_Kind;
   Stream_Decode_extblock := ex_Decode;
   rlp_ListSize := ex_ListSize;
   rlp_chunks_Header := λ σ h,
     match header_val σ h with
     | Some v => [[xc2]; [ex_byte (Z.to_nat (default 0 (v_Number v)))];
                  [ex_byte (length (v_Extra v))]]
     | None => [[xc0]]
     end;
   rlp_chunks_extblock := λ σ eb,
     [[xc3]; [xc0]; [ex_byte (len (eb_Txs eb)); ex_byte (len (eb_Receipts eb))]];
   sort_Sort := λ T I data, insertionSort data |}.

(** A header with number 5, time 7, no difficulty, and extra data [01 02]
  at 1; a block at 9 over a header without big integers at 8, with three
  transactions and two receipts. *)
Definition ex_header : Header :=
mkHeader 1 (ex_hash 1) (vreplicate 20 x00) (ex_hash 2) (ex_hash 3)
  (ex_hash 4) (vreplicate 256 x05) None (Some 2%positive) 10 20
  (Some 3%positive) (SArr 4%positive 0 2) (ex_hash 6) (vreplicate 8 x00).

Definition ex_txs : slice := SArr 5%positive 0 3.
Definition ex_rcs : slice := SArr 6%positive 0 2.

Definition ex_store : Store :=
<[9%positive := CBlock (mkBlock (Some 8%positive) ex_txs ex_rcs None None
                          None)]>
(<[8%positive := CHeader (with_Extra SNil (with_Time None
                            (with_Number None ex_header)))]>
(<[6%positive := CRcs [Some 1%nat; Some 2%nat]]>
(<[5%positive := CTxs [Some 1%nat; Some 2%nat; Some 3%nat]]>
(<[4%positive := CBytes [x01; x02]]>
(<[3%positive := CBigInt 7]>
(<[2%positive := CBigInt 5]>
(<[1%positive := CHeader ex_header]> ∅))))))).

(** Three blocks, at 20, 21 and 22, with the numbers [2^64 + 1], [1] and
  [2^64], and the collection of the three at 50. *)
Definition ex_numbered_header (n : loc) : Header :=
with_Extra SNil (with_Time None (with_Number (Some n) ex_header)).

Definition ex_blocks : slice := SArr 50%positive 0 3.

Definition ex_sort_store : Store :=
<[50%positive := CBlocks [Some 20%positive; Some 21%positive;
                          Some 22%positive]]>
(<[42%positive := CBigInt (2 ^ 64)]>
(<[41%positive := CBigInt 1]>
(<[40%positive := CBigInt (2 ^ 64 + 1)]>
(<[32%positive := CHeader (ex_numbered_header 42%positive)]>
(<[31%positive := CHeader (ex_numbered_header 41%positive)]>
(<[30%positive := CHeader (ex_numbered_header 40%positive)]>
(<[22%positive := CBlock (mkBlock (Some 32%positive) SNil SNil None None
                            None)]>
(<[21%positive := CBlock (mkBlock (Some 31%positive) SNil SNil None None
                            None)]>
(<[20%positive := CBlock (mkBlock (Some 30%positive) SNil SNil None None
                            None)]> ∅))))))))).

End Example.

(** ** Further functions of the file *)

Definition with_td (v : ptr) (b : Block) : Block :=
  mkBlock (header b) (transactions b) (receipts b) (hash b) (size b) v.

(** The conversions [byte(x)] of an integer, which keeps the low eight
    bits, and [uint64(b)] of a byte. *)
Definition byte_of_Z (z : Z) : byte :=
  default x00 (Byte.of_N (Z.to_N (z mod 256))).
Definition Z_of_byte (b : byte) : Z := Z.of_N (Byte.to_N b).

(** [binary.BigEndian.PutUint64(b, v)] on an array of eight bytes. *)
Definition BigEndian_PutUint64 (v : Z) : vec byte 8 :=
  [# byte_of_Z (Z.shiftr v 56); byte_of_Z (Z.shiftr v 48);
     byte_of_Z (Z.shiftr v 40); byte_of_Z (Z.shiftr v 32);
     byte_of_Z (Z.shiftr v 24); byte_of_Z (Z.shiftr v 16);
     byte_of_Z (Z.shiftr v 8); byte_of_Z v].

(** [binary.BigEndian.Uint64(b)]. *)
Definition BigEndian_Uint64 (b : vec byte 8) : Z :=
  Z.lor (Z.lor (Z.lor (Z.lor (Z.lor (Z.lor (Z.lor
    (Z_of_byte (b !!! 7%fin))
    (Z.shiftl (Z_of_byte (b !!! 6%fin)) 8))
    (Z.shiftl (Z_of_byte (b !!! 5%fin)) 16))
    (Z.shiftl (Z_of_byte (b !!! 4%fin)) 24))
    (Z.shiftl (Z_of_byte (b !!! 3%fin)) 32))
    (Z.shiftl (Z_of_byte (b !!! 2%fin)) 40))
    (Z.shiftl (Z_of_byte (b !!! 1%fin)) 48))
    (Z.shiftl (Z_of_byte (b !!! 0%fin)) 56).

(** [func EncodeNonce(i uint64) BlockNonce]. *)
Definition EncodeNonce (i : Z) : BlockNonce := BigEndian_PutUint64 i.

(** [func (n BlockNonce) Uint64() uint64]. *)
Definition BlockNonce_Uint64 (n : BlockNonce) : Z := BigEndian_Uint64 n.

(** The engine's decoder for the legacy storage encoding: [s.Decode(&sb)]
    for a [storageblock]. *)
Record storageblock : Type := mkStorageblock {
  sb_Header : ptr;
  sb_Txs : slice;
  sb_Receipts : slice;
  sb_TD : ptr
}.

Class StorageEngine {E : Entities} {G : Engines} : Type :=
  Stream_Decode_storageblock :
    rlp_Stream → Store → (error + storageblock) * rlp_Stream * Store.

Section Further.
Context {E : Entities} {G : Engines} {SG : StorageEngine}.

(** [func (b *Block) DeprecatedTd() *big.Int]. *)
Definition Block_DeprecatedTd (b : ptr) : M ptr :=
  B ← load_block b; mret (td B).

(** [x.Uint64()] of [math/big]: the low 64 bits of the absolute value. *)
Definition big_Int_Uint64 (x : ptr) : M Z :=
  v ← load_big x; mret (Z.abs v mod 2 ^ 64).

(** [x.BitLen()] of [math/big]: the length of the absolute value in bits,
    zero for zero. *)
Definition BitLen (v : Z) : Z :=
  if decide (v = 0) then 0 else Z.log2 (Z.abs v) + 1.
Definition big_Int_BitLen (x : ptr) : M Z :=
  v ← load_big x; mret (BitLen v).

(** [func (b *Block) NumberU64() uint64]. *)
Definition Block_NumberU64 (b : ptr) : M Z :=
  B ← load_block b; h ← load_header (header B);
  big_Int_Uint64 (Number h).

(** [func (b *Block) Nonce() uint64]. *)
Definition Block_Nonce (b : ptr) : M Z :=
  B ← load_block b; h ← load_header (header B);
  mret (BigEndian_Uint64 (Nonce h)).

(** [func (h *Header) Size() common.StorageSize]; [sizeof_Header] stands for
    [unsafe.Sizeof] of the header struct, a constant of the platform. *)
Definition Header_Size (sizeof_Header : Z) (h : ptr) : M Z :=
  hv ← load_header h;
  d ← big_Int_BitLen (Difficulty hv);
  n ← big_Int_BitLen (Number hv);
  t ← big_Int_BitLen (Time hv);
  mret (sizeof_Header + (Z.of_nat (len (Extra hv)) + Z.quot (d + n + t) 8)).

(** [func (b *StorageBlock) DecodeRLP(s *rlp.Stream) error]. *)
Definition StorageBlock_DecodeRLP (b : ptr) (s : rlp_Stream)
  : M (option error * rlp_Stream) := λ σ,
  match Stream_Decode_storageblock s σ with
  | (inl err, s, σ) => Some ((Some err, s), σ)
  | (inr sb, s, σ) =>
      (modify_block b
         (λ B, with_td (sb_TD sb)
                 (with_receipts (sb_Receipts sb)
                    (with_transactions (sb_Txs sb)
                       (with_header (sb_Header sb) B))));;
       mret (None, s)) σ
  end.

(** The header [hb] in the cell [c] of [σx] is built on a deep copy of the
    header [hv] of [σ]: [c], its three big integers and the array of its
    non-empty extra data are cells that [σ] does not have, the big integers
    hold the values of [hv] (zero for nil), the extra data holds the same
    bytes, and the fields that no constructor sets are those of [hv]. *)
Definition deep_copy_of (σ : Store) (hv : Header) (c : loc) (hb : Header)
  (σx : Store) : Prop :=
  ∃ t d n,
    σ ⊆ σx ∧ σ !! c = None ∧ σ !! t = None ∧ σ !! d = None ∧ σ !! n = None
    ∧ σx !! c = Some (CHeader hb)
    ∧ Time hb = Some t ∧ Difficulty hb = Some d ∧ Number hb = Some n
    ∧ σx !! t = Some (CBigInt (default 0 (big_val σ (Time hv))))
    ∧ σx !! d = Some (CBigInt (default 0 (big_val σ (Difficulty hv))))
    ∧ σx !! n = Some (CBigInt (default 0 (big_val σ (Number hv))))
    ∧ (if decide (0 < len (Extra hv))%nat
       then ∃ e, Extra hb = SArr e 0 (len (Extra hv)) ∧ σ !! e = None
                 ∧ σx !! e = Some (CBytes (slice_val bytesK σ (Extra hv)))
       else Extra hb = Extra hv)
    ∧ ShardId hb = ShardId hv ∧ ParentHash hb = ParentHash hv
    ∧ Coinbase hb = Coinbase hv ∧ Root hb = Root hv
    ∧ GasLimit hb = GasLimit hv ∧ GasUsed hb = GasUsed hv
    ∧ MixDigest hb = MixDigest hv ∧ Nonce hb = Nonce hv.

(** A header content with the two roots and the filter replaced. *)
Definition with_roots (tx rc : common_Hash) (bl : types_Bloom)
  (v : HeaderVal) : HeaderVal :=
  mkHeaderVal (v_ShardId v) (v_ParentHash v) (v_Coinbase v) (v_Root v) tx rc
    bl (v_Difficulty v) (v_Number v) (v_GasLimit v) (v_GasUsed v) (v_Time v)
    (v_Extra v) (v_MixDigest v) (v_Nonce v).

(** Hash a block, decode into it, hash it again, and hash the header it
    has now. *)
Definition hash_decode_hash (b : ptr) (s : rlp_Stream)
  : M (common_Hash * common_Hash * common_Hash) :=
  h0 ← Block_Hash b;
  Block_DecodeRLP b s;;
  h1 ← Block_Hash b;
  B ← load_block b;
  h2 ← Header_Hash (header B);
  mret (h0, h1, h2).

(** Copy a header and read the extra-data slice of the original and of the
    copy. *)
Definition copy_then_read_Extra (h : ptr) : M (slice * slice) :=
  hv ← load_header h; c ← CopyHeader h; cv ← load_header c;
  mret (Extra hv, Extra cv).

(** Make a block with [WithBody], and read its receipt list or look a
    receipt up in it. *)
Definition withBody_receipts (b : ptr) (txs rcs : slice)
  : M (list (option ContractResult)) :=
  b' ← Block_WithBody b txs rcs; B ← load_block b';
  slice_load rcsK (receipts B).

Definition withBody_then_lookup (b : ptr) (txs rcs : slice)
  (x : common_Hash) : M (option ContractResult) :=
  b' ← Block_WithBody b txs rcs; Block_ContrcatReceipt b' x.

(** The storage decoder only allocates. *)
Definition Decode_storage_frame : Prop :=
  ∀ s σ r s' σ',
    Stream_Decode_storageblock s σ = (r, s', σ') → σ ⊆ σ'.

(** The encoding of a header is made of its content: the fields, with the
    big integers and the extra data read through. *)
Definition Header_encoding_by_content : Prop :=
  ∀ σ1 σ2 p q,
    header_val σ1 p = header_val σ2 q →
    rlp_chunks_Header σ1 p = rlp_chunks_Header σ2 q.

End Further.

(** *** More of the concrete instance *)
Section Example_further.
#[local] Existing Instances ex_Entities ex_Engines.

(** Decodes the one byte [C4] to a [storageblock] without fields and fails
    with error 3 on any other input. *)
Definition ex_StorageEngine : StorageEngine :=
  λ s σ,
    if decide (take 1 s = [xc4])
    then (inr (mkStorageblock None SNil SNil None), drop 1 s, σ)
    else (inl 3%nat, s, σ).

(** [ex_store] with a hash in the cache of the block at 9. *)
Definition ex_store_hashed : Store :=
  <[9%positive := CBlock (mkBlock (Some 8%positive) ex_txs ex_rcs
                            (Some (ex_hash 77)) None None)]> ex_store.

(** [ex_store] with a nil second receipt. *)
Definition ex_store_nil_receipt : Store :=
  <[6%positive := CRcs [Some 1%nat; None]]> ex_store.

(** [ex_store] with the block at 9 over the header at 1. *)
Definition ex_store_full : Store :=
  <[9%positive := CBlock (mkBlock (Some 1%positive) ex_txs ex_rcs None None
                            None)]> ex_store.

(** [ex_store] with a header at 10 that has all three big integers: that at
    1 with the big integer at 2 as its difficulty too. *)
Definition ex_store_difficulty : Store :=
  <[10%positive := CHeader (with_Difficulty (Some 2%positive) ex_header)]>
    ex_store.

(** [ex_store] with a header at 11 whose extra data is the empty window at
    the start of the array at 4. *)
Definition ex_store_empty_extra : Store :=
  <[11%positive := CHeader (with_Extra (SArr 4%positive 0 0) ex_header)]>
    ex_store.

(** The engine of the instance with another header encoding: as many bytes
    as the number of the header says, so that the stand-in for Keccak-256,
    which repeats the length of its input, tells headers of different
    numbers apart. *)
Definition ex_Engines_unary : Engines :=
  {| rlp_Stream := list byte;
     Stream_Kind := ex_Kind;
     Stream_Decode_extblock := ex_Decode;
     rlp_ListSize := ex_ListSize;
     rlp_chunks_Header := λ σ h,
       match header_val σ h with
       | Some v => [replicate (Z.to_nat (default 0 (v_Number v))) x01]
       | None => [[xc0]]
       end;
     rlp_chunks_extblock := λ σ eb,
       [[xc3]; [xc0];
        [ex_byte (len (eb_Txs eb)); ex_byte (len (eb_Receipts eb))]];
     sort_Sort := λ T I data, insertionSort data |}.

End Example_further.

(** * Properties *)

Section Proofs.
Context {E : Entities} {G : Engines}.

(** ** The monad *)

Lemma wp_run {A : Type} (m : M A) (Q : A → Store → Prop) (σ : Store) :
  wp m Q σ ↔ ∃ a σ', m σ = Some (a, σ') ∧ Q a σ'.
Proof.
  unfold wp. destruct (m σ) as [[a σ']|]; split.
  - eauto.
  - intros (a' & σ'' & Heq & HQ). by simplify_eq.
  - done.
  - by intros (a' & σ'' & Heq & HQ).
Qed.

Lemma wp_ret {A : Type} (a : A) (Q : A → Store → Prop) (σ : Store) :
  Q a σ → wp (mret a) Q σ.
Proof. done. Qed.

Lemma wp_bind {A B : Type} (m : M A) (f : A → M B) (Q : B → Store → Prop)
  (σ : Store) :
  wp m (λ a σ', wp (f a) Q σ') σ → wp (m ≫= f) Q σ.
Proof.
  unfold wp, mbind, M_bind. by destruct (m σ) as [[a σ']|].
Qed.

Lemma wp_mono {A : Type} (m : M A) (Q Q' : A → Store → Prop) (σ : Store) :
  wp m Q σ → (∀ a σ', Q a σ' → Q' a σ') → wp m Q' σ.
Proof. unfold wp. destruct (m σ) as [[a σ']|]; [auto | done]. Qed.

Lemma wp_alloc (c : cell) (Q : loc → Store → Prop) (σ : Store) :
  (∀ l, σ !! l = None → Q l (<[l := c]> σ)) → wp (alloc c) Q σ.
Proof.
  intros HQ. unfold wp, alloc. apply HQ.
  apply not_elem_of_dom, is_fresh.
Qed.

Lemma wp_load (l : loc) (c : cell) (Q : cell → Store → Prop) (σ : Store) :
  σ !! l = Some c → Q c σ → wp (load (Some l)) Q σ.
Proof. intros Hl HQ. unfold wp, load. by rewrite Hl. Qed.

Lemma wp_store (l : loc) (c c' : cell) (Q : unit → Store → Prop)
  (σ : Store) :
  σ !! l = Some c → Q tt (<[l := c']> σ) → wp (store (Some l) c') Q σ.
Proof. intros Hl HQ. unfold wp, store. by rewrite Hl. Qed.

Lemma wp_load_big (l : loc) (z : Z) (Q : Z → Store → Prop) (σ : Store) :
  σ !! l = Some (CBigInt z) → Q z σ → wp (load_big (Some l)) Q σ.
Proof.
  intros Hl HQ. apply wp_bind. by eapply wp_load.
Qed.

Lemma wp_load_header (l : loc) (h : Header) (Q : Header → Store → Prop)
  (σ : Store) :
  σ !! l = Some (CHeader h) → Q h σ → wp (load_header (Some l)) Q σ.
Proof.
  intros Hl HQ. apply wp_bind. by eapply wp_load.
Qed.

Lemma wp_load_block (l : loc) (b : Block) (Q : Block → Store → Prop)
  (σ : Store) :
  σ !! l = Some (CBlock b) → Q b σ → wp (load_block (Some l)) Q σ.
Proof.
  intros Hl HQ. apply wp_bind. by eapply wp_load.
Qed.

Lemma wp_modify_header (l : loc) (h : Header) (f : Header → Header)
  (Q : unit → Store → Prop) (σ : Store) :
  σ !! l = Some (CHeader h) → Q tt (<[l := CHeader (f h)]> σ) →
  wp (modify_header (Some l) f) Q σ.
Proof.
  intros Hl HQ. apply wp_bind. eapply wp_load_header; [done|].
  by eapply wp_store.
Qed.

Lemma wp_modify_block (l : loc) (b : Block) (f : Block → Block)
  (Q : unit → Store → Prop) (σ : Store) :
  σ !! l = Some (CBlock b) → Q tt (<[l := CBlock (f b)]> σ) →
  wp (modify_block (Some l) f) Q σ.
Proof.
  intros Hl HQ. apply wp_bind. eapply wp_load_block; [done|].
  by eapply wp_store.
Qed.

Lemma wp_new_big_Int (Q : ptr → Store → Prop) (σ : Store) :
  (∀ l, σ !! l = None → Q (Some l) (<[l := CBigInt 0]> σ)) →
  wp new_big_Int Q σ.
Proof.
  intros HQ. apply wp_bind, wp_alloc. intros l Hl. by apply HQ.
Qed.

Lemma wp_big_Int_Set (z x : loc) (vz vx : Z) (Q : ptr → Store → Prop)
  (σ : Store) :
  σ !! z = Some (CBigInt vz) → σ !! x = Some (CBigInt vx) →
  Q (Some z) (<[z := CBigInt vx]> σ) →
  wp (big_Int_Set (Some z) (Some x)) Q σ.
Proof.
  intros Hz Hx HQ. apply wp_bind. eapply wp_load_big; [done|].
  apply wp_bind. eapply wp_load_big; [done|].
  apply wp_bind. by eapply wp_store.
Qed.

#[local] Instance bytesK_ok : ArrKindOk bytesK.
Proof. split; [done | intros c l Hc; destruct c; by simplify_eq/=]. Qed.
#[local] Instance txsK_ok : ArrKindOk txsK.
Proof. split; [done | intros c l Hc; destruct c; by simplify_eq/=]. Qed.
#[local] Instance rcsK_ok : ArrKindOk rcsK.
Proof. split; [done | intros c l Hc; destruct c; by simplify_eq/=]. Qed.
#[local] Instance blocksK_ok : ArrKindOk blocksK.
Proof. split; [done | intros c l Hc; destruct c; by simplify_eq/=]. Qed.

Lemma slice_load_ok {A : Type} (K : ArrKind A) (σ : Store) (s : slice) :
  slice_ok K σ s →
  slice_load K s σ = Some (slice_val K σ s, σ)
  ∧ length (slice_val K σ s) = len s.
Proof.
  destruct s as [|a off n]; [done|].
  intros (c & l & Ha & Hc & Hle).
  assert (slice_load K (SArr a off n) σ = Some (take n (drop off l), σ))
    as Hrun.
  { unfold slice_load, load_arr, mbind, M_bind, load. rewrite Ha.
    simpl. rewrite Hc. by rewrite decide_True. }
  unfold slice_val. rewrite Hrun. split; [done|].
  simpl. rewrite length_take, length_drop. lia.
Qed.

Lemma big_val_weaken (σ0 σ : Store) (p : ptr) :
  σ0 ⊆ σ → big_ok σ0 p → big_val σ p = big_val σ0 p ∧ big_ok σ p.
Proof.
  intros Hsub. destruct p as [l|]; [|done]. intros [z Hz]. simpl.
  rewrite Hz, (lookup_weaken _ _ _ _ Hz Hsub). eauto.
Qed.

Lemma slice_val_weaken {A : Type} (K : ArrKind A) (σ0 σ : Store)
  (s : slice) :
  σ0 ⊆ σ → slice_ok K σ0 s →
  slice_val K σ s = slice_val K σ0 s ∧ slice_ok K σ s.
Proof.
  intros Hsub. destruct s as [|a off n]; [done|].
  intros (c & l & Ha & Hc & Hle).
  pose proof (lookup_weaken _ _ _ _ Ha Hsub) as Ha'.
  split; [|by exists c, l].
  unfold slice_val, slice_load, load_arr, mbind, M_bind, load.
  rewrite Ha, Ha', Hc. by rewrite decide_True.
Qed.

Lemma wp_slice_load {A : Type} (K : ArrKind A) (s : slice)
  (Q : list A → Store → Prop) (σ : Store) :
  slice_ok K σ s → Q (slice_val K σ s) σ → wp (slice_load K s) Q σ.
Proof.
  intros Hok HQ. apply wp_run.
  destruct (slice_load_ok K σ s Hok) as [-> _]. eauto.
Qed.

Lemma wp_slice_make {A : Type} (K : ArrKind A) (n : nat)
  (Q : slice → Store → Prop) (σ : Store) :
  (∀ a, σ !! a = None →
        Q (SArr a 0 n) (<[a := arr_inj K (replicate n (arr_zero K))]> σ)) →
  wp (slice_make K n) Q σ.
Proof.
  intros HQ. apply wp_bind, wp_alloc. intros a Ha. by apply HQ.
Qed.

(** Copying a whole slice into a fresh array of the same length. *)
Lemma wp_slice_copy_all {A : Type} (K : ArrKind A) `{!ArrKindOk K}
  (a : loc) (l : list A) (src : slice) (Q : nat → Store → Prop)
  (σ : Store) :
  σ !! a = Some (arr_inj K l) → length l = len src → slice_ok K σ src →
  Q (len src) (<[a := arr_inj K (slice_val K σ src)]> σ) →
  wp (slice_copy K (SArr a 0 (len src)) src) Q σ.
Proof.
  intros Ha Hlen Hok HQ. destruct (slice_load_ok K σ src Hok) as [Hrun Hl].
  apply wp_bind, wp_slice_load; [done|].
  apply wp_bind. unfold load_arr. apply wp_bind. eapply wp_load; [done|].
  rewrite arr_proj_inj. rewrite decide_True by (simpl; lia).
  apply wp_ret. apply wp_bind. eapply wp_store; [done|].
  apply wp_ret. simpl. rewrite Nat.min_id.
  rewrite firstn_all2 by lia. rewrite skipn_all2 by lia.
  by rewrite app_nil_r.
Qed.

Lemma lookup_insert_fresh (σ : Store) (a b : loc) (x y : cell) :
  σ !! a = None → σ !! b = Some y → <[a := x]> σ !! b = Some y.
Proof. intros Ha Hb. rewrite lookup_insert_ne; congruence. Qed.

(** The pattern [if cpy.F = new(big.Int); h.F != nil { cpy.F.Set(h.F) }],
    after the allocation. *)
Lemma wp_fill_big (σ0 σ1 : Store) (t : loc) (src : ptr)
  (Q : ptr → Store → Prop) :
  σ0 ⊆ σ1 → big_ok σ0 src → σ1 !! t = None →
  Q (Some t) (<[t := CBigInt (default 0 (big_val σ0 src))]> σ1) →
  wp (if decide (src ≠ None) then big_Int_Set (Some t) src
      else mret (Some t)) Q (<[t := CBigInt 0]> σ1).
Proof.
  intros Hsub Hok Ht HQ. destruct src as [l|]; simpl in *.
  - destruct Hok as [z Hz]. rewrite Hz in HQ. simpl in HQ.
    eapply wp_big_Int_Set.
    + apply lookup_insert_eq.
    + eapply lookup_insert_fresh; [done|]. by eapply lookup_weaken.
    + by rewrite insert_insert_eq.
  - by apply wp_ret.
Qed.

Lemma CopyHeader_spec (σ : Store) (h : loc) (hv : Header) :
  σ !! h = Some (CHeader hv) → header_ok σ hv →
  wp (CopyHeader (Some h)) (CopyHeader_post σ hv) σ.
Proof.
  intros Hh (Ht & Hd & Hn & He). unfold CopyHeader.
  apply wp_bind. eapply wp_load_header; [done|].
  apply wp_bind, wp_new_big_Int. intros t Hft.
  apply wp_bind. cbn [Time with_Time].
  eapply (wp_fill_big σ); [done..|].
  set (σ1 := <[t := _]> σ).
  assert (σ ⊆ σ1) as Hs1 by (by apply insert_subseteq).
  assert (σ1 !! t = Some (CBigInt (default 0 (big_val σ (Time hv)))))
    as Ht1 by apply lookup_insert_eq.
  apply wp_bind, wp_new_big_Int. intros d Hfd.
  apply wp_bind. cbn [Difficulty with_Difficulty with_Time].
  eapply (wp_fill_big σ); [done..|].
  set (σ2 := <[d := _]> σ1).
  assert (σ !! d = None) as Hfd0 by (by eapply lookup_weaken_None).
  assert (σ ⊆ σ2) as Hs2 by (by apply insert_subseteq_r).
  assert (σ2 !! t = Some (CBigInt (default 0 (big_val σ (Time hv)))))
    as Ht2 by (by apply lookup_insert_fresh).
  assert (σ2 !! d = Some (CBigInt (default 0 (big_val σ (Difficulty hv)))))
    as Hd2 by apply lookup_insert_eq.
  apply wp_bind, wp_new_big_Int. intros n Hfn.
  apply wp_bind. cbn [Number with_Number with_Difficulty with_Time].
  eapply (wp_fill_big σ); [done..|].
  set (σ3 := <[n := _]> σ2).
  assert (σ !! n = None) as Hfn0 by (by eapply lookup_weaken_None).
  assert (σ ⊆ σ3) as Hs3 by (by apply insert_subseteq_r).
  assert (σ3 !! t = Some (CBigInt (default 0 (big_val σ (Time hv)))))
    as Ht3 by (by apply lookup_insert_fresh).
  assert (σ3 !! d = Some (CBigInt (default 0 (big_val σ (Difficulty hv)))))
    as Hd3 by (by apply lookup_insert_fresh).
  assert (σ3 !! n = Some (CBigInt (default 0 (big_val σ (Number hv)))))
    as Hn3 by apply lookup_insert_eq.
  clearbody σ1 σ2 σ3.
  apply wp_bind. destruct (decide (0 < len (Extra hv))%nat) as [Hlen|Hlen].
  - apply wp_bind, wp_slice_make. intros e Hfe.
    destruct (slice_val_weaken bytesK σ σ3 (Extra hv) Hs3 He) as [Hv Hok3].
    set (σ4 := <[e := _]> σ3).
    assert (σ !! e = None) as Hfe0 by (by eapply lookup_weaken_None).
    assert (σ3 ⊆ σ4) as Hs34 by (by apply insert_subseteq).
    destruct (slice_val_weaken bytesK σ3 σ4 (Extra hv) Hs34 Hok3)
      as [Hv4 Hok4].
    apply wp_bind. eapply (wp_slice_copy_all bytesK);
      [apply lookup_insert_eq | apply length_replicate | done |].
    apply wp_ret, wp_ret. subst σ4. rewrite insert_insert_eq.
    rewrite Hv4, Hv.
    set (σ4 := <[e := _]> σ3).
    assert (σ ⊆ σ4) as Hs4 by (by apply insert_subseteq_r).
    apply wp_bind, wp_alloc. intros c Hfc. apply wp_ret.
    assert (σ4 !! e = Some (CBytes (slice_val bytesK σ (Extra hv))))
      as He4 by apply lookup_insert_eq.
    assert (σ4 !! t = Some (CBigInt (default 0 (big_val σ (Time hv)))))
      as Ht4 by (by apply lookup_insert_fresh).
    assert (σ4 !! d
            = Some (CBigInt (default 0 (big_val σ (Difficulty hv)))))
      as Hd4 by (by apply lookup_insert_fresh).
    assert (σ4 !! n = Some (CBigInt (default 0 (big_val σ (Number hv)))))
      as Hn4 by (by apply lookup_insert_fresh).
    clearbody σ4.
    exists c, t, d, n, (SArr e 0 (len (Extra hv))).
    split_and!; try done.
    + by apply insert_subseteq_r; [eapply lookup_weaken_None|].
    + by eapply lookup_weaken_None.
    + apply lookup_insert_eq.
    + by apply lookup_insert_fresh.
    + by apply lookup_insert_fresh.
    + by apply lookup_insert_fresh.
    + rewrite decide_True by done. exists e. split_and!; try done.
      by apply lookup_insert_fresh.
  - apply wp_ret. apply wp_bind, wp_alloc. intros c Hfc. apply wp_ret.
    exists c, t, d, n, (Extra hv).
    split_and!; try done.
    + by apply insert_subseteq_r; [eapply lookup_weaken_None|].
    + by eapply lookup_weaken_None.
    + rewrite lookup_insert_eq. by destruct hv.
    + by apply lookup_insert_fresh.
    + by apply lookup_insert_fresh.
    + by apply lookup_insert_fresh.
    + by rewrite decide_False.
Qed.

Lemma slice_val_empty {A : Type} (K : ArrKind A) (σ : Store) (s : slice) :
  len s = 0%nat → slice_val K σ s = [].
Proof.
  destruct s as [|a off n]; [done|]. simpl. intros ->.
  unfold slice_val, slice_load, mbind, M_bind.
  destruct (load_arr K a off 0 σ) as [[l σ']|]; done.
Qed.

Lemma slice_val_agree {A : Type} (K : ArrKind A) (σa σb : Store)
  (s : slice) :
  (∀ l off n, s = SArr l off n → (0 < n)%nat → σb !! l = σa !! l) →
  slice_val K σb s = slice_val K σa s.
Proof.
  intros Hag. destruct (decide (len s = 0%nat)) as [Hz|Hnz].
  { by rewrite !slice_val_empty. }
  destruct s as [|a off n]; [done|]. simpl in Hnz.
  unfold slice_val, slice_load, load_arr, mbind, M_bind, load.
  rewrite (Hag a off n) by (done || lia).
  destruct (σa !! a) as [c|]; [|done].
  destruct (arr_proj K c) as [l|]; [|done].
  by destruct (decide (off + n ≤ length l)%nat).
Qed.

Lemma big_val_agree (σa σb : Store) (p : ptr) :
  (∀ l, p = Some l → σb !! l = σa !! l) → big_val σb p = big_val σa p.
Proof.
  intros Hag. destruct p as [l|]; [|done]. simpl. by rewrite Hag.
Qed.

Lemma read_Header_agree (σa σb : Store) (hv : Header) :
  (∀ l, Time hv = Some l → σb !! l = σa !! l) →
  (∀ l, Difficulty hv = Some l → σb !! l = σa !! l) →
  (∀ l, Number hv = Some l → σb !! l = σa !! l) →
  (∀ l off n, Extra hv = SArr l off n → (0 < n)%nat →
              σb !! l = σa !! l) →
  read_Header σb hv = read_Header σa hv.
Proof.
  intros Ht Hd Hn He. unfold read_Header.
  rewrite (big_val_agree σa σb (Time hv)) by done.
  rewrite (big_val_agree σa σb (Difficulty hv)) by done.
  rewrite (big_val_agree σa σb (Number hv)) by done.
  by rewrite (slice_val_agree bytesK σa σb (Extra hv)).
Qed.

(** A mutation through a header pointer writes the header itself, one of
    its big integers, or the array of its non-empty extra data. *)
Lemma mutate_agree (σ1 σ2 : Store) (p : loc) (pv : Header) (m : mutation)
  (l : loc) :
  σ1 !! p = Some (CHeader pv) →
  mutate (Some p) m σ1 = Some (tt, σ2) →
  l ≠ p → Time pv ≠ Some l → Difficulty pv ≠ Some l → Number pv ≠ Some l →
  (∀ off n, Extra pv = SArr l off n → n = 0%nat) →
  σ2 !! l = σ1 !! l.
Proof.
  intros Hp Hrun Hlp Ht Hd Hn He.
  destruct m as [f|v|v|v|i x]; simpl in Hrun;
    unfold modify_header, set_big, load_big, load_header, mbind, M_bind,
      load in Hrun; rewrite Hp in Hrun; simpl in Hrun.
  - unfold store in Hrun. rewrite Hp in Hrun. simplify_eq.
    by rewrite lookup_insert_ne.
  - destruct (Time pv) as [q|]; [|done].
    destruct (σ1 !! q) as [[]|] eqn:Hq; simplify_eq/=.
    unfold store in Hrun. rewrite Hq in Hrun. simplify_eq.
    rewrite lookup_insert_ne; [done | congruence].
  - destruct (Difficulty pv) as [q|]; [|done].
    destruct (σ1 !! q) as [[]|] eqn:Hq; simplify_eq/=.
    unfold store in Hrun. rewrite Hq in Hrun. simplify_eq.
    rewrite lookup_insert_ne; [done | congruence].
  - destruct (Number pv) as [q|]; [|done].
    destruct (σ1 !! q) as [[]|] eqn:Hq; simplify_eq/=.
    unfold store in Hrun. rewrite Hq in Hrun. simplify_eq.
    rewrite lookup_insert_ne; [done | congruence].
  - destruct (Extra pv) as [|a off n] eqn:Hex; [done|].
    unfold slice_assign, load_arr, mbind, M_bind, load in Hrun.
    destruct (σ1 !! a) as [c|] eqn:Ha; [|done].
    destruct (arr_proj bytesK c) as [bs|]; [|done].
    destruct (decide (off + n ≤ length bs)%nat); [|done].
    simpl in Hrun. destruct (decide (i < n)%nat) as [Hi|]; [|done].
    unfold store in Hrun. rewrite Ha in Hrun. simplify_eq.
    rewrite lookup_insert_ne; [done|].
    intros ->. specialize (He off n eq_refl). lia.
Qed.

Lemma slice_val_whole {A : Type} (K : ArrKind A) `{!ArrKindOk K}
  (σ : Store) (a : loc) (vs : list A) :
  σ !! a = Some (arr_inj K vs) → slice_val K σ (SArr a 0 (length vs)) = vs.
Proof.
  intros Ha. unfold slice_val, slice_load, load_arr, mbind, M_bind, load.
  rewrite Ha, arr_proj_inj. rewrite decide_True by (simpl; lia).
  simpl. by rewrite firstn_all.
Qed.

(** A cell outside the store is none of the cells a header of the store
    refers to. *)
Lemma fresh_not_referred (σ : Store) (hv : Header) (l : loc) :
  header_ok σ hv → σ !! l = None →
  Time hv ≠ Some l ∧ Difficulty hv ≠ Some l ∧ Number hv ≠ Some l
  ∧ (∀ off n, Extra hv = SArr l off n → n = 0%nat).
Proof.
  intros (Ht & Hd & Hn & He) Hl. split_and!.
  - intros Heq. rewrite Heq in Ht. destruct Ht; congruence.
  - intros Heq. rewrite Heq in Hd. destruct Hd; congruence.
  - intros Heq. rewrite Heq in Hn. destruct Hn; congruence.
  - intros off n Heq. rewrite Heq in He.
    destruct He as (? & ? & ? & _); congruence.
Qed.

Lemma header_val_agree (σ σx : Store) (h : loc) (hv : Header) :
  σ !! h = Some (CHeader hv) → header_ok σ hv →
  (∀ l, is_Some (σ !! l) → σx !! l = σ !! l) →
  header_val σx (Some h) = header_val σ (Some h).
Proof.
  intros Hh (Hokt & Hokd & Hokn & Hoke) Hold. simpl.
  rewrite (Hold h), Hh by eauto. f_equal.
  apply read_Header_agree.
  - intros l Hl. apply Hold. rewrite Hl in Hokt. destruct Hokt; eauto.
  - intros l Hl. apply Hold. rewrite Hl in Hokd. destruct Hokd; eauto.
  - intros l Hl. apply Hold. rewrite Hl in Hokn. destruct Hokn; eauto.
  - intros l off k Hl _. apply Hold. rewrite Hl in Hoke.
    destruct Hoke as (? & ? & ? & _); eauto.
Qed.

(** C5.  [CopyHeader(h)] returns a new header whose fields equal those of
    [h], big integers by value and extra data byte for byte, with a zero
    in place of a nil big integer; the copy, its three big integers and
    the array of its non-empty extra data are new cells, while extra data
    of length zero is kept as the slice it is; a change made through the
    copy leaves [h] as it was, and a change made through [h] leaves the
    copy as it was. *)
Theorem CopyHeader_deep_copy (σ : Store) (h : loc) (hv : Header) :
  σ !! h = Some (CHeader hv) → header_ok σ hv →
  ∃ c σ',
    CopyHeader (Some h) σ = Some (Some c, σ')
    ∧ header_val σ' (Some c) = zero_for_nil <$> header_val σ (Some h)
    ∧ header_val σ' (Some h) = header_val σ (Some h)
    ∧ (∃ cv t d n,
         σ' !! c = Some (CHeader cv) ∧ σ !! c = None
         ∧ Time cv = Some t ∧ σ !! t = None
         ∧ Difficulty cv = Some d ∧ σ !! d = None
         ∧ Number cv = Some n ∧ σ !! n = None
         ∧ ((0 < len (Extra hv))%nat →
            ∃ e, Extra cv = SArr e 0 (len (Extra hv)) ∧ σ !! e = None)
         ∧ (len (Extra hv) = 0%nat → Extra cv = Extra hv))
    ∧ (∀ m σ2, mutate (Some c) m σ' = Some (tt, σ2) →
               header_val σ2 (Some h) = header_val σ (Some h))
    ∧ (∀ m σ2, mutate (Some h) m σ' = Some (tt, σ2) →
               header_val σ2 (Some c) = header_val σ' (Some c)).
Proof.
  intros Hh Hok. pose proof (CopyHeader_spec σ h hv Hh Hok) as Hwp.
  apply wp_run in Hwp as (r & σ' & Hrun & Hpost).
  destruct Hpost as (c & t & d & n & ex & -> & Hsub & Hfc & Hft & Hfd
                     & Hfn & Hc & Ht & Hd & Hn & Hex).
  exists c, σ'. split; [done|].
  assert (∀ l, is_Some (σ !! l) → σ' !! l = σ !! l) as Hold.
  { intros l [x Hx]. rewrite Hx. by eapply lookup_weaken. }
  pose proof (lookup_weaken _ _ _ _ Hh Hsub) as Hh'.
  split_and!.
  - simpl. rewrite Hc, Hh. simpl. f_equal.
    unfold read_Header, zero_for_nil. simpl. rewrite Ht, Hd, Hn.
    f_equal. destruct (decide (0 < len (Extra hv))%nat) as [Hlen|Hlen].
    + destruct Hex as (e & -> & Hfe & He).
      destruct Hok as (_ & _ & _ & Hoke).
      destruct (slice_load_ok bytesK σ (Extra hv) Hoke) as [_ Hl].
      rewrite <- Hl at 1. by apply (slice_val_whole bytesK).
    + subst ex. rewrite !slice_val_empty; [done | lia..].
  - by eapply header_val_agree.
  - eexists _, t, d, n. split_and!; try done.
    + intros Hlen. rewrite decide_True in Hex by done.
      destruct Hex as (e & -> & Hfe & _). eauto.
    + intros Hlen. rewrite decide_False in Hex by lia. by subst ex.
  - intros m σ2 Hmut. eapply header_val_agree; [done..|].
    intros l Hl. rewrite <- (Hold l Hl).
    assert (l ≠ c) as Hlc by (intros ->; destruct Hl; congruence).
    assert (l ≠ t) as Hlt by (intros ->; destruct Hl; congruence).
    assert (l ≠ d) as Hld by (intros ->; destruct Hl; congruence).
    assert (l ≠ n) as Hln by (intros ->; destruct Hl; congruence).
    eapply mutate_agree; [exact Hc | exact Hmut | simpl; try congruence..].
    intros off k Heq. destruct (decide (0 < len (Extra hv))%nat).
    + destruct Hex as (e & -> & Hfe & _). simplify_eq.
      destruct Hl; congruence.
    + subst ex. rewrite Heq in *. simpl in *. lia.
  - intros m σ2 Hmut.
    assert (∀ l, σ !! l = None → σ2 !! l = σ' !! l) as Hnew.
    { intros l Hl.
      destruct (fresh_not_referred σ hv l Hok Hl) as (? & ? & ? & ?).
      eapply mutate_agree; [exact Hh' | exact Hmut | try done..].
      intros ->. congruence. }
    simpl. rewrite (Hnew c Hfc), Hc. f_equal.
    apply read_Header_agree; simpl.
    + intros l [= <-]. by apply Hnew.
    + intros l [= <-]. by apply Hnew.
    + intros l [= <-]. by apply Hnew.
    + intros l off k Heq Hk. destruct (decide (0 < len (Extra hv))%nat).
      * destruct Hex as (e & -> & Hfe & _). simplify_eq. by apply Hnew.
      * subst ex. rewrite Heq in *. simpl in *. lia.
Qed.


(** The transaction half of [NewBlock], on a block [bl] under
    construction whose header is the cell [c]. *)
Lemma wp_NewBlock_txs (σ σk : Store) (c bl : loc) (hb : Header) (B : Block)
  (txs : slice) (Q : unit → Store → Prop) :
  σ ⊆ σk → σ !! c = None → σ !! bl = None → c ≠ bl →
  σk !! c = Some (CHeader hb) → σk !! bl = Some (CBlock B) →
  header B = Some c → transactions B = SNil → slice_ok txsK σ txs →
  (∀ σ' ts,
     σ ⊆ σ' →
     σ' !! c = Some (CHeader
                       (with_TxHash
                          (if decide (len txs = 0%nat) then EmptyRootHash
                           else DeriveSha _ _ (slice_val txsK σ txs)) hb)) →
     σ' !! bl = Some (CBlock (with_transactions ts B)) →
     slice_val txsK σ' ts = slice_val txsK σ txs →
     (if decide (len txs = 0%nat) then ts = SNil
      else ∃ a, ts = SArr a 0 (len txs) ∧ σk !! a = None) →
     Q tt σ') →
  wp (if decide (len txs = 0%nat) then
        B ← load_block (Some bl);
        modify_header (header B) (with_TxHash EmptyRootHash)
      else
        vs ← slice_load txsK txs;
        B ← load_block (Some bl);
        modify_header (header B) (with_TxHash (DeriveSha _ _ vs));;
        ts ← slice_make txsK (len txs);
        modify_block (Some bl) (with_transactions ts);;
        B ← load_block (Some bl);
        slice_copy txsK (transactions B) txs;;
        mret tt) Q σk.
Proof.
  intros Hsub Hfc Hfb Hne Hc Hb HB HT Hok HQ.
  destruct (decide (len txs = 0%nat)) as [Hz|Hnz].
  - apply wp_bind. eapply wp_load_block; [done|]. rewrite HB.
    eapply wp_modify_header; [done|].
    apply (HQ _ SNil).
    + by apply insert_subseteq_r.
    + apply lookup_insert_eq.
    + rewrite lookup_insert_ne by done. rewrite <- HT. by destruct B.
    + by rewrite !slice_val_empty.
    + done.
  - destruct (slice_val_weaken txsK σ σk txs Hsub Hok) as [Hv Hokk].
    apply wp_bind, wp_slice_load; [done|]. rewrite Hv.
    apply wp_bind. eapply wp_load_block; [done|]. rewrite HB.
    apply wp_bind. eapply wp_modify_header; [done|].
    set (σ1 := <[c := _]> σk).
    apply wp_bind, wp_slice_make. intros a Ha.
    apply lookup_insert_None in Ha as [Ha Hca].
    assert (a ≠ bl) as Hab by (intros ->; congruence).
    assert (σ !! a = None) as Ha0 by (by eapply lookup_weaken_None).
    apply wp_bind. eapply wp_modify_block.
    { rewrite lookup_insert_ne by done. subst σ1.
      by rewrite lookup_insert_ne. }
    apply wp_bind. eapply wp_load_block; [apply lookup_insert_eq|].
    apply wp_bind. cbn [transactions with_transactions].
    set (σ2 := <[bl := _]> _).
    assert (σ ⊆ σ2) as Hs2.
    { subst σ2 σ1. by repeat apply insert_subseteq_r. }
    destruct (slice_val_weaken txsK σ σ2 txs Hs2 Hok) as [Hv2 Hok2].
    eapply (wp_slice_copy_all txsK).
    { subst σ2. rewrite lookup_insert_ne by done. apply lookup_insert_eq. }
    { apply length_replicate. }
    { done. }
    apply wp_ret, wp_ret. rewrite Hv2.
    apply (HQ _ (SArr a 0 (len txs))).
    + by apply insert_subseteq_r.
    + subst σ2 σ1. rewrite !lookup_insert_ne by done.
      apply lookup_insert_eq.
    + subst σ2. rewrite lookup_insert_ne by done. apply lookup_insert_eq.
    + destruct (slice_load_ok txsK σ txs Hok) as [_ Hl].
      rewrite <- Hl at 1. apply (slice_val_whole txsK), lookup_insert_eq.
    + eauto.
Qed.

(** The receipt half of [NewBlock]. *)
Lemma wp_NewBlock_rcs (σ σk : Store) (c bl : loc) (hb : Header) (B : Block)
  (rcs : slice) (Q : unit → Store → Prop) :
  σ ⊆ σk → c ≠ bl →
  σk !! c = Some (CHeader hb) → σk !! bl = Some (CBlock B) →
  header B = Some c → slice_ok rcsK σ rcs →
  Q tt (<[c := CHeader
               (if decide (len rcs = 0%nat)
                then with_ReceiptHash EmptyRootHash hb
                else with_Bloom (CreateBloom (slice_val rcsK σ rcs))
                       (with_ReceiptHash
                          (DeriveSha ContractResults _
                             (slice_val rcsK σ rcs)) hb))]> σk) →
  wp (if decide (len rcs = 0%nat) then
        B ← load_block (Some bl);
        modify_header (header B) (with_ReceiptHash EmptyRootHash)
      else
        rs ← slice_load rcsK rcs;
        B ← load_block (Some bl);
        modify_header (header B)
          (with_ReceiptHash (DeriveSha ContractResults _ rs));;
        B ← load_block (Some bl);
        modify_header (header B) (with_Bloom (CreateBloom rs))) Q σk.
Proof.
  intros Hsub Hne Hc Hb HB Hok HQ.
  destruct (decide (len rcs = 0%nat)) as [Hz|Hnz].
  - apply wp_bind. eapply wp_load_block; [done|]. rewrite HB.
    by eapply wp_modify_header.
  - destruct (slice_val_weaken rcsK σ σk rcs Hsub Hok) as [Hv Hokk].
    apply wp_bind, wp_slice_load; [done|]. rewrite Hv.
    apply wp_bind. eapply wp_load_block; [done|]. rewrite HB.
    apply wp_bind. eapply wp_modify_header; [done|].
    apply wp_bind. eapply wp_load_block.
    { by rewrite lookup_insert_ne. }
    rewrite HB. eapply wp_modify_header; [apply lookup_insert_eq|].
    by rewrite insert_insert_eq.
Qed.

Lemma NewBlock_spec (σ : Store) (h : loc) (hv : Header) (txs rcs : slice) :
  σ !! h = Some (CHeader hv) → header_ok σ hv →
  slice_ok txsK σ txs → slice_ok rcsK σ rcs →
  wp (NewBlock (Some h) txs rcs) (NewBlock_post σ hv txs rcs) σ.
Proof.
  intros Hh Hok Hoktx Hokrc.
  unfold NewBlock.
  apply wp_bind. eapply wp_mono; [by apply CopyHeader_spec|].
  intros r σ1 (c & t & d & n & ex & -> & Hs1 & Hfc & Hft & Hfd & Hfn & Hc
               & _).
  apply wp_bind, wp_new_big_Int. intros tdl Htd.
  apply wp_bind, wp_alloc. intros bl Hbl.
  apply lookup_insert_None in Hbl as [Hbl Htb].
  assert (c ≠ bl) as Hcb by (intros ->; congruence).
  assert (c ≠ tdl) as Hct by (intros ->; congruence).
  assert (σ !! bl = None) as Hfb by (by eapply lookup_weaken_None).
  set (σ3 := <[bl := _]> _).
  assert (σ ⊆ σ3) as Hs3.
  { subst σ3. apply insert_subseteq_r; [done|].
    apply insert_subseteq_r; [by eapply lookup_weaken_None | done]. }
  apply wp_bind.
  eapply (wp_NewBlock_txs σ σ3 c bl _
            (mkBlock (Some c) SNil SNil None None (Some tdl)));
    [done | done | done | done | | apply lookup_insert_eq | done | done
    | done |].
  { subst σ3. by rewrite !lookup_insert_ne by done. }
  intros σ4 ts Hs4 Hc4 Hb4 Hts Hshape.
  apply wp_bind.
  eapply (wp_NewBlock_rcs σ σ4 c bl); [done | done | done | done | done
                                      | done |].
  apply wp_ret.
  exists bl, c. do 2 eexists. split_and!.
  - done.
  - by apply insert_subseteq_r.
  - done.
  - done.
  - by rewrite lookup_insert_ne.
  - done.
  - done.
  - done.
  - done.
  - rewrite lookup_insert_eq. by destruct (decide (len rcs = 0%nat)).
  - eauto.
  - cbn [transactions with_transactions]. rewrite <- Hts.
    apply slice_val_agree. intros l off k -> Hk.
    apply lookup_insert_ne. intros ->.
    destruct (decide (len txs = 0%nat)) as [|Hnz]; [done|].
    destruct Hshape as (a & [= -> -> ->] & Ha).
    subst σ3. rewrite lookup_insert_ne, lookup_insert_ne in Ha by done.
    congruence.
  - cbn [transactions with_transactions].
    destruct (decide (len txs = 0%nat)); [done|].
    destruct Hshape as (a & -> & Ha). exists a. split; [done|].
    by eapply lookup_weaken_None.
Qed.

(** A header accessor of a block reads the header cell of the block. *)
Lemma Block_header_field {X : Type} (f : Header → X) (σ : Store) (b c : loc)
  (B : Block) (hb : Header) :
  σ !! b = Some (CBlock B) → header B = Some c →
  σ !! c = Some (CHeader hb) →
  (B ← load_block (Some b); h ← load_header (header B); mret (f h)) σ
  = Some (f hb, σ).
Proof.
  intros Hb HB Hc.
  assert (wp (B ← load_block (Some b); h ← load_header (header B);
              mret (f h)) (λ r σ', r = f hb ∧ σ' = σ) σ) as Hwp.
  { apply wp_bind. eapply wp_load_block; [done|]. rewrite HB.
    apply wp_bind. eapply wp_load_header; [done|]. by apply wp_ret. }
  apply wp_run in Hwp as (r & σ' & -> & -> & ->). done.
Qed.

(** C1.  [NewBlock(h, txs, rcpts)] sets the transaction root of the new
    block to the empty-set root when [txs] is empty and to [DeriveSha] of
    the transactions in their order otherwise, the receipt root likewise
    from [rcpts], and the filter to [CreateBloom] of the receipts when
    there are some; none of the three depends on what the header passed in
    held in these fields. *)
Theorem NewBlock_derives_roots (σ : Store) (h : loc) (hv : Header)
  (txs rcs : slice) :
  σ !! h = Some (CHeader hv) → header_ok σ hv →
  slice_ok txsK σ txs → slice_ok rcsK σ rcs →
  ∃ b σ',
    NewBlock (Some h) txs rcs σ = Some (Some b, σ')
    ∧ Block_TxHash (Some b) σ'
      = Some (if decide (len txs = 0%nat) then EmptyRootHash
              else DeriveSha Transactions _ (slice_val txsK σ txs), σ')
    ∧ Block_ReceiptHash (Some b) σ'
      = Some (if decide (len rcs = 0%nat) then EmptyRootHash
              else DeriveSha ContractResults _ (slice_val rcsK σ rcs), σ')
    ∧ (len rcs ≠ 0%nat →
       Block_Bloom (Some b) σ'
       = Some (CreateBloom (slice_val rcsK σ rcs), σ')).
Proof.
  intros Hh Hok Htx Hrc.
  pose proof (NewBlock_spec σ h hv txs rcs Hh Hok Htx Hrc) as Hwp.
  apply wp_run in Hwp as (r & σ' & Hrun & Hpost).
  destruct Hpost as (b & c & B & cv & -> & _ & _ & _ & Hb & HB & _ & _ & _
                     & Hc & _).
  exists b, σ'. split; [done|]. split_and!.
  - unfold Block_TxHash. erewrite Block_header_field; [|done..].
    by destruct (decide (len rcs = 0%nat)).
  - unfold Block_ReceiptHash. erewrite Block_header_field; [|done..].
    by destruct (decide (len rcs = 0%nat)).
  - intros Hne. unfold Block_Bloom. erewrite Block_header_field; [|done..].
    by rewrite decide_False.
Qed.

(** C4.  With an empty receipt list, [NewBlock] leaves the filter of the
    new block at the value of the header passed in, and sets the receipt
    root to the empty-set root. *)
Theorem NewBlock_empty_receipts_keep_Bloom (σ : Store) (h : loc)
  (hv : Header) (txs rcs : slice) :
  σ !! h = Some (CHeader hv) → header_ok σ hv →
  slice_ok txsK σ txs → slice_ok rcsK σ rcs → len rcs = 0%nat →
  ∃ b σ',
    NewBlock (Some h) txs rcs σ = Some (Some b, σ')
    ∧ Block_Bloom (Some b) σ' = Some (Bloom hv, σ')
    ∧ Block_ReceiptHash (Some b) σ' = Some (EmptyRootHash, σ').
Proof.
  intros Hh Hok Htx Hrc Hz.
  pose proof (NewBlock_spec σ h hv txs rcs Hh Hok Htx Hrc) as Hwp.
  apply wp_run in Hwp as (r & σ' & Hrun & Hpost).
  destruct Hpost as (b & c & B & cv & -> & _ & _ & _ & Hb & HB & _ & _ & _
                     & Hc & (t & d & n & ex & ->) & _).
  rewrite decide_True in Hc by done.
  exists b, σ'. split; [done|]. split.
  - unfold Block_Bloom. erewrite Block_header_field; [|done..]. done.
  - unfold Block_ReceiptHash. erewrite Block_header_field; [|done..].
    done.
Qed.


(** ** Encoding into the three writers *)

Lemma rlp_Encode_Keccak (hw : KeccakState) (chunks : list (list byte)) :
  rlp_Encode hw chunks = (mkKeccak (absorbed hw ++ concat chunks), None).
Proof.
  revert hw. induction chunks as [|c rest IH]; intros hw; simpl.
  - rewrite app_nil_r. by destruct hw.
  - unfold Write, KeccakState_Writer. rewrite IH. simpl.
    by rewrite <- app_assoc.
Qed.

Lemma rlp_Encode_writeCounter (c : writeCounter)
  (chunks : list (list byte)) :
  rlp_Encode c chunks = (c + Z.of_nat (length (concat chunks)), None).
Proof.
  revert c. induction chunks as [|x rest IH]; intros c; simpl.
  - f_equal. lia.
  - unfold Write, writeCounter_Writer, writeCounter_Write. rewrite IH.
    f_equal. rewrite length_app. lia.
Qed.

Lemma rlp_Encode_buffer (w : list byte) (chunks : list (list byte)) :
  rlp_Encode w chunks = (w ++ concat chunks, None).
Proof.
  revert w. induction chunks as [|x rest IH]; intros w; simpl.
  - by rewrite app_nil_r.
  - unfold Write, buffer_Writer. rewrite IH. by rewrite <- app_assoc.
Qed.

Lemma Header_Hash_run (σ : Store) (h : ptr) :
  Header_Hash h σ
  = Some (Keccak256 (concat (rlp_chunks_Header σ h)), σ).
Proof.
  unfold Header_Hash, rlpHash_Header, mbind, M_bind, get_store.
  by rewrite rlp_Encode_Keccak.
Qed.

(** C3.  [Block.Hash()] on a block with an unset cache computes
    [Header.Hash()] of the block's header, the Keccak-256 hash of the
    header's encoding, stores it in the cache and returns it; on a set cache
    it returns the cached value without reading the header and changes
    nothing.  Every later call returns the same value, whatever the header
    of the block has become, as long as the cache holds it. *)
Theorem Block_Hash_stable (σ : Store) (b : loc) (B : Block) :
  σ !! b = Some (CBlock B) →
  ∃ v σ1,
    Block_Hash (Some b) σ = Some (v, σ1)
    ∧ (hash B = None →
       Header_Hash (header B) σ = Some (v, σ)
       ∧ v = Keccak256 (concat (rlp_chunks_Header σ (header B)))
       ∧ σ1 = <[b := CBlock (with_hash (Some v) B)]> σ)
    ∧ (∀ w, hash B = Some w → v = w ∧ σ1 = σ)
    ∧ σ1 !! b = Some (CBlock (with_hash (Some v) B))
    ∧ Block_Hash (Some b) σ1 = Some (v, σ1)
    ∧ (∀ σ2 B2, σ2 !! b = Some (CBlock B2) → hash B2 = Some v →
                Block_Hash (Some b) σ2 = Some (v, σ2)).
Proof.
  intros Hb.
  assert (∀ σx Bx v, σx !! b = Some (CBlock Bx) → hash Bx = Some v →
                     Block_Hash (Some b) σx = Some (v, σx)) as Hhit.
  { intros σx Bx v Hx Hv.
    unfold Block_Hash, load_block, mbind, M_bind, load.
    rewrite Hx. simpl. by rewrite Hv. }
  destruct (hash B) as [w|] eqn:Hw.
  - exists w, σ. split_and!.
    + by eapply Hhit.
    + done.
    + by intros ? [= ->].
    + rewrite Hb. f_equal. f_equal. destruct B; simpl in *. by subst.
    + by eapply Hhit.
    + intros σ2 B2. apply Hhit.
  - exists (Keccak256 (concat (rlp_chunks_Header σ (header B)))).
    eexists. split_and!.
    + unfold Block_Hash, modify_block, load_block, mbind, M_bind, load.
      rewrite Hb. simpl. rewrite Hw, Header_Hash_run. simpl.
      unfold store, mret, M_ret. rewrite Hb. simpl. rewrite Hb.
      reflexivity.
    + intros _. split_and!; [apply Header_Hash_run | done | done].
    + done.
    + apply lookup_insert_eq.
    + eapply Hhit; [apply lookup_insert_eq | done].
    + intros σ2 B2. apply Hhit.
Qed.


Lemma Block_EncodeRLP_buffer (σ : Store) (b : loc) (B : Block) :
  σ !! b = Some (CBlock B) →
  Block_EncodeRLP (Some b) ([] : list byte) σ
  = Some ((concat (rlp_chunks_extblock σ
                     (mkExtblock (header B) (transactions B)
                        (receipts B))), None), σ).
Proof.
  intros Hb. unfold Block_EncodeRLP, load_block, mbind, M_bind, load,
    get_store, mret, M_ret.
  rewrite Hb. simpl. by rewrite rlp_Encode_buffer.
Qed.

Lemma Block_Size_cached (σ : Store) (b : loc) (B : Block) (v : Z) :
  σ !! b = Some (CBlock B) → size B = Some v →
  Block_Size (Some b) σ = Some (v, σ).
Proof.
  intros Hb Hv. unfold Block_Size, load_block, mbind, M_bind, load.
  rewrite Hb. simpl. by rewrite Hv.
Qed.

Lemma Block_DecodeRLP_ok (σ σ2 : Store) (b : loc) (B : Block)
  (s s1 s2 : rlp_Stream) (k : rlp_Kind) (sz : Z) (e : option error)
  (eb : extblock) :
  σ2 !! b = Some (CBlock B) →
  Stream_Kind s = ((k, sz, e), s1) →
  Stream_Decode_extblock s1 σ = (inr eb, s2, σ2) →
  Block_DecodeRLP (Some b) s σ
  = Some ((None, s2),
          <[b := CBlock (mkBlock (eb_Header eb) (eb_Txs eb)
                           (eb_Receipts eb) (hash B)
                           (Some (rlp_ListSize sz)) (td B))]> σ2).
Proof.
  intros Hb Hk Hd. unfold Block_DecodeRLP. rewrite Hk, Hd.
  unfold modify_block, load_block, mbind, M_bind, load, store, mret, M_ret.
  rewrite Hb. simpl. rewrite Hb. simpl. rewrite lookup_insert_eq. simpl.
  rewrite lookup_insert_eq. by rewrite insert_insert_eq.
Qed.


(** C7.  When the engine reports a decoding error, [DecodeRLP] returns
    that error; the block is not written, and with an engine that only
    allocates, the block, its header and its lists are as before. *)
Theorem Block_DecodeRLP_error (σ σ2 : Store) (b : loc) (B : Block)
  (s s1 s2 : rlp_Stream) (k : rlp_Kind) (sz : Z) (e : option error)
  (err : error) :
  Decode_frame →
  σ !! b = Some (CBlock B) →
  Stream_Kind s = ((k, sz, e), s1) →
  Stream_Decode_extblock s1 σ = (inl err, s2, σ2) →
  Block_DecodeRLP (Some b) s σ = Some ((Some err, s2), σ2)
  ∧ σ2 !! b = Some (CBlock B)
  ∧ (∀ l c, σ !! l = Some c → σ2 !! l = Some c)
  ∧ (∀ hl hv, header B = Some hl → σ !! hl = Some (CHeader hv) →
              header_ok σ hv →
              header_val σ2 (header B) = header_val σ (header B))
  ∧ (slice_ok txsK σ (transactions B) →
     slice_val txsK σ2 (transactions B) = slice_val txsK σ (transactions B))
  ∧ (slice_ok rcsK σ (receipts B) →
     slice_val rcsK σ2 (receipts B) = slice_val rcsK σ (receipts B)).
Proof.
  intros Hframe Hb Hk Hd. pose proof (Hframe _ _ _ _ _ Hd) as Hsub.
  split_and!.
  - unfold Block_DecodeRLP. by rewrite Hk, Hd.
  - by eapply lookup_weaken.
  - intros l c Hl. by eapply lookup_weaken.
  - intros hl hv -> Hhl Hok. eapply header_val_agree; [done..|].
    intros l [c Hl]. rewrite Hl. by eapply lookup_weaken.
  - intros Hok. by apply slice_val_weaken.
  - intros Hok. by apply slice_val_weaken.
Qed.


(** ** Lookups by hash *)

Lemma Transaction_range_spec (hash : common_Hash)
  (l : list (option Transaction)) (σ : Store) :
  Forall is_Some l →
  ∃ r,
    Transaction_range hash l σ = Some (r, σ)
    ∧ match r with
      | Some t =>
          ∃ i, l !! i = Some (Some t) ∧ Transaction_Hash t = hash
               ∧ ∀ j t', (j < i)%nat → l !! j = Some (Some t') →
                         Transaction_Hash t' ≠ hash
      | None => ∀ t, Some t ∈ l → Transaction_Hash t ≠ hash
      end.
Proof.
  induction 1 as [|x l [t ->] _ IH]; simpl.
  - exists None. split; [done|]. intros t Ht. by apply elem_of_nil in Ht.
  - unfold mbind, M_bind. simpl.
    destruct (decide (Transaction_Hash t = hash)) as [Heq|Hne].
    + exists (Some t). split; [done|]. exists 0%nat.
      split_and!; [done..|]. intros j t' Hj. lia.
    + destruct IH as (r & Hrun & Hr). exists r. split; [done|].
      destruct r as [t1|].
      * destruct Hr as (i & Hi & Hh & Hfirst). exists (S i).
        split_and!; [done..|]. intros [|j] t' Hj Hl.
        -- by simplify_eq/=.
        -- eapply Hfirst; [|done]. lia.
      * intros t' [->%(inj Some)|Hin]%elem_of_cons; [done | by apply Hr].
Qed.

Lemma ContrcatReceipt_range_spec (hash : common_Hash)
  (l : list (option ContractResult)) (σ : Store) :
  Forall is_Some l →
  ∃ r,
    ContrcatReceipt_range hash l σ = Some (r, σ)
    ∧ match r with
      | Some t =>
          ∃ i, l !! i = Some (Some t) ∧ ContractResult_TxHash t = hash
               ∧ ∀ j t', (j < i)%nat → l !! j = Some (Some t') →
                         ContractResult_TxHash t' ≠ hash
      | None => ∀ t, Some t ∈ l → ContractResult_TxHash t ≠ hash
      end.
Proof.
  induction 1 as [|x l [t ->] _ IH]; simpl.
  - exists None. split; [done|]. intros t Ht. by apply elem_of_nil in Ht.
  - unfold mbind, M_bind. simpl.
    destruct (decide (ContractResult_TxHash t = hash)) as [Heq|Hne].
    + exists (Some t). split; [done|]. exists 0%nat.
      split_and!; [done..|]. intros j t' Hj. lia.
    + destruct IH as (r & Hrun & Hr). exists r. split; [done|].
      destruct r as [t1|].
      * destruct Hr as (i & Hi & Hh & Hfirst). exists (S i).
        split_and!; [done..|]. intros [|j] t' Hj Hl.
        -- by simplify_eq/=.
        -- eapply Hfirst; [|done]. lia.
      * intros t' [->%(inj Some)|Hin]%elem_of_cons; [done | by apply Hr].
Qed.

Lemma Transaction_range_prefix (hash : common_Hash)
  (pre : list (option Transaction)) (o : option Transaction)
  (rest : list (option Transaction)) (σ : Store) :
  Forall (λ e, ∃ t, e = Some t ∧ Transaction_Hash t ≠ hash) pre →
  Transaction_range hash (pre ++ o :: rest) σ
  = match o with
    | Some t => if decide (Transaction_Hash t = hash) then Some (o, σ)
                else Transaction_range hash rest σ
    | None => None
    end.
Proof.
  induction 1 as [|e pre (t & -> & Ht) _ IH]; simpl.
  - destruct o as [t|]; [|done].
    unfold mbind, M_bind. simpl. by destruct (decide _).
  - unfold mbind, M_bind. simpl. by rewrite decide_False.
Qed.

Lemma ContrcatReceipt_range_prefix (hash : common_Hash)
  (pre : list (option ContractResult)) (o : option ContractResult)
  (rest : list (option ContractResult)) (σ : Store) :
  Forall (λ e, ∃ t, e = Some t ∧ ContractResult_TxHash t ≠ hash) pre →
  ContrcatReceipt_range hash (pre ++ o :: rest) σ
  = match o with
    | Some t => if decide (ContractResult_TxHash t = hash) then Some (o, σ)
                else ContrcatReceipt_range hash rest σ
    | None => None
    end.
Proof.
  induction 1 as [|e pre (t & -> & Ht) _ IH]; simpl.
  - destruct o as [t|]; [|done].
    unfold mbind, M_bind. simpl. by destruct (decide _).
  - unfold mbind, M_bind. simpl. by rewrite decide_False.
Qed.

(** C8.  [Transaction(x)] scans the transactions of the block in order, and
    [ContrcatReceipt(x)] the receipts with their transaction hash.  On a
    list without a nil entry the result is the first entry whose hash is
    [x], or nil when there is none, and nothing is written.  On any list,
    an entry with the hash that only non-nil entries with other hashes
    precede is returned whatever follows it, and a nil entry that only
    such entries precede makes the lookup panic. *)
Theorem Block_lookup_by_hash (σ : Store) (b : loc) (B : Block)
  (x : common_Hash) :
  σ !! b = Some (CBlock B) →
  slice_ok txsK σ (transactions B) → slice_ok rcsK σ (receipts B) →
  (Forall is_Some (slice_val txsK σ (transactions B)) →
   ∃ r,
     Block_Transaction (Some b) x σ = Some (r, σ)
     ∧ match r with
       | Some t =>
           ∃ i, slice_val txsK σ (transactions B) !! i = Some (Some t)
                ∧ Transaction_Hash t = x
                ∧ ∀ j t', (j < i)%nat →
                          slice_val txsK σ (transactions B) !! j
                          = Some (Some t') →
                          Transaction_Hash t' ≠ x
       | None =>
           ∀ t, Some t ∈ slice_val txsK σ (transactions B) →
                Transaction_Hash t ≠ x
       end)
  ∧ (Forall is_Some (slice_val rcsK σ (receipts B)) →
     ∃ r,
       Block_ContrcatReceipt (Some b) x σ = Some (r, σ)
       ∧ match r with
         | Some t =>
             ∃ i, slice_val rcsK σ (receipts B) !! i = Some (Some t)
                  ∧ ContractResult_TxHash t = x
                  ∧ ∀ j t', (j < i)%nat →
                            slice_val rcsK σ (receipts B) !! j
                            = Some (Some t') →
                            ContractResult_TxHash t' ≠ x
         | None =>
             ∀ t, Some t ∈ slice_val rcsK σ (receipts B) →
                  ContractResult_TxHash t ≠ x
         end)
  ∧ (∀ pre o rest,
       slice_val txsK σ (transactions B) = pre ++ o :: rest →
       Forall (λ e, ∃ t, e = Some t ∧ Transaction_Hash t ≠ x) pre →
       (∀ t, o = Some t → Transaction_Hash t = x →
             Block_Transaction (Some b) x σ = Some (Some t, σ))
       ∧ (o = None → Block_Transaction (Some b) x σ = None))
  ∧ (∀ pre o rest,
       slice_val rcsK σ (receipts B) = pre ++ o :: rest →
       Forall (λ e, ∃ t, e = Some t ∧ ContractResult_TxHash t ≠ x) pre →
       (∀ t, o = Some t → ContractResult_TxHash t = x →
             Block_ContrcatReceipt (Some b) x σ = Some (Some t, σ))
       ∧ (o = None → Block_ContrcatReceipt (Some b) x σ = None)).
Proof.
  intros Hb Hokt Hokr.
  destruct (slice_load_ok txsK σ _ Hokt) as [Hlt _].
  destruct (slice_load_ok rcsK σ _ Hokr) as [Hlr _].
  assert (Block_Transaction (Some b) x σ
          = Transaction_range x (slice_val txsK σ (transactions B)) σ)
    as Hrt.
  { unfold Block_Transaction, load_block, mbind, M_bind, load.
    rewrite Hb. simpl. by rewrite Hlt. }
  assert (Block_ContrcatReceipt (Some b) x σ
          = ContrcatReceipt_range x (slice_val rcsK σ (receipts B)) σ)
    as Hrr.
  { unfold Block_ContrcatReceipt, load_block, mbind, M_bind, load.
    rewrite Hb. simpl. by rewrite Hlr. }
  rewrite Hrt, Hrr. split_and!.
  - intros Ht. by apply Transaction_range_spec.
  - intros Hr. by apply ContrcatReceipt_range_spec.
  - intros pre o rest Hval Hpre. rewrite Hval.
    rewrite Transaction_range_prefix by done.
    split; [|by intros ->]. intros t -> Ht. by rewrite decide_True.
  - intros pre o rest Hval Hpre. rewrite Hval.
    rewrite ContrcatReceipt_range_prefix by done.
    split; [|by intros ->]. intros t -> Ht. by rewrite decide_True.
Qed.


(** ** Sharing of the body *)

(** [s[i] = v] writes the backing array of [s] and nothing else. *)
Lemma slice_assign_inv {A : Type} (K : ArrKind A) `{!ArrKindOk K}
  (s : slice) (i : nat) (v : A) (σ σ2 : Store) :
  slice_assign K s i v σ = Some (tt, σ2) →
  ∃ a off n l,
    s = SArr a off n ∧ σ !! a = Some (arr_inj K l)
    ∧ (off + n ≤ length l)%nat ∧ (i < n)%nat
    ∧ σ2 = <[a := arr_inj K (<[(off + i)%nat := v]> l)]> σ
    ∧ slice_val K σ2 s = <[i := v]> (slice_val K σ s).
Proof.
  destruct s as [|a off n]; [done|]. simpl.
  unfold load_arr, mbind, M_bind, load.
  destruct (σ !! a) as [c|] eqn:Ha; [|done].
  destruct (arr_proj K c) as [l|] eqn:Hc; [|done].
  apply arr_inj_proj in Hc as ->.
  destruct (decide (off + n ≤ length l)%nat) as [Hle|]; [|done]. simpl.
  destruct (decide (i < n)%nat) as [Hi|]; [|done].
  unfold store. rewrite Ha. intros [= <-].
  exists a, off, n, l. split_and!; try done.
  unfold slice_val, slice_load, load_arr, mbind, M_bind, load.
  rewrite lookup_insert_eq, Ha, !arr_proj_inj.
  rewrite length_insert, !decide_True by done. simpl.
  rewrite drop_insert_ge by lia. rewrite take_insert_lt by lia.
  f_equal. lia.
Qed.

(** C10.  [Transactions()], [Receiptions()], [ContractReceipts()] and
    [Body()] return the very slices the block holds and allocate nothing,
    so an element written through the returned slice is seen through the
    block; [Header()], in contrast, returns a new cell. *)
Theorem body_accessors_share (σ : Store) (b : loc) (B : Block) :
  σ !! b = Some (CBlock B) →
  Block_Transactions (Some b) σ = Some (transactions B, σ)
  ∧ Block_Receiptions (Some b) σ = Some (receipts B, σ)
  ∧ Block_ContractReceipts (Some b) σ = Some (receipts B, σ)
  ∧ Block_Body (Some b) σ
    = Some (mkBody (transactions B) (receipts B), σ)
  ∧ (∀ i v σ2,
       slice_assign txsK (transactions B) i v σ = Some (tt, σ2) →
       ∃ s, Block_Transactions (Some b) σ2 = Some (s, σ2)
            ∧ slice_val txsK σ2 s
              = <[i := v]> (slice_val txsK σ (transactions B)))
  ∧ (∀ i v σ2,
       slice_assign rcsK (receipts B) i v σ = Some (tt, σ2) →
       ∃ s, Block_ContractReceipts (Some b) σ2 = Some (s, σ2)
            ∧ slice_val rcsK σ2 s
              = <[i := v]> (slice_val rcsK σ (receipts B)))
  ∧ (∀ hl hv,
       header B = Some hl → σ !! hl = Some (CHeader hv) →
       header_ok σ hv →
       ∃ c σ', Block_Header (Some b) σ = Some (Some c, σ')
               ∧ σ !! c = None ∧ c ≠ hl).
Proof.
  intros Hb.
  assert (∀ σx, σx !! b = Some (CBlock B) →
                Block_Transactions (Some b) σx = Some (transactions B, σx)
                ∧ Block_ContractReceipts (Some b) σx
                  = Some (receipts B, σx)) as Hget.
  { intros σx Hx.
    unfold Block_Transactions, Block_ContractReceipts, load_block, mbind,
      M_bind, load. by rewrite Hx. }
  split_and!.
  - by apply Hget.
  - by apply Hget.
  - by apply Hget.
  - unfold Block_Body, load_block, mbind, M_bind, load. by rewrite Hb.
  - intros i v σ2 Hw.
    apply (slice_assign_inv txsK) in Hw
      as (a & off & n & l & Hs & Ha & _ & _ & -> & Hval).
    exists (transactions B). split; [|done]. apply Hget.
    rewrite lookup_insert_ne; [done|]. intros ->. by simplify_eq.
  - intros i v σ2 Hw.
    apply (slice_assign_inv rcsK) in Hw
      as (a & off & n & l & Hs & Ha & _ & _ & -> & Hval).
    exists (receipts B). split; [|done]. apply Hget.
    rewrite lookup_insert_ne; [done|]. intros ->. by simplify_eq.
  - intros hl hv Hhl Hh Hok.
    pose proof (CopyHeader_spec σ hl hv Hh Hok) as Hwp.
    apply wp_run in Hwp as (r & σ' & Hrun & Hpost).
    destruct Hpost as (c & t & d & n & ex & -> & _ & Hfc & _).
    exists c, σ'. split_and!; [|done|congruence].
    unfold Block_Header, load_block, mbind, M_bind, load.
    rewrite Hb. simpl. by rewrite Hhl.
Qed.


(** ** Insertion sort meets the contract of [sort.Sort] *)

Lemma swap_adjacent {A : Type} (pre rest : list A) (p x : A) (j : nat) :
  length pre = j →
  <[j := x]> (<[S j := p]> (pre ++ p :: x :: rest))
  = pre ++ x :: p :: rest.
Proof.
  intros <-. induction pre as [|y pre IH]; simpl; [done|]. by f_equal.
Qed.

Lemma TlRel_Forall {A : Type} (R : relation A) (x : A) (l : list A) :
  Forall (λ y, R y x) l → TlRel R x l.
Proof.
  destruct l as [|y l _] using rev_ind; [constructor|].
  intros [_ Hy%Forall_inv]%Forall_app. by constructor.
Qed.

Section insertion_sort.
Context {T : Type} {I : sort_Interface T} (data : T).
Context {A : Type} (view : Store → list A) (lt : A → A → bool).
Context (Inv : Store → Prop).
Hypothesis Hsw : strict_weak lt.
Hypothesis HLen :
  ∀ σ1, Inv σ1 → sort_Len data σ1 = Some (length (view σ1), σ1).
Hypothesis HLess :
  ∀ σ1 i j a b, Inv σ1 → view σ1 !! i = Some a → view σ1 !! j = Some b →
                sort_Less data i j σ1 = Some (lt a b, σ1).
Hypothesis HSwap :
  ∀ σ1 i j a b, Inv σ1 → view σ1 !! i = Some a → view σ1 !! j = Some b →
    ∃ σ2, sort_Swap data i j σ1 = Some (tt, σ2) ∧ Inv σ2
          ∧ view σ2 = <[j := a]> (<[i := b]> (view σ1)).

#[local] Instance ge_lt_trans : Transitive (λ a b : A, lt b a = false).
Proof.
  destruct Hsw as (_ & _ & Hneg). intros a b c Hab Hbc. by eapply Hneg.
Qed.

Lemma lt_asym (a b : A) : lt a b = true → lt b a = false.
Proof.
  destruct Hsw as (Hirr & Htr & _). intros Hab.
  destruct (lt b a) eqn:Hba; [|done].
  by rewrite <- (Hirr a), (Htr a b a).
Qed.

Lemma insertionSort_inner_spec (j : nat) :
  ∀ σ1 pre x rest,
    Inv σ1 → view σ1 = pre ++ x :: rest → length pre = j →
    Sorted (λ a b, lt b a = false) pre →
    ∃ σ2 pre',
      insertionSort_inner data j σ1 = Some (tt, σ2) ∧ Inv σ2
      ∧ view σ2 = pre' ++ rest ∧ pre' ≡ₚ pre ++ [x]
      ∧ Sorted (λ a b, lt b a = false) pre'.
Proof.
  induction j as [|j IH]; intros σ1 pre x rest HInv Hview Hlen Hsorted.
  - destruct pre; [|done]. exists σ1, [x]. split_and!; try done.
    repeat constructor.
  - destruct pre as [|p pre0 _] using rev_ind; [done|].
    rewrite length_app in Hlen. simpl in Hlen.
    assert (length pre0 = j) as Hlen0 by lia.
    rewrite <- app_assoc in Hview. simpl in Hview.
    assert (view σ1 !! j = Some p) as Hp.
    { rewrite Hview. by apply list_lookup_middle. }
    assert (view σ1 !! S j = Some x) as Hx.
    { rewrite Hview.
      change (pre0 ++ p :: x :: rest) with (pre0 ++ [p] ++ x :: rest).
      rewrite app_assoc. apply list_lookup_middle.
      rewrite length_app. simpl. lia. }
    assert (StronglySorted (λ a b, lt b a = false) (pre0 ++ [p]))
      as Hss.
    { eapply @Sorted_StronglySorted; [apply ge_lt_trans | done]. }
    assert (Sorted (λ a b, lt b a = false) pre0) as Hsorted0.
    { apply StronglySorted_Sorted. by eapply StronglySorted_app_1_l. }
    simpl. unfold mbind, M_bind.
    rewrite (HLess σ1 (S j) j x p HInv Hx Hp).
    destruct (lt x p) eqn:Hlt.
    + destruct (HSwap σ1 (S j) j x p HInv Hx Hp) as (σ2 & -> & HInv2 & Hv2).
      rewrite Hview, swap_adjacent in Hv2 by done.
      destruct (IH σ2 pre0 x (p :: rest) HInv2 Hv2 Hlen0 Hsorted0)
        as (σ3 & pre0' & Hrun & HInv3 & Hv3 & Hperm & Hs3).
      exists σ3, (pre0' ++ [p]). split_and!.
      * done.
      * done.
      * by rewrite <- app_assoc.
      * rewrite Hperm. rewrite <- !app_assoc. apply Permutation_app_head.
        apply Permutation_swap.
      * apply Sorted_snoc; [done|]. apply TlRel_Forall.
        rewrite Hperm. apply Forall_app. split.
        -- apply Forall_forall. intros y Hy.
           apply (StronglySorted_app_1_elem_of
                    (λ a b, lt b a = false) pre0 [p] y p Hss Hy).
           by apply list_elem_of_singleton.
        -- apply Forall_singleton. by apply lt_asym.
    + exists σ1, ((pre0 ++ [p]) ++ [x]). split_and!.
      * done.
      * done.
      * rewrite Hview. by rewrite <- !app_assoc.
      * done.
      * apply Sorted_snoc; [done|]. by constructor.
Qed.

Lemma insertionSort_outer_spec (k : nat) :
  ∀ i σ1 pre rest,
    Inv σ1 → view σ1 = pre ++ rest → length pre = i → length rest = k →
    Sorted (λ a b, lt b a = false) pre →
    ∃ σ2,
      insertionSort_outer data i k σ1 = Some (tt, σ2) ∧ Inv σ2
      ∧ view σ2 ≡ₚ view σ1
      ∧ Sorted (λ a b, lt b a = false) (view σ2).
Proof.
  induction k as [|k IH]; intros i σ1 pre rest HInv Hview Hi Hk Hsorted.
  - destruct rest; [|done]. rewrite app_nil_r in Hview.
    exists σ1. split_and!; try done. by rewrite Hview.
  - destruct rest as [|x rest]; [done|]. simpl in Hk.
    destruct (insertionSort_inner_spec i σ1 pre x rest HInv Hview Hi
                Hsorted)
      as (σ2 & pre' & Hrun & HInv2 & Hv2 & Hperm & Hs2).
    destruct (IH (S i) σ2 pre' rest HInv2 Hv2) as (σ3 & Hrun3 & HInv3
                                                   & Hperm3 & Hs3).
    { rewrite Hperm, length_app. simpl. lia. }
    { lia. }
    { done. }
    exists σ3. split_and!; try done.
    + simpl. unfold mbind, M_bind. by rewrite Hrun.
    + rewrite Hperm3, Hv2, Hview, Hperm. by rewrite <- app_assoc.
Qed.

Lemma insertionSort_spec (σ : Store) :
  Inv σ →
  ∃ σ', insertionSort data σ = Some (tt, σ') ∧ Inv σ'
        ∧ view σ' ≡ₚ view σ
        ∧ Sorted (λ a b, lt b a = false) (view σ').
Proof.
  intros HInv. unfold insertionSort, mbind, M_bind.
  rewrite (HLen σ HInv).
  destruct (view σ) as [|x rest] eqn:Hview.
  - exists σ. simpl. rewrite Hview. by split_and!.
  - simpl. rewrite Nat.sub_0_r.
    destruct (insertionSort_outer_spec (length rest) 1 σ [x] rest)
      as (σ' & Hrun & HInv' & Hperm & Hs); try done.
    { repeat constructor. }
    exists σ'. rewrite <- Hview. done.
Qed.
End insertion_sort.


(** ** Ordering by number *)

Lemma slice_index_run {A : Type} (K : ArrKind A) (σ : Store) (s : slice)
  (i : nat) (v : A) :
  slice_ok K σ s → slice_val K σ s !! i = Some v →
  slice_index K s i σ = Some (v, σ).
Proof.
  intros Hok Hv. unfold slice_index, mbind, M_bind.
  destruct (slice_load_ok K σ s Hok) as [-> _]. by rewrite Hv.
Qed.

Lemma slice_assign_run {A : Type} (K : ArrKind A) `{!ArrKindOk K}
  (σ : Store) (s : slice) (i : nat) (v : A) :
  slice_ok K σ s → (i < len s)%nat →
  ∃ σ2,
    slice_assign K s i v σ = Some (tt, σ2)
    ∧ slice_ok K σ2 s
    ∧ slice_val K σ2 s = <[i := v]> (slice_val K σ s)
    ∧ ∀ l, (∀ off n, s ≠ SArr l off n) → σ2 !! l = σ !! l.
Proof.
  intros Hok Hi. destruct s as [|a off n]; simpl in Hi; [lia|].
  destruct Hok as (c & l & Ha & Hc & Hle).
  assert (is_Some (slice_assign K (SArr a off n) i v σ)) as [[[] σ2] Hrun].
  { unfold slice_assign, load_arr, mbind, M_bind, load, store.
    rewrite Ha. simpl. rewrite Hc, decide_True by done. simpl.
    rewrite decide_True by done. rewrite Ha. eauto. }
  exists σ2. split; [done|].
  apply (slice_assign_inv K) in Hrun
    as (a' & off' & n' & l' & [= <- <- <-] & Ha' & _ & _ & -> & Hval).
  rewrite Ha' in Ha. injection Ha as <-.
  rewrite arr_proj_inj in Hc. injection Hc as ->.
  split_and!; [|done|].
  - exists (arr_inj K (<[(off + i)%nat := v]> l)), (<[(off + i)%nat := v]> l).
    split_and!; [apply lookup_insert_eq | apply arr_proj_inj |].
    by rewrite length_insert.
  - intros x Hx. rewrite lookup_insert_ne; [done|].
    intros ->. by eapply Hx.
Qed.

(** The cells a numbered block is read through are not touched by a
    change of another cell. *)
Lemma block_numbered_agree (σ σ1 : Store) (b : ptr) :
  block_numbered σ b →
  (∀ l c, σ !! l = Some c → (∀ bs, c ≠ CBlocks bs) → σ1 !! l = Some c) →
  block_numbered σ1 b ∧ block_number σ1 b = block_number σ b.
Proof.
  intros (bl & B & hl & h & -> & Hbl & HB & Hhl & [z Hz]) Hag.
  assert (σ1 !! bl = Some (CBlock B)) as Hbl1 by (by apply Hag).
  assert (σ1 !! hl = Some (CHeader h)) as Hhl1 by (by apply Hag).
  assert (big_val σ1 (Number h) = Some z) as Hz1.
  { destruct (Number h) as [nl|]; [|done]. simpl in *.
    destruct (σ !! nl) as [[]|] eqn:Hnl; simplify_eq.
    by rewrite (Hag nl _ Hnl). }
  split.
  - exists bl, B, hl, h. rewrite Hz1. eauto 10.
  - unfold block_number. simpl. rewrite Hbl, Hbl1, HB. simpl.
    by rewrite Hhl, Hhl1, Hz, Hz1.
Qed.

Lemma BlockBy_Number_run (σ : Store) (b1 b2 : ptr) :
  block_numbered σ b1 → block_numbered σ b2 →
  BlockBy_Number b1 b2 σ
  = Some (bool_decide (block_number σ b1 < block_number σ b2), σ).
Proof.
  intros (bl1 & B1 & hl1 & h1 & -> & Hbl1 & HB1 & Hhl1 & [z1 Hz1])
         (bl2 & B2 & hl2 & h2 & -> & Hbl2 & HB2 & Hhl2 & [z2 Hz2]).
  unfold block_number. simpl. rewrite Hbl1, Hbl2, HB1, HB2. simpl.
  rewrite Hhl1, Hhl2, Hz1, Hz2. simpl.
  unfold BlockBy_Number, big_Int_Cmp, load_big, load_header, load_block,
    mbind, M_bind, load, mret, M_ret.
  rewrite Hbl1. simpl. rewrite HB1, Hhl1. simpl.
  rewrite Hbl2. simpl. rewrite HB2, Hhl2. simpl.
  destruct (Number h1) as [n1|]; [|done].
  destruct (Number h2) as [n2|]; [|done]. simpl in Hz1, Hz2.
  destruct (decide (n1 = n2)) as [->|Hne].
  - rewrite decide_True by done.
    destruct (σ !! n2) as [[]|]; simplify_eq. simpl.
    do 2 f_equal. symmetry. apply bool_decide_eq_false. lia.
  - rewrite decide_False by congruence.
    simpl. destruct (σ !! n1) as [[]|]; simplify_eq.
    destruct (σ !! n2) as [[]|]; simplify_eq. simpl.
    do 2 f_equal.
    destruct (Z.compare_spec z1 z2); apply bool_decide_ext; lia.
Qed.

(** C9.  With a [sort.Sort] that meets its contract, sorting a collection
    of blocks with the by-number comparator rearranges the collection so
    that each block's number is at most the next one's; the comparator
    compares the big integers themselves; and a collection already in
    number order keeps its sequence of numbers. *)
Theorem BlockBy_Number_Sort_ascending (σ : Store) (bls : slice) :
  sort_contract →
  slice_ok blocksK σ bls →
  Forall (block_numbered σ) (slice_val blocksK σ bls) →
  ∃ σ',
    BlockBy_Sort BlockBy_Number bls σ = Some (tt, σ')
    ∧ slice_val blocksK σ' bls ≡ₚ slice_val blocksK σ bls
    ∧ Sorted Z.le (block_number σ' <$> slice_val blocksK σ' bls)
    ∧ (∀ b, b ∈ slice_val blocksK σ bls →
            block_number σ' b = block_number σ b)
    ∧ (Sorted Z.le (block_number σ <$> slice_val blocksK σ bls) →
       block_number σ' <$> slice_val blocksK σ' bls
       = block_number σ <$> slice_val blocksK σ bls)
    ∧ (∀ b1 b2, block_numbered σ b1 → block_numbered σ b2 →
         BlockBy_Number b1 b2 σ
         = Some (bool_decide (block_number σ b1 < block_number σ b2), σ)).
Proof.
  intros Hsort Hok Hnum.
  set (view := λ σ1 : Store, slice_val blocksK σ1 bls).
  set (lt := λ a b : ptr,
         bool_decide (block_number σ a < block_number σ b)).
  set (Inv := λ σ1 : Store,
         slice_ok blocksK σ1 bls
         ∧ Forall (block_numbered σ) (view σ1)
         ∧ ∀ l c, σ !! l = Some c → (∀ bs, c ≠ CBlocks bs) →
                  σ1 !! l = Some c).
  destruct (Hsort scblockSorter scblockSorter_Interface
              (mkSorter bls BlockBy_Number) ptr view lt Inv σ)
    as (σ' & Hrun & (Hok' & Hnum' & Hframe') & Hperm & Hsorted).
  - split_and!.
    + intros a. apply bool_decide_eq_false. lia.
    + intros a b c Hab%bool_decide_eq_true Hbc%bool_decide_eq_true.
      apply bool_decide_eq_true. lia.
    + intros a b c Hab%bool_decide_eq_false Hbc%bool_decide_eq_false.
      apply bool_decide_eq_false. lia.
  - by split_and!.
  - intros σ1 (Hok1 & _ & _). simpl. unfold scblockSorter_Len. simpl.
    destruct (slice_load_ok blocksK σ1 bls Hok1) as [_ Hl].
    unfold view. by rewrite Hl.
  - intros σ1 i j a b (Hok1 & Hnum1 & Hframe1) Ha Hb. simpl.
    unfold scblockSorter_Less, mbind, M_bind. simpl.
    rewrite (slice_index_run blocksK σ1 bls i a Hok1 Ha).
    rewrite (slice_index_run blocksK σ1 bls j b Hok1 Hb).
    assert (block_numbered σ a) as Hna.
    { eapply Forall_lookup_1; [exact Hnum1 | exact Ha]. }
    assert (block_numbered σ b) as Hnb.
    { eapply Forall_lookup_1; [exact Hnum1 | exact Hb]. }
    destruct (block_numbered_agree σ σ1 a Hna Hframe1) as [Hna1 Hea].
    destruct (block_numbered_agree σ σ1 b Hnb Hframe1) as [Hnb1 Heb].
    rewrite BlockBy_Number_run by done. unfold lt. by rewrite Hea, Heb.
  - intros σ1 i j a b (Hok1 & Hnum1 & Hframe1) Ha Hb. simpl.
    unfold scblockSorter_Swap, mbind, M_bind. simpl.
    rewrite (slice_index_run blocksK σ1 bls j b Hok1 Hb).
    rewrite (slice_index_run blocksK σ1 bls i a Hok1 Ha).
    destruct (slice_load_ok blocksK σ1 bls Hok1) as [_ Hl].
    apply lookup_lt_Some in Ha as Hi. apply lookup_lt_Some in Hb as Hj.
    unfold view in Hi, Hj. rewrite Hl in Hi, Hj.
    destruct (slice_assign_run blocksK σ1 bls i b Hok1 Hi)
      as (σ2 & -> & Hok2 & Hv2 & Hfr2).
    destruct (slice_assign_run blocksK σ2 bls j a Hok2 Hj)
      as (σ3 & -> & Hok3 & Hv3 & Hfr3).
    exists σ3. split; [done|]. split; [|unfold view; by rewrite Hv3, Hv2].
    split_and!; [done| |].
    + unfold view. rewrite Hv3, Hv2.
      apply Forall_insert; [apply Forall_insert; [done|]|].
      * eapply Forall_lookup_1; [exact Hnum1 | exact Hb].
      * eapply Forall_lookup_1; [exact Hnum1 | exact Ha].
    + intros l c Hl0 Hc.
      assert (∀ off n, bls ≠ SArr l off n) as Hnot.
      { intros off n ->. destruct Hok1 as (c1 & l1 & Hc1 & Hp1 & _).
        rewrite (Hframe1 l c Hl0 Hc) in Hc1. simplify_eq.
        destruct c1; simplify_eq/=. by eapply Hc. }
      rewrite Hfr3, Hfr2 by done. by apply Hframe1.
  - assert (∀ b, b ∈ slice_val blocksK σ bls →
                 block_number σ' b = block_number σ b) as Hsame.
    { intros b Hb. eapply block_numbered_agree; [|done].
      eapply Forall_forall; [exact Hnum | done]. }
    assert (block_number σ' <$> view σ' = block_number σ <$> view σ')
      as Hfm.
    { apply Forall_fmap_ext_1, Forall_forall. intros b Hb. apply Hsame.
      fold (view σ). by rewrite <- Hperm. }
    assert (Sorted Z.le (block_number σ <$> view σ')) as Hasc.
    { eapply Sorted_fmap; [|exact Hsorted].
      intros a b Hab%bool_decide_eq_false. lia. }
    exists σ'. split_and!.
    + done.
    + done.
    + fold (view σ'). by rewrite Hfm.
    + done.
    + intros Hin. fold (view σ') (view σ) in *. rewrite Hfm.
      apply (Sorted_unique Z.le); [done..|]. by rewrite Hperm.
    + intros b1 b2. apply BlockBy_Number_run.
Qed.

(** ** Sealing *)

(** [WithSeal] puts the fields of the header it is given into a new cell as
    they are: the new block's header holds the same big-integer pointers
    and the same extra-data slice as the header passed in. *)
Lemma Block_WithSeal_shallow (σ : Store) (b h : loc) (B : Block)
  (hv : Header) :
  σ !! b = Some (CBlock B) → σ !! h = Some (CHeader hv) →
  ∃ b' c σ',
    Block_WithSeal (Some b) (Some h) σ = Some (Some b', σ')
    ∧ σ ⊆ σ' ∧ σ !! c = None ∧ σ !! b' = None
    ∧ σ' !! b' = Some (CBlock (mkBlock (Some c) (transactions B)
                                 (receipts B) None None None))
    ∧ σ' !! c = Some (CHeader hv).
Proof.
  intros Hb Hh.
  assert (wp (Block_WithSeal (Some b) (Some h))
            (λ r σ', ∃ b' c,
               r = Some b' ∧ σ ⊆ σ' ∧ σ !! c = None ∧ σ !! b' = None
               ∧ σ' !! b' = Some (CBlock (mkBlock (Some c) (transactions B)
                                            (receipts B) None None None))
               ∧ σ' !! c = Some (CHeader hv)) σ) as Hwp.
  { unfold Block_WithSeal.
    apply wp_bind. eapply wp_load_header; [done|].
    apply wp_bind. eapply wp_load_block; [done|].
    apply wp_bind, wp_alloc. intros c Hc.
    apply wp_bind, wp_alloc. intros b' Hb'. apply wp_ret.
    apply lookup_insert_None in Hb' as [Hb' Hne].
    exists b', c. split_and!; try done.
    - apply insert_subseteq_r; [done|]. by apply insert_subseteq.
    - apply lookup_insert_eq.
    - rewrite lookup_insert_ne by done. apply lookup_insert_eq. }
  apply wp_run in Hwp as (r & σ' & Hrun & b' & c & -> & Hrest).
  by exists b', c, σ'.
Qed.

(** [Number()] returns a new big integer with the number of the header. *)
Lemma Block_Number_copy (σ : Store) (b hl n : loc) (B : Block) (h : Header)
  (z : Z) :
  σ !! b = Some (CBlock B) → header B = Some hl →
  σ !! hl = Some (CHeader h) → Number h = Some n →
  σ !! n = Some (CBigInt z) →
  ∃ p, Block_Number (Some b) σ = Some (Some p, <[p := CBigInt z]> σ)
       ∧ σ !! p = None.
Proof.
  intros Hb HB Hhl Hn Hz.
  assert (wp (Block_Number (Some b))
            (λ r σ', ∃ p, r = Some p ∧ σ' = <[p := CBigInt z]> σ
                          ∧ σ !! p = None) σ) as Hwp.
  { unfold Block_Number.
    apply wp_bind. eapply wp_load_block; [done|]. rewrite HB.
    apply wp_bind. eapply wp_load_header; [done|]. rewrite Hn.
    apply wp_bind, wp_new_big_Int. intros p Hp.
    eapply wp_big_Int_Set.
    - apply lookup_insert_eq.
    - by apply lookup_insert_fresh.
    - exists p. by rewrite insert_insert_eq. }
  apply wp_run in Hwp as (r & σ' & Hrun & p & -> & -> & Hp).
  by exists p.
Qed.

End Proofs.

(** * The properties on the concrete instance *)

Section Instances.
#[local] Existing Instances ex_Entities ex_Engines.

Lemma ex_header_ok : header_ok ex_store ex_header.
Proof.
  split_and!; simpl.
  - by exists 7.
  - done.
  - by exists 5.
  - by exists (CBytes [x01; x02]), [x01; x02].
Qed.

Lemma ex_Decode_frame : Decode_frame.
Proof.
  intros s σ r s' σ'. simpl. unfold ex_Decode.
  destruct (decide (take 4 s = [xc3; xc0; xc0; xc0]));
    intros [= <- <- <-]; [|done].
  apply insert_subseteq, not_elem_of_dom, is_fresh.
Qed.

Lemma ex_Kind_Decode_contract :
  @Kind_Decode_contract ex_Entities ex_Engines (λ s, s).
Proof.
  intros s k sz e s1 σ eb s2 σ2. simpl. unfold ex_Decode.
  intros Hk Hd.
  assert (s1 = s) as ->.
  { unfold ex_Kind in Hk. repeat case_match; by simplify_eq. }
  destruct (decide (take 4 s = [xc3; xc0; xc0; xc0])) as [Heq|];
    [|done].
  injection Hd as _ <- _. exists [xc3; xc0; xc0; xc0].
  rewrite <- Heq, take_drop. split; [done|].
  rewrite <- (take_drop 4 s), Heq in Hk. simpl in Hk.
  injection Hk as _ <- _. by rewrite Heq.
Qed.

Lemma ex_sort_contract : sort_contract.
Proof.
  intros T I data A view lt Inv σ Hsw HInv HLen HLess HSwap.
  exact (insertionSort_spec data view lt Inv Hsw HLen HLess HSwap σ HInv).
Qed.

Lemma ex_txs_ok : slice_ok txsK ex_store ex_txs.
Proof.
  do 2 eexists. split_and!; [reflexivity | reflexivity | simpl; lia].
Qed.

Lemma ex_rcs_ok : slice_ok rcsK ex_store ex_rcs.
Proof.
  do 2 eexists. split_and!; [reflexivity | reflexivity | simpl; lia].
Qed.

Lemma NewBlock_derives_roots_witness :
  ∃ b σ',
    NewBlock (Some 1%positive) ex_txs ex_rcs ex_store = Some (Some b, σ')
    ∧ Block_TxHash (Some b) σ' = Some (ex_hash 103, σ')
    ∧ Block_ReceiptHash (Some b) σ' = Some (ex_hash 102, σ')
    ∧ Block_Bloom (Some b) σ' = Some (vreplicate 256 x02, σ').
Proof.
  destruct (NewBlock_derives_roots ex_store 1%positive ex_header ex_txs ex_rcs)
    as (b & σ' & Hrun & Htx & Hrc & Hbl).
  - reflexivity.
  - exact ex_header_ok.
  - exact ex_txs_ok.
  - exact ex_rcs_ok.
  - exists b, σ'. split_and!; [done | exact Htx | exact Hrc |].
    apply Hbl. simpl. lia.
Defined.

Lemma NewBlock_empty_receipts_keep_Bloom_witness :
  ∃ b σ',
    NewBlock (Some 1%positive) ex_txs SNil ex_store = Some (Some b, σ')
    ∧ Block_Bloom (Some b) σ' = Some (vreplicate 256 x05, σ')
    ∧ Block_ReceiptHash (Some b) σ' = Some (ex_hash 100, σ').
Proof.
  apply (NewBlock_empty_receipts_keep_Bloom ex_store 1%positive ex_header ex_txs
           SNil).
  - reflexivity.
  - exact ex_header_ok.
  - exact ex_txs_ok.
  - exact I.
  - reflexivity.
Defined.

Lemma ex_block_at_9 :
  ex_store !! 9%positive
  = Some (CBlock (mkBlock (Some 8%positive) ex_txs ex_rcs None None None)).
Proof. reflexivity. Qed.

Lemma Block_Hash_stable_witness :
  ∃ v σ1,
    Block_Hash (Some 9%positive) ex_store = Some (v, σ1)
    ∧ Header_Hash (Some 8%positive) ex_store = Some (v, ex_store)
    ∧ Block_Hash (Some 9%positive) σ1 = Some (v, σ1).
Proof.
  destruct (Block_Hash_stable ex_store 9%positive
              (mkBlock (Some 8%positive) ex_txs ex_rcs None None None))
    as (v & σ1 & Hrun & Hmiss & _ & _ & Hagain & _).
  - exact ex_block_at_9.
  - destruct (Hmiss eq_refl) as (Hh & _ & _).
    exists v, σ1. split_and!; assumption.
Defined.

Lemma CopyHeader_deep_copy_witness :
  ∃ c σ',
    CopyHeader (Some 1%positive) ex_store = Some (Some c, σ')
    ∧ header_val σ' (Some c)
      = zero_for_nil <$> header_val ex_store (Some 1%positive)
    ∧ (∀ m σ2, mutate (Some c) m σ' = Some (tt, σ2) →
               header_val σ2 (Some 1%positive)
               = header_val ex_store (Some 1%positive))
    ∧ (∀ m σ2, mutate (Some 1%positive) m σ' = Some (tt, σ2) →
               header_val σ2 (Some c) = header_val σ' (Some c)).
Proof.
  destruct (CopyHeader_deep_copy ex_store 1%positive ex_header)
    as (c & σ' & Hrun & Heq & _ & _ & Hcopy & Horig).
  - reflexivity.
  - exact ex_header_ok.
  - exists c, σ'. split_and!; assumption.
Defined.


Lemma Block_DecodeRLP_error_witness :
  Block_DecodeRLP (Some 9%positive) [x00] ex_store
  = Some ((Some 2%nat, [x00]), ex_store)
  ∧ ex_store !! 9%positive
    = Some (CBlock (mkBlock (Some 8%positive) ex_txs ex_rcs None None None)).
Proof.
  destruct (@Block_DecodeRLP_error ex_Entities ex_Engines ex_store
              ex_store 9%positive
              (mkBlock (Some 8%positive) ex_txs ex_rcs None None None)
              [x00] [x00] [x00] rlp_Byte 0 None 2%nat)
    as (Hrun & Hb & _).
  - exact ex_Decode_frame.
  - exact ex_block_at_9.
  - reflexivity.
  - reflexivity.
  - by split.
Defined.

Lemma Block_lookup_by_hash_witness :
  (∃ r, Block_Transaction (Some 9%positive) (ex_hash 3) ex_store
        = Some (r, ex_store)
        ∧ r = Some 3%nat)
  ∧ (∃ r, Block_ContrcatReceipt (Some 9%positive) (ex_hash 3) ex_store
          = Some (r, ex_store)
          ∧ r = None).
Proof.
  destruct (Block_lookup_by_hash ex_store 9%positive
              (mkBlock (Some 8%positive) ex_txs ex_rcs None None None)
              (ex_hash 3))
    as (Htxs & Hrcs & _).
  - exact ex_block_at_9.
  - exact ex_txs_ok.
  - exact ex_rcs_ok.
  - split.
    + destruct Htxs as (r1 & Hrun1 & Hr1);
        [repeat constructor; by eexists|].
      exists r1. split; [exact Hrun1|].
      assert (Block_Transaction (Some 9%positive) (ex_hash 3) ex_store
              = Some (Some 3%nat, ex_store)) as Hc by reflexivity.
      pose proof (eq_trans (eq_sym Hrun1) Hc) as Heq.
      by injection Heq.
    + destruct Hrcs as (r2 & Hrun2 & Hr2);
        [repeat constructor; by eexists|].
      exists r2. split; [exact Hrun2|].
      assert (Block_ContrcatReceipt (Some 9%positive) (ex_hash 3) ex_store
              = Some (None, ex_store)) as Hc by reflexivity.
      pose proof (eq_trans (eq_sym Hrun2) Hc) as Heq.
      by injection Heq.
Defined.

Lemma ex_blocks_ok : slice_ok blocksK ex_sort_store ex_blocks.
Proof.
  do 2 eexists. split_and!; [reflexivity | reflexivity | simpl; lia].
Qed.

Lemma ex_blocks_numbered :
  Forall (block_numbered ex_sort_store)
    (slice_val blocksK ex_sort_store ex_blocks).
Proof.
  repeat constructor;
    (do 4 eexists; split_and!; [reflexivity.. | by eexists]).
Qed.

Lemma BlockBy_Number_Sort_ascending_witness :
  ∃ σ',
    BlockBy_Sort BlockBy_Number ex_blocks ex_sort_store = Some (tt, σ')
    ∧ Sorted Z.le (block_number σ' <$> slice_val blocksK σ' ex_blocks)
    ∧ slice_val blocksK σ' ex_blocks
      ≡ₚ [Some 20%positive; Some 21%positive; Some 22%positive].
Proof.
  destruct (BlockBy_Number_Sort_ascending ex_sort_store ex_blocks)
    as (σ' & Hrun & Hperm & Hsorted & _).
  - exact ex_sort_contract.
  - exact ex_blocks_ok.
  - exact ex_blocks_numbered.
  - exists σ'. split_and!; assumption.
Defined.

(** Numbers beyond 64 bits are ordered by their full value: the block
    with number [1] comes first, then [2^64], then [2^64 + 1]. *)
Lemma BlockBy_Number_Sort_beyond_64_bits :
  fst <$> (BlockBy_Sort BlockBy_Number ex_blocks;;
           slice_load blocksK ex_blocks) ex_sort_store
  = Some [Some 21%positive; Some 22%positive; Some 20%positive].
Proof. vm_compute. reflexivity. Qed.

Lemma body_accessors_share_witness :
  Block_Transactions (Some 9%positive) ex_store = Some (ex_txs, ex_store)
  ∧ Block_ContractReceipts (Some 9%positive) ex_store
    = Some (ex_rcs, ex_store)
  ∧ Block_Body (Some 9%positive) ex_store
    = Some (mkBody ex_txs ex_rcs, ex_store).
Proof.
  destruct (body_accessors_share ex_store 9%positive
              (mkBlock (Some 8%positive) ex_txs ex_rcs None None None))
    as (Ht & _ & Hr & Hb & _).
  - exact ex_block_at_9.
  - by split_and!.
Defined.

(** C2.  [WithSeal] keeps the big integers of the header it is given: a
    block sealed with a header of number 5 reports 7 once the caller has
    set the number of that header to 7. *)
Theorem WithSeal_shares_header_storage :
  fst <$> seal_then_set_number (Some 9%positive) (Some 1%positive) 7
            ex_store
  = Some (5, 7).
Proof. vm_compute. reflexivity. Qed.

(** [NewBlockWithHeader], which copies with [CopyHeader], is not affected
    by the same caller. *)
Lemma NewBlockWithHeader_keeps_number :
  fst <$> wrap_then_set_number (Some 1%positive) 7 ex_store = Some (5, 5).
Proof. vm_compute. reflexivity. Qed.
End Instances.

(** * Further properties *)

Section Further_proofs.
Context {E : Entities} {G : Engines} {SG : StorageEngine}.
#[local] Existing Instances bytesK_ok txsK_ok rcsK_ok blocksK_ok.

(** ** Nonces *)

Lemma Z_of_byte_range (b : byte) : 0 ≤ Z_of_byte b < 256.
Proof.
  unfold Z_of_byte. pose proof (Byte.to_N_bounded b). lia.
Qed.

Lemma Z_of_byte_of_Z (z : Z) : Z_of_byte (byte_of_Z z) = z mod 256.
Proof.
  unfold Z_of_byte, byte_of_Z.
  assert (0 ≤ z mod 256 < 256) as Hr by (apply Z.mod_pos_bound; lia).
  destruct (Byte.of_N (Z.to_N (z mod 256))) as [b|] eqn:Hb.
  - apply Byte.to_of_N in Hb. simpl. rewrite Hb. lia.
  - apply Byte.of_N_None_iff in Hb. lia.
Qed.

Lemma byte_of_Z_of_byte (b : byte) : byte_of_Z (Z_of_byte b) = b.
Proof.
  pose proof (Z_of_byte_range b) as Hr. unfold byte_of_Z.
  rewrite Z.mod_small by done. unfold Z_of_byte.
  by rewrite N2Z.id, Byte.of_to_N.
Qed.

(** Bits that do not overlap are joined by addition. *)
Lemma lor_shiftl_add (a b n : Z) :
  0 ≤ n → 0 ≤ a < 2 ^ n → 0 ≤ b → Z.lor a (Z.shiftl b n) = a + b * 2 ^ n.
Proof.
  intros Hn Ha Hb. rewrite <- Z.shiftl_mul_pow2 by done.
  assert (Z.land a (Z.shiftl b n) = 0) as Hland.
  { apply Z.bits_inj'. intros k Hk. rewrite Z.land_spec, Z.bits_0.
    destruct (decide (k < n)).
    - rewrite (Z.shiftl_spec_low b n k) by lia. apply andb_false_r.
    - destruct (decide (a = 0)) as [->|]; [by rewrite Z.bits_0|].
      assert (Z.log2 a < n) by (apply Z.log2_lt_pow2; lia).
      rewrite (Z.bits_above_log2 a k); [done | lia | lia]. }
  by rewrite <- Z.lxor_lor, <- Z.add_nocarry_lxor.
Qed.

Lemma BigEndian_Uint64_sum (b0 b1 b2 b3 b4 b5 b6 b7 : byte) :
  BigEndian_Uint64 [# b0; b1; b2; b3; b4; b5; b6; b7]
  = Z_of_byte b7 + Z_of_byte b6 * 2 ^ 8 + Z_of_byte b5 * 2 ^ 16
    + Z_of_byte b4 * 2 ^ 24 + Z_of_byte b3 * 2 ^ 32 + Z_of_byte b2 * 2 ^ 40
    + Z_of_byte b1 * 2 ^ 48 + Z_of_byte b0 * 2 ^ 56.
Proof.
  unfold BigEndian_Uint64. simpl.
  pose proof (Z_of_byte_range b0). pose proof (Z_of_byte_range b1).
  pose proof (Z_of_byte_range b2). pose proof (Z_of_byte_range b3).
  pose proof (Z_of_byte_range b4). pose proof (Z_of_byte_range b5).
  pose proof (Z_of_byte_range b6). pose proof (Z_of_byte_range b7).
  rewrite (lor_shiftl_add (Z_of_byte b7) _ 8) by lia.
  rewrite (lor_shiftl_add (_ + _) _ 16) by lia.
  rewrite (lor_shiftl_add (_ + _) _ 24) by lia.
  rewrite (lor_shiftl_add (_ + _) _ 32) by lia.
  rewrite (lor_shiftl_add (_ + _) _ 40) by lia.
  rewrite (lor_shiftl_add (_ + _) _ 48) by lia.
  by rewrite (lor_shiftl_add (_ + _) _ 56) by lia.
Qed.

Lemma BigEndian_Uint64_PutUint64 (i : Z) :
  0 ≤ i < 2 ^ 64 → BigEndian_Uint64 (BigEndian_PutUint64 i) = i.
Proof.
  intros Hi. unfold BigEndian_PutUint64.
  rewrite BigEndian_Uint64_sum, !Z_of_byte_of_Z.
  rewrite !Z.shiftr_div_pow2 by lia.
  change (2 ^ 8) with 256; change (2 ^ 16) with 65536;
  change (2 ^ 24) with 16777216; change (2 ^ 32) with 4294967296;
  change (2 ^ 40) with 1099511627776; change (2 ^ 48) with 281474976710656;
  change (2 ^ 56) with 72057594037927936;
  change (2 ^ 64) with 18446744073709551616 in Hi;
  Z.div_mod_to_equations; lia.
Qed.

Lemma byte_of_Z_eq (z : Z) (b : byte) :
  z mod 256 = Z_of_byte b → byte_of_Z z = b.
Proof.
  intros Hz. rewrite <- (byte_of_Z_of_byte b). unfold byte_of_Z.
  rewrite Hz. by rewrite (Z.mod_small (Z_of_byte b)) by apply Z_of_byte_range.
Qed.

Lemma BigEndian_Uint64_range (b : vec byte 8) :
  0 ≤ BigEndian_Uint64 b < 2 ^ 64.
Proof.
  inv_vec b. intros b0 b1 b2 b3 b4 b5 b6 b7.
  rewrite BigEndian_Uint64_sum.
  pose proof (Z_of_byte_range b0). pose proof (Z_of_byte_range b1).
  pose proof (Z_of_byte_range b2). pose proof (Z_of_byte_range b3).
  pose proof (Z_of_byte_range b4). pose proof (Z_of_byte_range b5).
  pose proof (Z_of_byte_range b6). pose proof (Z_of_byte_range b7).
  lia.
Qed.

Lemma BigEndian_PutUint64_Uint64 (b : vec byte 8) :
  BigEndian_PutUint64 (BigEndian_Uint64 b) = b.
Proof.
  inv_vec b. intros b0 b1 b2 b3 b4 b5 b6 b7.
  unfold BigEndian_PutUint64.
  rewrite BigEndian_Uint64_sum.
  pose proof (Z_of_byte_range b0). pose proof (Z_of_byte_range b1).
  pose proof (Z_of_byte_range b2). pose proof (Z_of_byte_range b3).
  pose proof (Z_of_byte_range b4). pose proof (Z_of_byte_range b5).
  pose proof (Z_of_byte_range b6). pose proof (Z_of_byte_range b7).
  repeat f_equal; apply byte_of_Z_eq; rewrite ?Z.shiftr_div_pow2 by lia;
    change (2 ^ 8) with 256; change (2 ^ 16) with 65536;
    change (2 ^ 24) with 16777216; change (2 ^ 32) with 4294967296;
    change (2 ^ 40) with 1099511627776;
    change (2 ^ 48) with 281474976710656;
    change (2 ^ 56) with 72057594037927936;
    Z.div_mod_to_equations; lia.
Qed.

(** X1.  [EncodeNonce] followed by [Uint64] gives back the integer, for
    every unsigned integer of 64 bits. *)
Theorem Uint64_EncodeNonce (i : Z) :
  0 ≤ i < 2 ^ 64 → BlockNonce_Uint64 (EncodeNonce i) = i.
Proof. apply BigEndian_Uint64_PutUint64. Qed.

(** X2.  [Uint64] followed by [EncodeNonce] gives back the nonce, and the
    integer read from a nonce fits in 64 bits: the two functions are
    inverse bijections between nonces and 64-bit integers. *)
Theorem EncodeNonce_Uint64 (n : BlockNonce) :
  EncodeNonce (BlockNonce_Uint64 n) = n
  ∧ 0 ≤ BlockNonce_Uint64 n < 2 ^ 64.
Proof.
  split; [apply BigEndian_PutUint64_Uint64 | apply BigEndian_Uint64_range].
Qed.

(** ** Deep copies of a header *)

Lemma CopyHeader_post_deep_copy (σ σ1 : Store) (hv : Header) (r : ptr) :
  CopyHeader_post σ hv r σ1 →
  ∃ c cv, r = Some c ∧ deep_copy_of σ hv c cv σ1
          ∧ TxHash cv = TxHash hv ∧ ReceiptHash cv = ReceiptHash hv
          ∧ Bloom cv = Bloom hv.
Proof.
  intros (c & t & d & n & ex & -> & Hsub & Hfc & Hft & Hfd & Hfn & Hc & Ht
          & Hd & Hn & Hex).
  exists c, (with_Extra ex (with_Number (Some n) (with_Difficulty (Some d)
                                                  (with_Time (Some t) hv)))).
  split; [done|]. split; [|done].
  exists t, d, n. by split_and!.
Qed.

(** Later allocations and changes of the roots keep a deep copy. *)
Lemma deep_copy_of_weaken (σ σ1 σ2 : Store) (hv hb : Header) (c : loc)
  (f : Header → Header) :
  deep_copy_of σ hv c hb σ1 →
  (∀ l x, σ1 !! l = Some x → l ≠ c → σ2 !! l = Some x) →
  σ2 !! c = Some (CHeader (f hb)) →
  (∀ x, Time (f x) = Time x ∧ Difficulty (f x) = Difficulty x
        ∧ Number (f x) = Number x ∧ Extra (f x) = Extra x
        ∧ ShardId (f x) = ShardId x ∧ ParentHash (f x) = ParentHash x
        ∧ Coinbase (f x) = Coinbase x ∧ Root (f x) = Root x
        ∧ GasLimit (f x) = GasLimit x ∧ GasUsed (f x) = GasUsed x
        ∧ MixDigest (f x) = MixDigest x ∧ Nonce (f x) = Nonce x) →
  deep_copy_of σ hv c (f hb) σ2.
Proof.
  intros (t & d & n & Hsub & Hfc & Hft & Hfd & Hfn & Hc & HT & HD & HN & Ht
          & Hd & Hn & Hex & Hs) Hkeep Hc2 Hf.
  destruct (Hf hb) as (E1 & E2 & E3 & E4 & E5 & E6 & E7 & E8 & E9 & E10
                       & E11 & E12).
  assert (t ≠ c) by (intros ->; congruence).
  assert (d ≠ c) by (intros ->; congruence).
  assert (n ≠ c) by (intros ->; congruence).
  destruct Hs as (? & ? & ? & ? & ? & ? & ? & ?).
  exists t, d, n.
  rewrite E1, E2, E3, E4, E5, E6, E7, E8, E9, E10, E11, E12.
  split_and!; try done; try (by apply Hkeep).
  - apply map_subseteq_spec. intros l x Hl. apply Hkeep.
    + by eapply lookup_weaken.
    + intros ->. congruence.
  - destruct (decide (0 < len (Extra hv))%nat); [|done].
    destruct Hex as (e & He & Hfe & Hxe). exists e. split_and!; try done.
    apply Hkeep; [done|]. intros ->. congruence.
Qed.

Lemma deep_copy_of_content (σ σx : Store) (c : loc) (hv hb : Header) :
  header_ok σ hv → deep_copy_of σ hv c hb σx →
  header_val σx (Some c)
  = Some (with_roots (TxHash hb) (ReceiptHash hb) (Bloom hb)
            (zero_for_nil (read_Header σ hv))).
Proof.
  intros (_ & _ & _ & Hoke)
         (t & d & n & Hsub & Hfc & Hft & Hfd & Hfn & Hc & HT & HD & HN & Ht
          & Hd & Hn & Hex & HS1 & HS2 & HS3 & HS4 & HS5 & HS6 & HS7 & HS8).
  simpl. rewrite Hc. f_equal.
  unfold read_Header, with_roots, zero_for_nil. simpl.
  rewrite HT, HD, HN. simpl. rewrite Ht, Hd, Hn.
  rewrite HS1, HS2, HS3, HS4, HS5, HS6, HS7, HS8. f_equal.
  destruct (decide (0 < len (Extra hv))%nat) as [Hlen|Hlen].
  - destruct Hex as (e & -> & Hfe & He).
    destruct (slice_load_ok bytesK σ (Extra hv) Hoke) as [_ Hl].
    rewrite <- Hl at 1. by apply (slice_val_whole bytesK).
  - rewrite Hex. rewrite !slice_val_empty; [done | lia..].
Qed.

(** A change made through the original does not reach the copy. *)
Lemma deep_copy_of_original_mutated (σ σx σ2 : Store) (h c : loc)
  (hv hb : Header) (m : mutation) :
  σ !! h = Some (CHeader hv) → header_ok σ hv →
  deep_copy_of σ hv c hb σx → σx !! h = Some (CHeader hv) →
  mutate (Some h) m σx = Some (tt, σ2) →
  header_val σ2 (Some c) = header_val σx (Some c)
  ∧ ∀ l, σ !! l = None → σ2 !! l = σx !! l.
Proof.
  intros Hh Hok (t & d & n & Hsub & Hfc & Hft & Hfd & Hfn & Hc & HT & HD
                 & HN & Ht & Hd & Hn & Hex & _) Hh' Hmut.
  assert (∀ l, σ !! l = None → σ2 !! l = σx !! l) as Hnew.
  { intros l Hl.
    destruct (fresh_not_referred σ hv l Hok Hl) as (? & ? & ? & ?).
    eapply mutate_agree; [exact Hh' | exact Hmut | try done..].
    intros ->. congruence. }
  split; [|done].
  simpl. rewrite (Hnew c Hfc), Hc. f_equal.
  apply read_Header_agree; simpl.
  - intros l Hl. rewrite HT in Hl. injection Hl as <-. by apply Hnew.
  - intros l Hl. rewrite HD in Hl. injection Hl as <-. by apply Hnew.
  - intros l Hl. rewrite HN in Hl. injection Hl as <-. by apply Hnew.
  - intros l off k Heq Hk. destruct (decide (0 < len (Extra hv))%nat).
    + destruct Hex as (e & He & Hfe & _). rewrite He in Heq.
      injection Heq as <- _ _. by apply Hnew.
    + rewrite Hex in Heq. rewrite Heq in *. simpl in *. lia.
Qed.

(** A change made through the copy does not reach anything that was there
    before the copy. *)
Lemma deep_copy_of_copy_mutated (σ σx σ2 : Store) (c : loc)
  (hv hb : Header) (m : mutation) :
  deep_copy_of σ hv c hb σx →
  mutate (Some c) m σx = Some (tt, σ2) →
  ∀ l, is_Some (σ !! l) → σ2 !! l = σx !! l.
Proof.
  intros (t & d & n & Hsub & Hfc & Hft & Hfd & Hfn & Hc & HT & HD
          & HN & Ht & Hd & Hn & Hex & _) Hmut l Hl.
  assert (l ≠ c) as Hlc by (intros ->; destruct Hl; congruence).
  assert (l ≠ t) as Hlt by (intros ->; destruct Hl; congruence).
  assert (l ≠ d) as Hld by (intros ->; destruct Hl; congruence).
  assert (l ≠ n) as Hln by (intros ->; destruct Hl; congruence).
  eapply mutate_agree; [exact Hc | exact Hmut | try congruence..].
  intros off k Heq. destruct (decide (0 < len (Extra hv))%nat).
  - destruct Hex as (e & He & Hfe & _). rewrite He in Heq.
    injection Heq as -> _ _. destruct Hl; congruence.
  - rewrite Hex in Heq. rewrite Heq in *. simpl in *. lia.
Qed.


Lemma with_roots_same (σ : Store) (hv : Header) :
  with_roots (TxHash hv) (ReceiptHash hv) (Bloom hv)
    (zero_for_nil (read_Header σ hv))
  = zero_for_nil (read_Header σ hv).
Proof. done. Qed.

(** ** Constructors and accessors *)

Lemma NewBlockWithHeader_spec (σ : Store) (h : loc) (hv : Header) :
  σ !! h = Some (CHeader hv) → header_ok σ hv →
  wp (NewBlockWithHeader (Some h))
    (λ r σ', ∃ b c cv,
       r = Some b ∧ σ !! b = None ∧ deep_copy_of σ hv c cv σ'
       ∧ TxHash cv = TxHash hv ∧ ReceiptHash cv = ReceiptHash hv
       ∧ Bloom cv = Bloom hv
       ∧ σ' !! b = Some (CBlock (mkBlock (Some c) SNil SNil None None None)))
    σ.
Proof.
  intros Hh Hok. unfold NewBlockWithHeader.
  apply wp_bind. eapply wp_mono; [by apply CopyHeader_spec|].
  intros r σ1 Hpost.
  pose proof Hpost as (c' & _ & _ & _ & _ & _ & Hs1 & _).
  apply CopyHeader_post_deep_copy in Hpost
    as (c & cv & -> & Hdc & Htx & Hrc & Hbl).
  apply wp_bind, wp_alloc. intros bl Hfb. apply wp_ret.
  exists bl, c, cv. split_and!; try done.
  - by eapply lookup_weaken_None.
  - destruct Hdc as (t & d & n & Hsub & Hfc & Hft & Hfd & Hfn & Hc & Hrest).
    replace cv with (id cv) by done.
    eapply (deep_copy_of_weaken σ σ1); [by exists t, d, n | | |done].
    + intros l x Hl _. by apply lookup_insert_fresh.
    + by apply lookup_insert_fresh.
  - apply lookup_insert_eq.
Qed.

(** X3.  [NewBlockWithHeader(h)] returns a block without transactions or
    receipts and with empty caches, over a new header whose content is that
    of [h] (a nil big integer read as zero), the two roots and the filter
    included; a later change through [h] reaches neither the block nor its
    header, and a change through the block's header does not reach [h]. *)
Theorem NewBlockWithHeader_wraps_copy (σ : Store) (h : loc) (hv : Header) :
  σ !! h = Some (CHeader hv) → header_ok σ hv →
  ∃ b c σ',
    NewBlockWithHeader (Some h) σ = Some (Some b, σ')
    ∧ σ !! b = None ∧ σ !! c = None
    ∧ σ' !! b = Some (CBlock (mkBlock (Some c) SNil SNil None None None))
    ∧ header_val σ' (Some c) = Some (zero_for_nil (read_Header σ hv))
    ∧ (∀ m σ2, mutate (Some h) m σ' = Some (tt, σ2) →
               header_val σ2 (Some c) = header_val σ' (Some c)
               ∧ σ2 !! b = σ' !! b)
    ∧ (∀ m σ2, mutate (Some c) m σ' = Some (tt, σ2) →
               header_val σ2 (Some h) = header_val σ (Some h)).
Proof.
  intros Hh Hok.
  pose proof (NewBlockWithHeader_spec σ h hv Hh Hok) as Hwp.
  apply wp_run in Hwp
    as (r & σ' & Hrun & b & c & cv & -> & Hfb & Hdc & Htx & Hrc & Hbl & Hb).
  pose proof Hdc as (_ & _ & _ & Hsub & Hfc & _).
  exists b, c, σ'. split_and!; try done.
  - rewrite (deep_copy_of_content σ σ' c hv cv Hok Hdc).
    by rewrite Htx, Hrc, Hbl.
  - intros m σ2 Hmut.
    assert (σ' !! h = Some (CHeader hv)) as Hh' by by eapply lookup_weaken.
    destruct (deep_copy_of_original_mutated σ σ' σ2 h c hv cv m
                Hh Hok Hdc Hh' Hmut) as [H1 H2].
    split; [done | by apply H2].
  - intros m σ2 Hmut. eapply header_val_agree; [done..|].
    intros l Hl.
    rewrite (deep_copy_of_copy_mutated σ σ' σ2 c hv cv m Hdc Hmut l Hl).
    destruct Hl as [x Hx]. rewrite Hx. by eapply lookup_weaken.
Qed.
(** The accessors of a block that read its header run their body on the
    header cell. *)
Lemma block_header_bind {X : Type} (k : Header → M X) (σ : Store)
  (b hl : loc) (B : Block) (h : Header) :
  σ !! b = Some (CBlock B) → header B = Some hl →
  σ !! hl = Some (CHeader h) →
  (B ← load_block (Some b); h ← load_header (header B); k h) σ = k h σ.
Proof.
  intros Hb HB Hhl.
  unfold load_block, load_header, load, mbind, M_bind.
  rewrite Hb. simpl. rewrite HB, Hhl. done.
Qed.

(** A block without a header: every accessor that reads the header
    panics. *)
Lemma block_nil_header_bind {X : Type} (k : Header → M X) (σ : Store)
  (b : loc) (B : Block) :
  σ !! b = Some (CBlock B) → header B = None →
  (B ← load_block (Some b); h ← load_header (header B); k h) σ = None.
Proof.
  intros Hb HB.
  unfold load_block, load_header, load, mbind, M_bind.
  rewrite Hb. simpl. by rewrite HB.
Qed.

Lemma big_accessor_copy (f : Header → ptr) (σ : Store) (b hl : loc)
  (B : Block) (h : Header) :
  σ !! b = Some (CBlock B) → header B = Some hl →
  σ !! hl = Some (CHeader h) →
  (∀ n z, f h = Some n → σ !! n = Some (CBigInt z) →
     ∃ p, (B ← load_block (Some b); h ← load_header (header B);
           z ← new_big_Int; big_Int_Set z (f h)) σ
          = Some (Some p, <[p := CBigInt z]> σ)
          ∧ σ !! p = None)
  ∧ (f h = None →
     (B ← load_block (Some b); h ← load_header (header B);
      z ← new_big_Int; big_Int_Set z (f h)) σ = None).
Proof.
  intros Hb HB Hhl.
  rewrite (block_header_bind (λ h, z ← new_big_Int; big_Int_Set z (f h))
             σ b hl B h Hb HB Hhl).
  split.
  - intros n z Hn Hz. rewrite Hn.
    assert (wp (z ← new_big_Int; big_Int_Set z (Some n))
              (λ r σ', ∃ p, r = Some p ∧ σ' = <[p := CBigInt z]> σ
                            ∧ σ !! p = None) σ) as Hwp.
    { apply wp_bind, wp_new_big_Int. intros p Hp.
      eapply wp_big_Int_Set.
      - apply lookup_insert_eq.
      - by apply lookup_insert_fresh.
      - exists p. by rewrite insert_insert_eq. }
    apply wp_run in Hwp as (r & σ' & Hrun & p & -> & -> & Hp).
    by exists p.
  - intros ->. reflexivity.
Qed.

(** X4.  [Number()], [Difficulty()] and [Time()] return a big integer in a
    new cell that holds the value of the header's field, and change nothing
    else: what the caller does to the result cannot reach the block.  On a
    header whose field is nil, and on a block without a header, they
    panic. *)
Theorem Block_big_accessors_copy (σ : Store) (b : loc) (B : Block) :
  σ !! b = Some (CBlock B) →
  (∀ hl h, header B = Some hl → σ !! hl = Some (CHeader h) →
     (∀ n z, Number h = Some n → σ !! n = Some (CBigInt z) →
        ∃ p, Block_Number (Some b) σ = Some (Some p, <[p := CBigInt z]> σ)
             ∧ σ !! p = None)
     ∧ (∀ n z, Difficulty h = Some n → σ !! n = Some (CBigInt z) →
          ∃ p, Block_Difficulty (Some b) σ
               = Some (Some p, <[p := CBigInt z]> σ)
               ∧ σ !! p = None)
     ∧ (∀ n z, Time h = Some n → σ !! n = Some (CBigInt z) →
          ∃ p, Block_Time (Some b) σ = Some (Some p, <[p := CBigInt z]> σ)
               ∧ σ !! p = None)
     ∧ (Number h = None → Block_Number (Some b) σ = None)
     ∧ (Difficulty h = None → Block_Difficulty (Some b) σ = None)
     ∧ (Time h = None → Block_Time (Some b) σ = None))
  ∧ (header B = None →
     Block_Number (Some b) σ = None ∧ Block_Difficulty (Some b) σ = None
     ∧ Block_Time (Some b) σ = None).
Proof.
  intros Hb. split.
  - intros hl h HB Hhl.
    destruct (big_accessor_copy Number σ b hl B h Hb HB Hhl) as [N1 N2].
    destruct (big_accessor_copy Difficulty σ b hl B h Hb HB Hhl) as [D1 D2].
    destruct (big_accessor_copy Time σ b hl B h Hb HB Hhl) as [T1 T2].
    split_and!; assumption.
  - intros HB. split_and!; exact (block_nil_header_bind _ σ b B Hb HB).
Qed.

(** X5.  [Header()] returns a new header with the content of the block's
    header (a nil big integer read as zero) and leaves the block as it was;
    a change made through the result reaches neither the block nor its
    header. *)
Theorem Block_Header_deep_copy (σ : Store) (b hl : loc) (B : Block)
  (hv : Header) :
  σ !! b = Some (CBlock B) → header B = Some hl →
  σ !! hl = Some (CHeader hv) → header_ok σ hv →
  ∃ c σ',
    Block_Header (Some b) σ = Some (Some c, σ')
    ∧ σ !! c = None
    ∧ σ' !! b = Some (CBlock B)
    ∧ header_val σ' (Some c) = Some (zero_for_nil (read_Header σ hv))
    ∧ header_val σ' (Some hl) = header_val σ (Some hl)
    ∧ (∀ m σ2, mutate (Some c) m σ' = Some (tt, σ2) →
               σ2 !! b = Some (CBlock B)
               ∧ header_val σ2 (Some hl) = header_val σ (Some hl)).
Proof.
  intros Hb HB Hhl Hok.
  assert (Block_Header (Some b) σ = CopyHeader (Some hl) σ) as Hrun.
  { unfold Block_Header, load_block, load, mbind, M_bind.
    rewrite Hb. simpl. by rewrite HB. }
  pose proof (CopyHeader_spec σ hl hv Hhl Hok) as Hwp.
  apply wp_run in Hwp as (r & σ' & Hcopy & Hpost).
  apply CopyHeader_post_deep_copy in Hpost
    as (c & cv & -> & Hdc & Htx & Hrc & Hbl).
  pose proof Hdc as (_ & _ & _ & Hsub & Hfc & _).
  exists c, σ'. split_and!.
  - by rewrite Hrun.
  - done.
  - by eapply lookup_weaken.
  - rewrite (deep_copy_of_content σ σ' c hv cv Hok Hdc).
    by rewrite Htx, Hrc, Hbl.
  - eapply header_val_agree; [done..|].
    intros l [x Hx]. rewrite Hx. by eapply lookup_weaken.
  - intros m σ2 Hmut.
    pose proof (deep_copy_of_copy_mutated σ σ' σ2 c hv cv m Hdc Hmut)
      as Hkeep.
    split.
    + rewrite Hkeep by done. by eapply lookup_weaken.
    + eapply header_val_agree; [done..|].
      intros l Hl. rewrite (Hkeep l Hl).
      destruct Hl as [x Hx]. rewrite Hx. by eapply lookup_weaken.
Qed.

(** X6.  [NumberU64()] returns the number of the header when it is an
    unsigned integer of 64 bits, and leaves the store as it was; on a
    header whose number is nil it panics. *)
Theorem Block_NumberU64_value (σ : Store) (b hl : loc) (B : Block)
  (h : Header) :
  σ !! b = Some (CBlock B) → header B = Some hl →
  σ !! hl = Some (CHeader h) →
  (∀ n z, Number h = Some n → σ !! n = Some (CBigInt z) →
          0 ≤ z < 2 ^ 64 →
          Block_NumberU64 (Some b) σ = Some (z, σ))
  ∧ (Number h = None → Block_NumberU64 (Some b) σ = None).
Proof.
  intros Hb HB Hhl. unfold Block_NumberU64.
  rewrite (block_header_bind (λ h, big_Int_Uint64 (Number h))
             σ b hl B h Hb HB Hhl).
  split.
  - intros n z Hn Hz Hr. rewrite Hn.
    unfold big_Int_Uint64, load_big, load, mbind, M_bind.
    rewrite Hz. simpl. rewrite Z.abs_eq by lia.
    by rewrite Z.mod_small.
  - by intros ->.
Qed.

(** X7.  [Nonce()] returns, without a change of the store, the 64-bit
    integer whose encoding by [EncodeNonce] is the nonce of the header. *)
Theorem Block_Nonce_decodes (σ : Store) (b hl : loc) (B : Block)
  (h : Header) :
  σ !! b = Some (CBlock B) → header B = Some hl →
  σ !! hl = Some (CHeader h) →
  ∃ v, Block_Nonce (Some b) σ = Some (v, σ)
       ∧ 0 ≤ v < 2 ^ 64 ∧ EncodeNonce v = Nonce h
       ∧ v = BlockNonce_Uint64 (Nonce h).
Proof.
  intros Hb HB Hhl. exists (BigEndian_Uint64 (Nonce h)). split_and!.
  - unfold Block_Nonce.
    by rewrite (block_header_bind (λ h, mret (BigEndian_Uint64 (Nonce h)))
                  σ b hl B h Hb HB Hhl).
  - apply BigEndian_Uint64_range.
  - apply BigEndian_Uint64_range.
  - apply BigEndian_PutUint64_Uint64.
  - done.
Qed.
(** ** What [NewBlock] keeps of its arguments *)

Lemma Block_field_run {X : Type} (f : Block → X) (σ : Store) (b : loc)
  (B : Block) :
  σ !! b = Some (CBlock B) →
  (B ← load_block (Some b); mret (f B)) σ = Some (f B, σ).
Proof.
  intros Hb. unfold load_block, load, mbind, M_bind. by rewrite Hb.
Qed.

(** X8.  [NewBlock] does not store the receipts it is given: the new block
    has a nil receipt list, whatever [rcs] holds, and a lookup of a receipt
    by hash finds nothing. *)
Theorem NewBlock_drops_receipts (σ : Store) (h : loc) (hv : Header)
  (txs rcs : slice) :
  σ !! h = Some (CHeader hv) → header_ok σ hv →
  slice_ok txsK σ txs → slice_ok rcsK σ rcs →
  ∃ b σ',
    NewBlock (Some h) txs rcs σ = Some (Some b, σ')
    ∧ Block_Receiptions (Some b) σ' = Some (SNil, σ')
    ∧ Block_ContractReceipts (Some b) σ' = Some (SNil, σ')
    ∧ ∀ x, Block_ContrcatReceipt (Some b) x σ' = Some (None, σ').
Proof.
  intros Hh Hok Htx Hrc.
  pose proof (NewBlock_spec σ h hv txs rcs Hh Hok Htx Hrc) as Hwp.
  apply wp_run in Hwp
    as (r & σ' & Hrun & b & c & B & cv & -> & _ & _ & _ & Hb & _ & HR & _).
  exists b, σ'. split_and!.
  - done.
  - unfold Block_Receiptions.
    by rewrite (Block_field_run receipts σ' b B Hb), HR.
  - unfold Block_ContractReceipts.
    by rewrite (Block_field_run receipts σ' b B Hb), HR.
  - intros x. unfold Block_ContrcatReceipt, load_block, load, mbind, M_bind.
    rewrite Hb. simpl. by rewrite HR.
Qed.

(** X9.  [NewBlock] copies the transaction list: the block's list has the
    elements of [txs] in a new array (nil for an empty [txs]), and a later
    assignment to an element of [txs] by the caller changes neither the
    block's list nor the block. *)
Theorem NewBlock_copies_transactions (σ : Store) (h : loc) (hv : Header)
  (txs rcs : slice) :
  σ !! h = Some (CHeader hv) → header_ok σ hv →
  slice_ok txsK σ txs → slice_ok rcsK σ rcs →
  ∃ b σ' ts,
    NewBlock (Some h) txs rcs σ = Some (Some b, σ')
    ∧ Block_Transactions (Some b) σ' = Some (ts, σ')
    ∧ slice_val txsK σ' ts = slice_val txsK σ txs
    ∧ (len txs = 0%nat → ts = SNil)
    ∧ (len txs ≠ 0%nat → ∃ a, ts = SArr a 0 (len txs) ∧ σ !! a = None)
    ∧ (∀ i v σ2,
         slice_assign txsK txs i v σ' = Some (tt, σ2) →
         slice_val txsK σ2 ts = slice_val txsK σ' ts
         ∧ σ2 !! b = σ' !! b).
Proof.
  intros Hh Hok Htx Hrc.
  pose proof (NewBlock_spec σ h hv txs rcs Hh Hok Htx Hrc) as Hwp.
  apply wp_run in Hwp
    as (r & σ' & Hrun & b & c & B & cv & -> & Hsub & Hfb & _ & Hb & _ & _
        & _ & _ & _ & _ & Hval & Hshape).
  exists b, σ', (transactions B). split_and!.
  - done.
  - unfold Block_Transactions.
    by rewrite (Block_field_run transactions σ' b B Hb).
  - done.
  - intros Hz. by rewrite decide_True in Hshape.
  - intros Hnz. by rewrite decide_False in Hshape.
  - intros i v σ2 Hassign.
    apply (slice_assign_inv txsK) in Hassign
      as (a & off & n & l & -> & Ha & Hlen & Hi & -> & _).
    destruct Htx as (c0 & l0 & Ha0 & _).
    split.
    + apply slice_val_agree. intros a1 off1 n1 Hts _.
      apply lookup_insert_ne. intros ->.
      simpl in Hshape. rewrite decide_False in Hshape by lia.
      destruct Hshape as (a2 & Hts2 & Hfa).
      rewrite Hts in Hts2. injection Hts2 as -> _ _. congruence.
    + apply lookup_insert_ne. intros ->. congruence.
Qed.

(** [NewBlock], with the total difficulty of the new block followed
    through. *)
Lemma NewBlock_td_spec (σ : Store) (h : loc) (hv : Header)
  (txs rcs : slice) :
  σ !! h = Some (CHeader hv) → header_ok σ hv →
  slice_ok txsK σ txs → slice_ok rcsK σ rcs →
  wp (NewBlock (Some h) txs rcs)
    (λ r σ', ∃ b B tdl,
       r = Some b ∧ σ' !! b = Some (CBlock B) ∧ td B = Some tdl
       ∧ σ !! tdl = None ∧ σ' !! tdl = Some (CBigInt 0)) σ.
Proof.
  intros Hh Hok Hoktx Hokrc.
  unfold NewBlock.
  apply wp_bind. eapply wp_mono; [by apply CopyHeader_spec|].
  intros r σ1 (c & t & d & n & ex & -> & Hs1 & Hfc & Hft & Hfd & Hfn & Hc
               & _).
  apply wp_bind, wp_new_big_Int. intros tdl Htd.
  apply wp_bind, wp_alloc. intros bl Hbl.
  apply lookup_insert_None in Hbl as [Hbl Htb].
  assert (c ≠ bl) as Hcb by (intros ->; congruence).
  assert (c ≠ tdl) as Hct by (intros ->; congruence).
  assert (σ !! bl = None) as Hfb by (by eapply lookup_weaken_None).
  assert (σ !! tdl = None) as Hftd by (by eapply lookup_weaken_None).
  set (σt := <[tdl := CBigInt 0]> σ).
  assert (σ ⊆ σt) as Hst by (by apply insert_subseteq).
  set (σ3 := <[bl := _]> _).
  assert (σt ⊆ σ3) as Hs3.
  { subst σ3 σt. apply insert_subseteq_r.
    - by rewrite lookup_insert_ne.
    - by apply insert_mono. }
  destruct (slice_val_weaken txsK σ σt txs Hst Hoktx) as [_ Hoktx'].
  destruct (slice_val_weaken rcsK σ σt rcs Hst Hokrc) as [_ Hokrc'].
  apply wp_bind.
  eapply (wp_NewBlock_txs σt σ3 c bl _
            (mkBlock (Some c) SNil SNil None None (Some tdl)));
    [done | | | done | | apply lookup_insert_eq | done | done | done |].
  { subst σt. by rewrite lookup_insert_ne. }
  { subst σt. by rewrite lookup_insert_ne. }
  { subst σ3. by rewrite !lookup_insert_ne by done. }
  intros σ4 ts Hs4 Hc4 Hb4 Hts Hshape.
  apply wp_bind.
  eapply (wp_NewBlock_rcs σt σ4 c bl); [done | done | done | done | done
                                       | done |].
  apply wp_ret.
  exists bl, (with_transactions ts
                (mkBlock (Some c) SNil SNil None None (Some tdl))), tdl.
  split_and!; try done.
  - by rewrite lookup_insert_ne.
  - rewrite lookup_insert_ne by done.
    eapply lookup_weaken; [|exact Hs4]. subst σt. apply lookup_insert_eq.
Qed.

(** X10.  The total difficulty of a block made by [NewBlock] is a new big
    integer of value zero; that of a block made by [NewBlockWithHeader] is
    nil. *)
Theorem DeprecatedTd_of_new_blocks (σ : Store) (h : loc) (hv : Header)
  (txs rcs : slice) :
  σ !! h = Some (CHeader hv) → header_ok σ hv →
  slice_ok txsK σ txs → slice_ok rcsK σ rcs →
  (∃ b σ' tdl,
     NewBlock (Some h) txs rcs σ = Some (Some b, σ')
     ∧ Block_DeprecatedTd (Some b) σ' = Some (Some tdl, σ')
     ∧ σ !! tdl = None ∧ σ' !! tdl = Some (CBigInt 0))
  ∧ (∃ b σ',
       NewBlockWithHeader (Some h) σ = Some (Some b, σ')
       ∧ Block_DeprecatedTd (Some b) σ' = Some (None, σ')).
Proof.
  intros Hh Hok Htx Hrc. split.
  - pose proof (NewBlock_td_spec σ h hv txs rcs Hh Hok Htx Hrc) as Hwp.
    apply wp_run in Hwp
      as (r & σ' & Hrun & b & B & tdl & -> & Hb & Htd & Hf & Hz).
    exists b, σ', tdl. split_and!; try done.
    unfold Block_DeprecatedTd.
    by rewrite (Block_field_run td σ' b B Hb), Htd.
  - pose proof (NewBlockWithHeader_spec σ h hv Hh Hok) as Hwp.
    apply wp_run in Hwp
      as (r & σ' & Hrun & b & c & cv & -> & _ & _ & _ & _ & _ & Hb).
    exists b, σ'. split; [done|].
    unfold Block_DeprecatedTd.
    by rewrite (Block_field_run td σ' b _ Hb).
Qed.
(** ** What [WithSeal] shares *)

(** X11.  [WithSeal(h)] returns a new block over a new header cell that is
    the struct of [h] field by field: the big integers of [h] are shared.
    The lists are those of the receiver, both caches are empty and the
    total difficulty is nil; the receiver is unchanged.  A later assignment
    to a field of [h] does not reach the sealed block, while setting the
    number of [h] in place changes the number of the sealed block. *)
Theorem Block_WithSeal_shares (σ : Store) (b h : loc) (B : Block)
  (hv : Header) :
  σ !! b = Some (CBlock B) → σ !! h = Some (CHeader hv) →
  ∃ b' c σ',
    Block_WithSeal (Some b) (Some h) σ = Some (Some b', σ')
    ∧ σ !! b' = None ∧ σ !! c = None
    ∧ σ' !! b = Some (CBlock B)
    ∧ σ' !! b' = Some (CBlock (mkBlock (Some c) (transactions B)
                                 (receipts B) None None None))
    ∧ σ' !! c = Some (CHeader hv)
    ∧ Block_Transactions (Some b') σ' = Some (transactions B, σ')
    ∧ Block_ContractReceipts (Some b') σ' = Some (receipts B, σ')
    ∧ Block_DeprecatedTd (Some b') σ' = Some (None, σ')
    ∧ (∀ f σ2, mutate (Some h) (SetFields f) σ' = Some (tt, σ2) →
               σ2 !! c = Some (CHeader hv))
    ∧ (∀ n z v σ2,
         Number hv = Some n → σ !! n = Some (CBigInt z) →
         mutate (Some h) (SetNumber v) σ' = Some (tt, σ2) →
         block_number σ' (Some b') = z ∧ block_number σ2 (Some b') = v).
Proof.
  intros Hb Hh.
  destruct (Block_WithSeal_shallow σ b h B hv Hb Hh)
    as (b' & c & σ' & Hrun & Hsub & Hfc & Hfb & Hb' & Hc).
  assert (σ' !! h = Some (CHeader hv)) as Hh' by by eapply lookup_weaken.
  exists b', c, σ'. split_and!; try done.
  - by eapply lookup_weaken.
  - unfold Block_Transactions.
    by rewrite (Block_field_run transactions σ' b' _ Hb').
  - unfold Block_ContractReceipts.
    by rewrite (Block_field_run receipts σ' b' _ Hb').
  - unfold Block_DeprecatedTd.
    by rewrite (Block_field_run td σ' b' _ Hb').
  - intros f σ2. simpl.
    unfold modify_header, load_header, load, store, mbind, M_bind.
    rewrite Hh'. simpl. rewrite Hh'. intros [= <-].
    rewrite lookup_insert_ne; [done|]. intros ->. congruence.
  - intros n z v σ2 Hn Hz. simpl.
    assert (σ' !! n = Some (CBigInt z)) as Hz' by by eapply lookup_weaken.
    unfold set_big, load_header, load_big, load, store, mbind, M_bind.
    rewrite Hh'. simpl. rewrite Hn, Hz'. simpl. rewrite Hz'.
    intros [= <-].
    assert (n ≠ b') by (intros ->; congruence).
    assert (n ≠ c) by (intros ->; congruence).
    unfold block_number. simpl.
    rewrite lookup_insert_ne, Hb' by done. simpl.
    rewrite lookup_insert_ne, Hc by done.
    rewrite Hn. simpl. rewrite Hz', lookup_insert_eq. done.
Qed.

(** ** Lookups in a list with a nil entry *)

(** X12.  [Transaction] and [ContrcatReceipt] scan their list from the
    front: an entry with the hash is returned whatever follows it, and a
    nil entry met before any entry with the hash makes the lookup panic. *)
Theorem Block_lookup_nil_entry (σ : Store) (b : loc) (B : Block)
  (x : common_Hash) :
  σ !! b = Some (CBlock B) →
  slice_ok txsK σ (transactions B) → slice_ok rcsK σ (receipts B) →
  (∀ pre o rest,
     slice_val txsK σ (transactions B) = pre ++ o :: rest →
     Forall (λ e, ∃ t, e = Some t ∧ Transaction_Hash t ≠ x) pre →
     (o = None → Block_Transaction (Some b) x σ = None)
     ∧ (∀ t, o = Some t → Transaction_Hash t = x →
             Block_Transaction (Some b) x σ = Some (Some t, σ)))
  ∧ (∀ pre o rest,
       slice_val rcsK σ (receipts B) = pre ++ o :: rest →
       Forall (λ e, ∃ t, e = Some t ∧ ContractResult_TxHash t ≠ x) pre →
       (o = None → Block_ContrcatReceipt (Some b) x σ = None)
       ∧ (∀ t, o = Some t → ContractResult_TxHash t = x →
               Block_ContrcatReceipt (Some b) x σ = Some (Some t, σ))).
Proof.
  intros Hb Htx Hrc.
  destruct (slice_load_ok txsK σ _ Htx) as [Hlt _].
  destruct (slice_load_ok rcsK σ _ Hrc) as [Hlr _].
  split.
  - intros pre o rest Hval Hpre.
    assert (Block_Transaction (Some b) x σ
            = Transaction_range x (pre ++ o :: rest) σ) as ->.
    { unfold Block_Transaction, load_block, load, mbind, M_bind.
      rewrite Hb. simpl. rewrite Hlt. by rewrite Hval. }
    rewrite Transaction_range_prefix by done.
    split; [by intros ->|]. intros t -> Ht. by rewrite decide_True.
  - intros pre o rest Hval Hpre.
    assert (Block_ContrcatReceipt (Some b) x σ
            = ContrcatReceipt_range x (pre ++ o :: rest) σ) as ->.
    { unfold Block_ContrcatReceipt, load_block, load, mbind, M_bind.
      rewrite Hb. simpl. rewrite Hlr. by rewrite Hval. }
    rewrite ContrcatReceipt_range_prefix by done.
    split; [by intros ->|]. intros t -> Ht. by rewrite decide_True.
Qed.
(** ** Ordering *)

Lemma scblockSorter_Swap_run (σ : Store) (self : scblockSorter)
  (i j : nat) (bi bj : ptr) :
  slice_ok blocksK σ (blocks self) →
  slice_val blocksK σ (blocks self) !! i = Some bi →
  slice_val blocksK σ (blocks self) !! j = Some bj →
  ∃ σ2,
    scblockSorter_Swap self i j σ = Some (tt, σ2)
    ∧ slice_ok blocksK σ2 (blocks self)
    ∧ slice_val blocksK σ2 (blocks self)
      = <[j := bi]> (<[i := bj]> (slice_val blocksK σ (blocks self)))
    ∧ ∀ l, (∀ off n, blocks self ≠ SArr l off n) → σ2 !! l = σ !! l.
Proof.
  intros Hok Hi Hj.
  unfold scblockSorter_Swap, mbind, M_bind.
  rewrite (slice_index_run blocksK σ _ j bj Hok Hj).
  rewrite (slice_index_run blocksK σ _ i bi Hok Hi).
  destruct (slice_load_ok blocksK σ _ Hok) as [_ Hl].
  apply lookup_lt_Some in Hi as Hi'. apply lookup_lt_Some in Hj as Hj'.
  rewrite Hl in Hi', Hj'.
  destruct (slice_assign_run blocksK σ _ i bj Hok Hi')
    as (σ2 & -> & Hok2 & Hv2 & Hfr2).
  destruct (slice_assign_run blocksK σ2 _ j bi Hok2 Hj')
    as (σ3 & -> & Hok3 & Hv3 & Hfr3).
  exists σ3. split_and!; [done | done | by rewrite Hv3, Hv2 |].
  intros l Hne. by rewrite Hfr3, Hfr2.
Qed.

Lemma swap_twice {A : Type} (v : list A) (i j : nat) (a b x : A) :
  v !! i = Some a → v !! j = Some b →
  <[j := a]> (<[i := b]> v) !! i = Some x →
  <[j := x]> (<[i := a]> (<[j := a]> (<[i := b]> v))) = v.
Proof.
  intros Hi Hj Hx. destruct (decide (i = j)) as [<-|Hne].
  - assert (a = b) as <- by congruence.
    rewrite !(list_insert_id v i a) in Hx by done.
    assert (x = a) as -> by congruence.
    by rewrite !(list_insert_id v i a).
  - rewrite list_lookup_insert_ne in Hx by done.
    rewrite list_lookup_insert_eq in Hx by (by eapply lookup_lt_Some).
    injection Hx as <-.
    rewrite (list_insert_insert_ne _ i j a a) by done.
    rewrite list_insert_insert_eq.
    rewrite (list_insert_insert_eq v i a b).
    rewrite (list_insert_id v i a) by done.
    by rewrite (list_insert_id v j b).
Qed.

(** X13.  [Swap(i, j)] of the sorter exchanges the elements [i] and [j] of
    the collection and changes no other cell; a second [Swap(i, j)] gives
    the collection back; an index beyond the length makes it panic. *)
Theorem scblockSorter_Swap_exchanges (σ : Store) (self : scblockSorter)
  (i j : nat) :
  slice_ok blocksK σ (blocks self) →
  (∀ bi bj,
     slice_val blocksK σ (blocks self) !! i = Some bi →
     slice_val blocksK σ (blocks self) !! j = Some bj →
     ∃ σ2 σ3,
       scblockSorter_Swap self i j σ = Some (tt, σ2)
       ∧ slice_val blocksK σ2 (blocks self)
         = <[j := bi]> (<[i := bj]> (slice_val blocksK σ (blocks self)))
       ∧ (∀ l, (∀ off n, blocks self ≠ SArr l off n) → σ2 !! l = σ !! l)
       ∧ scblockSorter_Swap self i j σ2 = Some (tt, σ3)
       ∧ slice_val blocksK σ3 (blocks self)
         = slice_val blocksK σ (blocks self))
  ∧ ((len (blocks self) ≤ i)%nat ∨ (len (blocks self) ≤ j)%nat →
     scblockSorter_Swap self i j σ = None).
Proof.
  intros Hok. split.
  - intros bi bj Hi Hj.
    destruct (scblockSorter_Swap_run σ self i j bi bj Hok Hi Hj)
      as (σ2 & Hrun & Hok2 & Hv2 & Hfr2).
    assert (slice_val blocksK σ2 (blocks self) !! j = Some bi) as Hj2.
    { rewrite Hv2. apply list_lookup_insert_eq.
      rewrite length_insert. by eapply lookup_lt_Some. }
    assert (is_Some (slice_val blocksK σ2 (blocks self) !! i)) as [x Hi2].
    { apply lookup_lt_is_Some. rewrite Hv2, !length_insert.
      by eapply lookup_lt_Some. }
    destruct (scblockSorter_Swap_run σ2 self i j x bi Hok2 Hi2 Hj2)
      as (σ3 & Hrun3 & _ & Hv3 & _).
    exists σ2, σ3. split_and!; try done.
    rewrite Hv3, Hv2. rewrite Hv2 in Hi2. by eapply swap_twice.
  - destruct (slice_load_ok blocksK σ _ Hok) as [Hload Hl].
    intros Hout. unfold scblockSorter_Swap, slice_index, mbind, M_bind.
    rewrite Hload.
    destruct (slice_val blocksK σ (blocks self) !! j) as [bj|] eqn:Hj;
      [|done].
    simpl. rewrite Hload.
    destruct (slice_val blocksK σ (blocks self) !! i) as [bi|] eqn:Hi;
      [|done].
    apply lookup_lt_Some in Hi, Hj. lia.
Qed.

(** X14.  [Number] compares two blocks by the full value of their numbers
    and changes nothing: on blocks that have a number it is irreflexive,
    asymmetric and transitive, and two blocks are unordered both ways
    exactly when their numbers are equal; a nil block makes it panic. *)
Theorem BlockBy_Number_strict_order (σ : Store) (b1 b2 b3 : ptr) :
  block_numbered σ b1 → block_numbered σ b2 → block_numbered σ b3 →
  BlockBy_Number b1 b1 σ = Some (false, σ)
  ∧ (BlockBy_Number b1 b2 σ = Some (true, σ) →
     BlockBy_Number b2 b1 σ = Some (false, σ))
  ∧ (BlockBy_Number b1 b2 σ = Some (true, σ) →
     BlockBy_Number b2 b3 σ = Some (true, σ) →
     BlockBy_Number b1 b3 σ = Some (true, σ))
  ∧ (BlockBy_Number b1 b2 σ = Some (false, σ)
     ∧ BlockBy_Number b2 b1 σ = Some (false, σ)
     ↔ block_number σ b1 = block_number σ b2)
  ∧ BlockBy_Number None b2 σ = None
  ∧ BlockBy_Number b1 None σ = None.
Proof.
  intros H1 H2 H3.
  rewrite !BlockBy_Number_run by done.
  split_and!.
  - f_equal. f_equal. apply bool_decide_eq_false. lia.
  - intros [= Hlt%bool_decide_eq_true]. f_equal. f_equal.
    apply bool_decide_eq_false. lia.
  - intros [= Ha%bool_decide_eq_true] [= Hb%bool_decide_eq_true].
    f_equal. f_equal. apply bool_decide_eq_true. lia.
  - split.
    + intros [[= Ha%bool_decide_eq_false] [= Hb%bool_decide_eq_false]]. lia.
    + intros Heq. split; f_equal; f_equal; apply bool_decide_eq_false; lia.
  - done.
  - destruct H1 as (bl & B & hl & h & -> & Hb & HB & Hh & _).
    unfold BlockBy_Number, load_block, load_header, load, mbind, M_bind.
    rewrite Hb. simpl. rewrite HB, Hh. done.
Qed.
(** ** The size of a header *)

Lemma BitLen_nonneg (v : Z) : 0 ≤ BitLen v.
Proof.
  unfold BitLen. destruct (decide (v = 0)); [done|].
  pose proof (Z.log2_nonneg (Z.abs v)). lia.
Qed.

Lemma big_Int_BitLen_run (σ : Store) (p : ptr) :
  big_Int_BitLen p σ
  = match big_val σ p with Some v => Some (BitLen v, σ) | None => None end.
Proof.
  unfold big_Int_BitLen, load_big, load, mbind, M_bind.
  destruct p as [l|]; simpl; [|done].
  by destruct (σ !! l) as [[]|].
Qed.

Lemma Header_Size_run (sz : Z) (σ : Store) (h : loc) (hv : Header) :
  σ !! h = Some (CHeader hv) →
  Header_Size sz (Some h) σ
  = match big_val σ (Difficulty hv), big_val σ (Number hv),
          big_val σ (Time hv) with
    | Some d, Some n, Some t =>
        Some (sz + (Z.of_nat (len (Extra hv))
                    + Z.quot (BitLen d + BitLen n + BitLen t) 8), σ)
    | _, _, _ => None
    end.
Proof.
  intros Hh. unfold Header_Size, load_header, load, mbind, M_bind.
  rewrite Hh. simpl. rewrite (big_Int_BitLen_run σ (Difficulty hv)).
  destruct (big_val σ (Difficulty hv)) as [d|]; [|done].
  rewrite (big_Int_BitLen_run σ (Number hv)).
  destruct (big_val σ (Number hv)) as [n|]; [|done].
  rewrite (big_Int_BitLen_run σ (Time hv)).
  by destruct (big_val σ (Time hv)) as [t|].
Qed.

(** X15.  [Size()] of a header adds, to the size of the struct, the length
    of the extra data and an eighth of the bit lengths of the three big
    integers, rounded down, and is never below the first two; it panics
    when one of the big integers is nil.  On the result of [CopyHeader] it
    never panics: it is the same sum with a nil big integer counted as
    zero. *)
Theorem Header_Size_of_copy (sz : Z) (σ : Store) (h : loc) (hv : Header) :
  σ !! h = Some (CHeader hv) → header_ok σ hv →
  (∀ d n t,
     big_val σ (Difficulty hv) = Some d → big_val σ (Number hv) = Some n →
     big_val σ (Time hv) = Some t →
     Header_Size sz (Some h) σ
     = Some (sz + (Z.of_nat (len (Extra hv))
                   + Z.quot (BitLen d + BitLen n + BitLen t) 8), σ)
     ∧ 0 ≤ Z.quot (BitLen d + BitLen n + BitLen t) 8)
  ∧ (Difficulty hv = None ∨ Number hv = None ∨ Time hv = None →
     Header_Size sz (Some h) σ = None)
  ∧ ∃ c σ',
      CopyHeader (Some h) σ = Some (Some c, σ')
      ∧ Header_Size sz (Some c) σ'
        = Some (sz + (Z.of_nat (len (Extra hv))
                      + Z.quot
                          (BitLen (default 0 (big_val σ (Difficulty hv)))
                           + BitLen (default 0 (big_val σ (Number hv)))
                           + BitLen (default 0 (big_val σ (Time hv)))) 8),
                σ').
Proof.
  intros Hh Hok. split_and!.
  - intros d n t Hd Hn Ht. rewrite (Header_Size_run sz σ h hv Hh).
    rewrite Hd, Hn, Ht. split; [done|].
    pose proof (BitLen_nonneg d). pose proof (BitLen_nonneg n).
    pose proof (BitLen_nonneg t). apply Z.quot_pos; lia.
  - intros Hnil. rewrite (Header_Size_run sz σ h hv Hh).
    destruct Hnil as [-> | [-> | ->]]; simpl; [done | |].
    + by destruct (big_val σ (Difficulty hv)).
    + by destruct (big_val σ (Difficulty hv)), (big_val σ (Number hv)).
  - pose proof (CopyHeader_spec σ h hv Hh Hok) as Hwp.
    apply wp_run in Hwp as (r & σ' & Hcopy & Hpost).
    apply CopyHeader_post_deep_copy in Hpost
      as (c & cv & -> & Hdc & _).
    destruct Hdc as (t & d & n & Hsub & Hfc & Hft & Hfd & Hfn & Hc & HT & HD
                     & HN & Ht & Hd & Hn & Hex & _).
    exists c, σ'. split; [done|].
    rewrite (Header_Size_run sz σ' c cv Hc).
    rewrite HT, HD, HN. simpl. rewrite Ht, Hd, Hn.
    assert (len (Extra cv) = len (Extra hv)) as ->; [|done].
    destruct (decide (0 < len (Extra hv))%nat).
    + by destruct Hex as (e & -> & _).
    + by rewrite Hex.
Qed.

(** ** Decoding into a block that is in use *)

(** X16.  A successful [DecodeRLP] replaces header and lists and sets the
    size cache, but leaves the hash cache and the total difficulty as they
    were: a block with a cached hash keeps reporting that hash for its new
    header, and only a block without one hashes the decoded header. *)
Theorem Block_DecodeRLP_keeps_hash_cache (σ : Store) (b : loc)
  (B : Block) :
  Decode_frame →
  σ !! b = Some (CBlock B) →
  ∀ s k sz e s1 eb s2 σ2,
  Stream_Kind s = ((k, sz, e), s1) →
  Stream_Decode_extblock s1 σ = (inr eb, s2, σ2) →
  ∃ σ3,
    Block_DecodeRLP (Some b) s σ = Some ((None, s2), σ3)
    ∧ σ3 !! b = Some (CBlock (mkBlock (eb_Header eb) (eb_Txs eb)
                                (eb_Receipts eb) (hash B)
                                (Some (rlp_ListSize sz)) (td B)))
    ∧ (∀ w, hash B = Some w → Block_Hash (Some b) σ3 = Some (w, σ3))
    ∧ (hash B = None →
       ∃ σ4, Block_Hash (Some b) σ3
             = Some (Keccak256
                       (concat (rlp_chunks_Header σ3 (eb_Header eb))), σ4))
    ∧ Block_DeprecatedTd (Some b) σ3 = Some (td B, σ3).
Proof.
  intros Hframe Hb s k sz e s1 eb s2 σ2 Hk Hd.
  assert (σ2 !! b = Some (CBlock B)) as Hb2.
  { eapply lookup_weaken; [exact Hb|]. by eapply Hframe. }
  eexists. split; [by eapply Block_DecodeRLP_ok|].
  set (σ3 := <[b := _]> σ2).
  assert (σ3 !! b = Some (CBlock (mkBlock (eb_Header eb) (eb_Txs eb)
                                    (eb_Receipts eb) (hash B)
                                    (Some (rlp_ListSize sz)) (td B))))
    as Hb3 by apply lookup_insert_eq.
  split_and!.
  - done.
  - intros w Hw. unfold Block_Hash, load_block, load, mbind, M_bind.
    rewrite Hb3. simpl. by rewrite Hw.
  - intros Hnone. unfold Block_Hash, load_block, load, mbind, M_bind.
    rewrite Hb3. simpl. rewrite Hnone.
    rewrite Header_Hash_run. simpl.
    unfold modify_block, load_block, load, store, mbind, M_bind.
    rewrite Hb3. simpl. rewrite Hb3. eauto.
  - unfold Block_DeprecatedTd.
    by rewrite (Block_field_run td σ3 b _ Hb3).
Qed.

(** X17.  [StorageBlock.DecodeRLP] on success replaces header, lists and
    total difficulty and leaves both caches as they were, so a cached size
    is still reported afterwards; on an error it returns the error and the
    block is unchanged. *)
Theorem StorageBlock_DecodeRLP_sets_td (σ : Store) (b : loc) (B : Block)
  (s : rlp_Stream) :
  Decode_storage_frame →
  σ !! b = Some (CBlock B) →
  (∀ sb s2 σ2,
     Stream_Decode_storageblock s σ = (inr sb, s2, σ2) →
     ∃ σ3,
       StorageBlock_DecodeRLP (Some b) s σ = Some ((None, s2), σ3)
       ∧ σ3 = <[b := CBlock (mkBlock (sb_Header sb) (sb_Txs sb)
                               (sb_Receipts sb) (hash B) (size B)
                               (sb_TD sb))]> σ2
       ∧ Block_DeprecatedTd (Some b) σ3 = Some (sb_TD sb, σ3)
       ∧ (∀ v, size B = Some v → Block_Size (Some b) σ3 = Some (v, σ3))
       ∧ (∀ w, hash B = Some w → Block_Hash (Some b) σ3 = Some (w, σ3)))
  ∧ (∀ err s2 σ2,
       Stream_Decode_storageblock s σ = (inl err, s2, σ2) →
       StorageBlock_DecodeRLP (Some b) s σ = Some ((Some err, s2), σ2)
       ∧ σ2 !! b = Some (CBlock B)).
Proof.
  intros Hframe Hb. split.
  - intros sb s2 σ2 Hd.
    assert (σ2 !! b = Some (CBlock B)) as Hb2.
    { eapply lookup_weaken; [exact Hb|]. by eapply Hframe. }
    eexists. split_and!.
    + unfold StorageBlock_DecodeRLP. rewrite Hd.
      unfold modify_block, load_block, load, store, mbind, M_bind.
      rewrite Hb2. simpl. rewrite Hb2. reflexivity.
    + done.
    + unfold Block_DeprecatedTd.
      by erewrite Block_field_run by apply lookup_insert_eq.
    + intros v Hv. eapply Block_Size_cached; [apply lookup_insert_eq|done].
    + intros w Hw. unfold Block_Hash, load_block, load, mbind, M_bind.
      rewrite lookup_insert_eq. simpl. by rewrite Hw.
  - intros err s2 σ2 Hd. split.
    + unfold StorageBlock_DecodeRLP. by rewrite Hd.
    + eapply lookup_weaken; [exact Hb|]. by eapply Hframe.
Qed.
(** ** [WithBody] *)

Lemma Block_WithBody_spec (σ : Store) (b hl : loc) (B : Block)
  (hv : Header) (txs crs : slice) :
  σ !! b = Some (CBlock B) → header B = Some hl →
  σ !! hl = Some (CHeader hv) → header_ok σ hv →
  slice_ok txsK σ txs → slice_ok rcsK σ crs →
  wp (Block_WithBody (Some b) txs crs)
    (λ r σ', ∃ b' c cv a1 a2,
       r = Some b' ∧ σ ⊆ σ'
       ∧ σ !! b' = None ∧ σ !! a1 = None ∧ σ !! a2 = None ∧ a1 ≠ a2
       ∧ deep_copy_of σ hv c cv σ'
       ∧ TxHash cv = TxHash hv ∧ ReceiptHash cv = ReceiptHash hv
       ∧ Bloom cv = Bloom hv
       ∧ σ' !! b' = Some (CBlock (mkBlock (Some c) (SArr a1 0 (len txs))
                                    (SArr a2 0 (len crs)) None None None))
       ∧ σ' !! a1 = Some (CTxs (slice_val txsK σ txs))
       ∧ σ' !! a2 = Some (CRcs (slice_val rcsK σ crs))) σ.
Proof.
  intros Hb HB Hhl Hok Htx Hrc. unfold Block_WithBody.
  apply wp_bind. eapply wp_load_block; [done|]. rewrite HB.
  apply wp_bind. eapply wp_mono; [by apply CopyHeader_spec|].
  intros r σ1 Hpost.
  apply CopyHeader_post_deep_copy in Hpost
    as (c & cv & -> & Hdc & Htxh & Hrch & Hblm).
  pose proof Hdc as (_ & _ & _ & Hs1 & Hfc & _ & _ & _ & Hc1 & _).
  apply wp_bind, wp_alloc. intros bl Hbl.
  apply wp_bind, wp_slice_make. intros a1 Ha1.
  apply lookup_insert_None in Ha1 as [Ha1 Hne1].
  apply wp_bind. eapply wp_modify_block;
    [rewrite lookup_insert_ne by done; apply lookup_insert_eq|].
  apply wp_bind, wp_slice_make. intros a2 Ha2.
  apply lookup_insert_None in Ha2 as [Ha2 Hne2].
  apply lookup_insert_None in Ha2 as [Ha2 Hne3].
  apply lookup_insert_None in Ha2 as [Ha2 _].
  apply wp_bind. eapply wp_modify_block;
    [rewrite lookup_insert_ne by done; apply lookup_insert_eq|].
  apply wp_bind. eapply wp_load_block; [apply lookup_insert_eq|].
  cbn [transactions receipts with_transactions with_receipts].
  set (σ6 := <[bl := _]> _).
  assert (σ1 ⊆ σ6) as Hs6.
  { subst σ6. by repeat (apply insert_subseteq_r; [done|]). }
  assert (σ ⊆ σ6) as Hs06 by (by transitivity σ1).
  destruct (slice_val_weaken txsK σ σ6 txs Hs06 Htx) as [Hvt Htx6].
  apply wp_bind.
  eapply (wp_slice_copy_all txsK a1 (replicate (len txs) None) txs).
  { subst σ6. rewrite lookup_insert_ne by done.
    rewrite lookup_insert_ne by done. rewrite lookup_insert_ne by done.
    apply lookup_insert_eq. }
  { apply length_replicate. }
  { done. }
  set (σ7 := <[a1 := _]> σ6).
  assert (σ1 ⊆ σ7) as Hs7.
  { subst σ7. by apply insert_subseteq_r. }
  assert (σ ⊆ σ7) as Hs07 by (by transitivity σ1).
  destruct (slice_val_weaken rcsK σ σ7 crs Hs07 Hrc) as [Hvr Hrc7].
  apply wp_bind.
  eapply (wp_slice_copy_all rcsK a2 (replicate (len crs) None) crs).
  { subst σ7 σ6. rewrite lookup_insert_ne by done.
    rewrite lookup_insert_ne by done. apply lookup_insert_eq. }
  { apply length_replicate. }
  { done. }
  set (σ8 := <[a2 := _]> σ7).
  assert (σ1 ⊆ σ8) as Hs8.
  { subst σ8. by apply insert_subseteq_r. }
  apply wp_ret.
  exists bl, c, cv, a1, a2. split_and!; try done.
  - by transitivity σ1.
  - by eapply lookup_weaken_None.
  - by eapply lookup_weaken_None.
  - by eapply lookup_weaken_None.
  - replace cv with (id cv) by done.
    eapply (deep_copy_of_weaken σ σ1); [done | | |done].
    + intros l x Hl _. by eapply lookup_weaken.
    + by eapply lookup_weaken.
  - subst σ8 σ7 σ6. rewrite lookup_insert_ne by done.
    rewrite lookup_insert_ne by done. apply lookup_insert_eq.
  - subst σ8 σ7. rewrite lookup_insert_ne by done.
    rewrite lookup_insert_eq. by rewrite Hvt.
  - subst σ8. rewrite lookup_insert_eq. by rewrite Hvr.
Qed.

(** X18.  [WithBody(txs, rcs)] returns a new block over a new header with
    the content of the receiver's header (a nil big integer read as zero),
    with the elements of the two lists in two new arrays and empty caches;
    the receiver is unchanged.  The roots and the filter of the new header
    are those of the receiver's header: they are not derived from the new
    body.  A later change made through the receiver's header reaches
    neither the new block nor its header, a change made through the new
    header reaches neither the receiver nor its header, and a later
    assignment to an element of [txs] or [rcs] by the caller changes
    neither the lists of the new block nor the block. *)
Theorem Block_WithBody_copies (σ : Store) (b hl : loc) (B : Block)
  (hv : Header) (txs crs : slice) :
  σ !! b = Some (CBlock B) → header B = Some hl →
  σ !! hl = Some (CHeader hv) → header_ok σ hv →
  slice_ok txsK σ txs → slice_ok rcsK σ crs →
  ∃ b' c σ' ts rs,
    Block_WithBody (Some b) txs crs σ = Some (Some b', σ')
    ∧ σ !! b' = None ∧ σ !! c = None
    ∧ σ' !! b = Some (CBlock B)
    ∧ σ' !! b' = Some (CBlock (mkBlock (Some c) ts rs None None None))
    ∧ header_val σ' (Some c) = Some (zero_for_nil (read_Header σ hv))
    ∧ slice_val txsK σ' ts = slice_val txsK σ txs
    ∧ slice_val rcsK σ' rs = slice_val rcsK σ crs
    ∧ (∃ a1 a2, ts = SArr a1 0 (len txs) ∧ rs = SArr a2 0 (len crs)
                ∧ σ !! a1 = None ∧ σ !! a2 = None ∧ a1 ≠ a2)
    ∧ (∀ m σ2, mutate (Some hl) m σ' = Some (tt, σ2) →
               header_val σ2 (Some c) = header_val σ' (Some c)
               ∧ σ2 !! b' = σ' !! b')
    ∧ (∀ m σ2, mutate (Some c) m σ' = Some (tt, σ2) →
               header_val σ2 (Some hl) = header_val σ (Some hl)
               ∧ σ2 !! b = Some (CBlock B))
    ∧ (∀ i v σ2, slice_assign txsK txs i v σ' = Some (tt, σ2) →
                 slice_val txsK σ2 ts = slice_val txsK σ' ts
                 ∧ σ2 !! b' = σ' !! b')
    ∧ (∀ i v σ2, slice_assign rcsK crs i v σ' = Some (tt, σ2) →
                 slice_val rcsK σ2 rs = slice_val rcsK σ' rs
                 ∧ σ2 !! b' = σ' !! b').
Proof.
  intros Hb HB Hhl Hok Htx Hrc.
  pose proof (Block_WithBody_spec σ b hl B hv txs crs Hb HB Hhl Hok Htx Hrc)
    as Hwp.
  apply wp_run in Hwp
    as (r & σ' & Hrun & b' & c & cv & a1 & a2 & -> & Hsub & Hfb & Hf1 & Hf2
        & Hne & Hdc & Htxh & Hrch & Hblm & Hb' & Ha1 & Ha2).
  pose proof Hdc as (_ & _ & _ & _ & Hfc & _).
  destruct (slice_load_ok txsK σ txs Htx) as [_ Hlt].
  destruct (slice_load_ok rcsK σ crs Hrc) as [_ Hlr].
  exists b', c, σ', (SArr a1 0 (len txs)), (SArr a2 0 (len crs)).
  split_and!; try done.
  - by eapply lookup_weaken.
  - rewrite (deep_copy_of_content σ σ' c hv cv Hok Hdc).
    by rewrite Htxh, Hrch, Hblm.
  - rewrite <- Hlt at 1. by apply (slice_val_whole txsK).
  - rewrite <- Hlr at 1. by apply (slice_val_whole rcsK).
  - by exists a1, a2.
  - intros m σ2 Hmut.
    assert (σ' !! hl = Some (CHeader hv)) as Hh' by by eapply lookup_weaken.
    destruct (deep_copy_of_original_mutated σ σ' σ2 hl c hv cv m
                Hhl Hok Hdc Hh' Hmut) as [H1 H2].
    split; [done | by apply H2].
  - intros m σ2 Hmut.
    pose proof (deep_copy_of_copy_mutated σ σ' σ2 c hv cv m Hdc Hmut)
      as Hkeep.
    split.
    + eapply header_val_agree; [done..|].
      intros l Hl. rewrite (Hkeep l Hl).
      destruct Hl as [x Hx]. rewrite Hx. by eapply lookup_weaken.
    + rewrite Hkeep by done. by eapply lookup_weaken.
  - intros i v σ2 Hassign.
    apply (slice_assign_inv txsK) in Hassign
      as (a & off & n & l & -> & Ha & Hlen & Hi & -> & _).
    destruct Htx as (c0 & l0 & Ha0 & _).
    split.
    + apply slice_val_agree. intros a3 off3 n3 [= <- _ _] _.
      apply lookup_insert_ne. intros ->. congruence.
    + apply lookup_insert_ne. intros ->. congruence.
  - intros i v σ2 Hassign.
    apply (slice_assign_inv rcsK) in Hassign
      as (a & off & n & l & -> & Ha & Hlen & Hi & -> & _).
    destruct Hrc as (c0 & l0 & Ha0 & _).
    split.
    + apply slice_val_agree. intros a3 off3 n3 [= <- _ _] _.
      apply lookup_insert_ne. intros ->. congruence.
    + apply lookup_insert_ne. intros ->. congruence.
Qed.

(** ** The hash of a copy *)

Lemma zero_for_nil_id (v : HeaderVal) :
  is_Some (v_Difficulty v) → is_Some (v_Number v) → is_Some (v_Time v) →
  zero_for_nil v = v.
Proof.
  destruct v as [? ? ? ? ? ? ? d n ? ? t ? ? ?]. simpl.
  by intros [? ->] [? ->] [? ->].
Qed.

(** X19.  Given an encoder that encodes a header by its content, a header
    without nil big integers and its copy by [CopyHeader] have the same
    hash, and a block made of the header by [NewBlockWithHeader] reports
    this hash. *)
Theorem CopyHeader_keeps_Hash (σ : Store) (h : loc) (hv : Header) :
  Header_encoding_by_content →
  σ !! h = Some (CHeader hv) → header_ok σ hv →
  is_Some (big_val σ (Difficulty hv)) → is_Some (big_val σ (Number hv)) →
  is_Some (big_val σ (Time hv)) →
  ∃ v,
    Header_Hash (Some h) σ = Some (v, σ)
    ∧ (∃ c σ', CopyHeader (Some h) σ = Some (Some c, σ')
               ∧ Header_Hash (Some c) σ' = Some (v, σ'))
    ∧ (∃ b σ1 σ2, NewBlockWithHeader (Some h) σ = Some (Some b, σ1)
                  ∧ Block_Hash (Some b) σ1 = Some (v, σ2)).
Proof.
  intros Henc Hh Hok Hd Hn Ht.
  exists (Keccak256 (concat (rlp_chunks_Header σ (Some h)))).
  assert (header_val σ (Some h) = Some (read_Header σ hv)) as Hval.
  { simpl. by rewrite Hh. }
  assert (zero_for_nil (read_Header σ hv) = read_Header σ hv) as Hid.
  { by apply zero_for_nil_id. }
  split_and!.
  - apply Header_Hash_run.
  - pose proof (CopyHeader_spec σ h hv Hh Hok) as Hwp.
    apply wp_run in Hwp as (r & σ' & Hcopy & Hpost).
    apply CopyHeader_post_deep_copy in Hpost
      as (c & cv & -> & Hdc & Htx & Hrc & Hbl).
    exists c, σ'. split; [done|].
    rewrite Header_Hash_run.
    rewrite (Henc σ' σ (Some c) (Some h)); [done|].
    rewrite (deep_copy_of_content σ σ' c hv cv Hok Hdc).
    by rewrite Htx, Hrc, Hbl, with_roots_same, Hid, Hval.
  - pose proof (NewBlockWithHeader_spec σ h hv Hh Hok) as Hwp.
    apply wp_run in Hwp
      as (r & σ1 & Hrun & b & c & cv & -> & _ & Hdc & Htx & Hrc & Hbl & Hb).
    exists b, σ1. eexists. split; [done|].
    unfold Block_Hash, load_block, load, mbind, M_bind.
    rewrite Hb. simpl. rewrite Header_Hash_run. simpl.
    unfold modify_block, load_block, load, store, mbind, M_bind.
    rewrite Hb. simpl. rewrite Hb.
    rewrite (Henc σ1 σ (Some c) (Some h)); [done|].
    rewrite (deep_copy_of_content σ σ1 c hv cv Hok Hdc).
    by rewrite Htx, Hrc, Hbl, with_roots_same, Hid, Hval.
Qed.
(** ** The header of a block made by [NewBlock] *)

Lemma NewBlock_deep_spec (σ : Store) (h : loc) (hv : Header)
  (txs rcs : slice) :
  σ !! h = Some (CHeader hv) → header_ok σ hv →
  slice_ok txsK σ txs → slice_ok rcsK σ rcs →
  wp (NewBlock (Some h) txs rcs)
    (λ r σ', ∃ b c B cv,
       r = Some b ∧ σ !! b = None ∧ σ' !! b = Some (CBlock B)
       ∧ header B = Some c ∧ deep_copy_of σ hv c cv σ'
       ∧ TxHash cv = (if decide (len txs = 0%nat) then EmptyRootHash
                      else DeriveSha Transactions _ (slice_val txsK σ txs))
       ∧ ReceiptHash cv
         = (if decide (len rcs = 0%nat) then EmptyRootHash
            else DeriveSha ContractResults _ (slice_val rcsK σ rcs))
       ∧ Bloom cv = (if decide (len rcs = 0%nat) then Bloom hv
                     else CreateBloom (slice_val rcsK σ rcs))) σ.
Proof.
  intros Hh Hok Hoktx Hokrc.
  unfold NewBlock.
  apply wp_bind. eapply wp_mono; [by apply CopyHeader_spec|].
  intros r σ1 Hpost.
  apply CopyHeader_post_deep_copy in Hpost
    as (c & cv0 & -> & Hdc & Htxh & Hrch & Hblm).
  pose proof Hdc as (_ & _ & _ & Hs1 & Hfc & _ & _ & _ & Hc & _).
  apply wp_bind, wp_new_big_Int. intros tdl Htd.
  apply wp_bind, wp_alloc. intros bl Hbl.
  apply lookup_insert_None in Hbl as [Hbl Htb].
  assert (c ≠ bl) as Hcb by (intros ->; congruence).
  assert (c ≠ tdl) as Hct by (intros ->; congruence).
  assert (σ !! bl = None) as Hfb by (by eapply lookup_weaken_None).
  set (σt := delete c σ1).
  assert (σt ⊆ σ1) as Hst1 by apply delete_subseteq.
  assert (σ ⊆ σt) as Hst.
  { apply map_subseteq_spec. intros l x Hl. subst σt.
    rewrite lookup_delete_ne by (intros ->; congruence).
    by eapply lookup_weaken. }
  set (σ3 := <[bl := _]> _).
  assert (σt ⊆ σ3) as Hs3.
  { transitivity σ1; [done|]. subst σ3.
    apply insert_subseteq_r; [done|]. by apply insert_subseteq. }
  destruct (slice_val_weaken txsK σ σt txs Hst Hoktx) as [Hvt Hoktx'].
  destruct (slice_val_weaken rcsK σ σt rcs Hst Hokrc) as [Hvr Hokrc'].
  apply wp_bind.
  eapply (wp_NewBlock_txs σt σ3 c bl _
            (mkBlock (Some c) SNil SNil None None (Some tdl)));
    [done | apply lookup_delete_eq
    | eapply lookup_weaken_None; [exact Hbl | exact Hst1] | done
    | | apply lookup_insert_eq | done | done | done |].
  { subst σ3. by rewrite !lookup_insert_ne by done. }
  intros σ4 ts Hs4 Hc4 Hb4 Hts Hshape.
  apply wp_bind.
  eapply (wp_NewBlock_rcs σt σ4 c bl); [done | done | done | done | done
                                       | done |].
  apply wp_ret. rewrite Hvt, Hvr.
  set (tx := if decide (len txs = 0%nat) then EmptyRootHash
             else DeriveSha Transactions _ (slice_val txsK σ txs)).
  set (f := λ x, if decide (len rcs = 0%nat)
                 then with_ReceiptHash EmptyRootHash (with_TxHash tx x)
                 else with_Bloom (CreateBloom (slice_val rcsK σ rcs))
                        (with_ReceiptHash
                           (DeriveSha ContractResults _
                              (slice_val rcsK σ rcs)) (with_TxHash tx x))).
  exists bl, c. eexists. exists (f cv0).
  split_and!.
  - done.
  - done.
  - by rewrite lookup_insert_ne.
  - done.
  - apply (deep_copy_of_weaken σ σ1 _ hv cv0 c f); [done | | |].
    + intros l x Hl Hne. rewrite lookup_insert_ne by done.
      eapply lookup_weaken; [|exact Hs4]. subst σt.
      by rewrite lookup_delete_ne.
    + rewrite lookup_insert_eq. subst f. simpl.
      by destruct (decide (len rcs = 0%nat)).
    + intros x. subst f. simpl. by destruct (decide (len rcs = 0%nat)).
  - subst f. simpl. by destruct (decide (len rcs = 0%nat)).
  - subst f. simpl. by destruct (decide (len rcs = 0%nat)).
  - subst f. simpl. by destruct (decide (len rcs = 0%nat)).
Qed.

(** X20.  The header of a block made by [NewBlock(h, txs, rcs)] is a deep
    copy of [h] with the two roots and the filter replaced: a later change
    of [h] by the caller reaches neither the block nor its header, and a
    change made through the block's header does not reach [h]. *)
Theorem NewBlock_isolated (σ : Store) (h : loc) (hv : Header)
  (txs rcs : slice) :
  σ !! h = Some (CHeader hv) → header_ok σ hv →
  slice_ok txsK σ txs → slice_ok rcsK σ rcs →
  ∃ b c B σ',
    NewBlock (Some h) txs rcs σ = Some (Some b, σ')
    ∧ σ !! b = None ∧ σ !! c = None
    ∧ σ' !! b = Some (CBlock B) ∧ header B = Some c
    ∧ header_val σ' (Some c)
      = Some (with_roots
                (if decide (len txs = 0%nat) then EmptyRootHash
                 else DeriveSha Transactions _ (slice_val txsK σ txs))
                (if decide (len rcs = 0%nat) then EmptyRootHash
                 else DeriveSha ContractResults _ (slice_val rcsK σ rcs))
                (if decide (len rcs = 0%nat) then Bloom hv
                 else CreateBloom (slice_val rcsK σ rcs))
                (zero_for_nil (read_Header σ hv)))
    ∧ (∀ m σ2, mutate (Some h) m σ' = Some (tt, σ2) →
               header_val σ2 (Some c) = header_val σ' (Some c)
               ∧ σ2 !! b = σ' !! b)
    ∧ (∀ m σ2, mutate (Some c) m σ' = Some (tt, σ2) →
               header_val σ2 (Some h) = header_val σ (Some h)).
Proof.
  intros Hh Hok Htx Hrc.
  pose proof (NewBlock_deep_spec σ h hv txs rcs Hh Hok Htx Hrc) as Hwp.
  apply wp_run in Hwp
    as (r & σ' & Hrun & b & c & B & cv & -> & Hfb & Hb & HB & Hdc & Htxh
        & Hrch & Hblm).
  pose proof Hdc as (_ & _ & _ & Hsub & Hfc & _).
  exists b, c, B, σ'. split_and!; try done.
  - rewrite (deep_copy_of_content σ σ' c hv cv Hok Hdc).
    by rewrite Htxh, Hrch, Hblm.
  - intros m σ2 Hmut.
    assert (σ' !! h = Some (CHeader hv)) as Hh' by by eapply lookup_weaken.
    destruct (deep_copy_of_original_mutated σ σ' σ2 h c hv cv m
                Hh Hok Hdc Hh' Hmut) as [H1 H2].
    split; [done | by apply H2].
  - intros m σ2 Hmut. eapply header_val_agree; [done..|].
    intros l Hl.
    rewrite (deep_copy_of_copy_mutated σ σ' σ2 c hv cv m Hdc Hmut l Hl).
    destruct Hl as [x Hx]. rewrite Hx. by eapply lookup_weaken.
Qed.
End Further_proofs.

(** * The further properties on the concrete instance *)

Section Further_instances.
#[local] Existing Instances ex_Entities ex_Engines ex_StorageEngine.

Lemma ex_full_header_ok : header_ok ex_store_full ex_header.
Proof.
  split_and!; simpl.
  - by exists 7.
  - done.
  - by exists 5.
  - by exists (CBytes [x01; x02]), [x01; x02].
Qed.

Lemma ex_block_full_at_9 :
  ex_store_full !! 9%positive
  = Some (CBlock (mkBlock (Some 1%positive) ex_txs ex_rcs None None None)).
Proof. reflexivity. Qed.

Lemma ex_full_txs_ok : slice_ok txsK ex_store_full ex_txs.
Proof.
  do 2 eexists. split_and!; [reflexivity | reflexivity | simpl; lia].
Qed.

Lemma ex_full_rcs_ok : slice_ok rcsK ex_store_full ex_rcs.
Proof.
  do 2 eexists. split_and!; [reflexivity | reflexivity | simpl; lia].
Qed.

Lemma ex_Decode_storage_frame : Decode_storage_frame.
Proof.
  intros s σ r s' σ'. unfold Stream_Decode_storageblock, ex_StorageEngine.
  by destruct (decide (take 1 s = [xc4])); intros [= <- <- <-].
Qed.

Lemma ex_Header_encoding_by_content : Header_encoding_by_content.
Proof. intros σ1 σ2 p q Heq. simpl. by rewrite Heq. Qed.

Lemma Uint64_EncodeNonce_witness :
  0 ≤ 66 < 2 ^ 64 ∧ BlockNonce_Uint64 (EncodeNonce 66) = 66.
Proof. split; [lia | apply Uint64_EncodeNonce; lia]. Defined.

Lemma NewBlockWithHeader_wraps_copy_witness :
  ∃ b c σ',
    NewBlockWithHeader (Some 1%positive) ex_store = Some (Some b, σ')
    ∧ σ' !! b = Some (CBlock (mkBlock (Some c) SNil SNil None None None))
    ∧ header_val σ' (Some c)
      = Some (zero_for_nil (read_Header ex_store ex_header)).
Proof.
  destruct (NewBlockWithHeader_wraps_copy ex_store 1%positive ex_header)
    as (b & c & σ' & Hrun & _ & _ & Hb & Hv & _).
  - reflexivity.
  - exact ex_header_ok.
  - exists b, c, σ'. split_and!; assumption.
Defined.

Lemma Block_big_accessors_copy_witness :
  (∃ p, Block_Number (Some 9%positive) ex_store_full
        = Some (Some p, <[p := CBigInt 5]> ex_store_full))
  ∧ Block_Difficulty (Some 9%positive) ex_store_full = None.
Proof.
  destruct (Block_big_accessors_copy ex_store_full 9%positive
              (mkBlock (Some 1%positive) ex_txs ex_rcs None None None))
    as [Hacc _].
  - exact ex_block_full_at_9.
  - destruct (Hacc 1%positive ex_header) as (HN & _ & _ & _ & HD & _);
      [reflexivity | reflexivity |].
    split.
    + destruct (HN 2%positive 5) as (p & Hp & _);
        [reflexivity | reflexivity |].
      exists p. exact Hp.
    + apply HD. reflexivity.
Defined.

Lemma Block_Header_deep_copy_witness :
  ∃ c σ',
    Block_Header (Some 9%positive) ex_store_full = Some (Some c, σ')
    ∧ header_val σ' (Some c)
      = Some (zero_for_nil (read_Header ex_store_full ex_header))
    ∧ σ' !! 9%positive
      = Some (CBlock (mkBlock (Some 1%positive) ex_txs ex_rcs None None
                        None)).
Proof.
  destruct (Block_Header_deep_copy ex_store_full 9%positive 1%positive
              (mkBlock (Some 1%positive) ex_txs ex_rcs None None None)
              ex_header)
    as (c & σ' & Hrun & _ & Hb & Hv & _).
  - exact ex_block_full_at_9.
  - reflexivity.
  - reflexivity.
  - exact ex_full_header_ok.
  - exists c, σ'. split_and!; assumption.
Defined.

Lemma Block_NumberU64_value_witness :
  Block_NumberU64 (Some 9%positive) ex_store_full
  = Some (5, ex_store_full).
Proof.
  destruct (Block_NumberU64_value ex_store_full 9%positive 1%positive
              (mkBlock (Some 1%positive) ex_txs ex_rcs None None None)
              ex_header)
    as [Hval _].
  - exact ex_block_full_at_9.
  - reflexivity.
  - reflexivity.
  - apply (Hval 2%positive 5); [reflexivity | reflexivity | lia].
Defined.

Lemma Block_Nonce_decodes_witness :
  ∃ v, Block_Nonce (Some 9%positive) ex_store_full
       = Some (v, ex_store_full)
       ∧ 0 ≤ v < 2 ^ 64 ∧ EncodeNonce v = Nonce ex_header.
Proof.
  destruct (Block_Nonce_decodes ex_store_full 9%positive 1%positive
              (mkBlock (Some 1%positive) ex_txs ex_rcs None None None)
              ex_header)
    as (v & Hrun & Hr & Hn & _).
  - exact ex_block_full_at_9.
  - reflexivity.
  - reflexivity.
  - exists v. split; [exact Hrun | split; [exact Hr | exact Hn]].
Defined.

Lemma NewBlock_drops_receipts_witness :
  ∃ b σ',
    NewBlock (Some 1%positive) ex_txs ex_rcs ex_store = Some (Some b, σ')
    ∧ Block_ContractReceipts (Some b) σ' = Some (SNil, σ')
    ∧ Block_ContrcatReceipt (Some b) (ex_hash 1) σ' = Some (None, σ').
Proof.
  destruct (NewBlock_drops_receipts ex_store 1%positive ex_header ex_txs
              ex_rcs)
    as (b & σ' & Hrun & _ & Hr & Hx).
  - reflexivity.
  - exact ex_header_ok.
  - exact ex_txs_ok.
  - exact ex_rcs_ok.
  - exists b, σ'. split_and!; [exact Hrun | exact Hr | apply Hx].
Defined.

Lemma NewBlock_copies_transactions_witness :
  ∃ b σ' ts,
    NewBlock (Some 1%positive) ex_txs ex_rcs ex_store = Some (Some b, σ')
    ∧ Block_Transactions (Some b) σ' = Some (ts, σ')
    ∧ slice_val txsK σ' ts = slice_val txsK ex_store ex_txs.
Proof.
  destruct (NewBlock_copies_transactions ex_store 1%positive ex_header
              ex_txs ex_rcs)
    as (b & σ' & ts & Hrun & Ht & Hv & _).
  - reflexivity.
  - exact ex_header_ok.
  - exact ex_txs_ok.
  - exact ex_rcs_ok.
  - exists b, σ', ts. split_and!; assumption.
Defined.

Lemma DeprecatedTd_of_new_blocks_witness :
  (∃ b σ' tdl,
     NewBlock (Some 1%positive) ex_txs ex_rcs ex_store = Some (Some b, σ')
     ∧ Block_DeprecatedTd (Some b) σ' = Some (Some tdl, σ')
     ∧ σ' !! tdl = Some (CBigInt 0))
  ∧ (∃ b σ',
       NewBlockWithHeader (Some 1%positive) ex_store = Some (Some b, σ')
       ∧ Block_DeprecatedTd (Some b) σ' = Some (None, σ')).
Proof.
  destruct (DeprecatedTd_of_new_blocks ex_store 1%positive ex_header ex_txs
              ex_rcs)
    as [(b & σ' & tdl & Hrun & Htd & _ & Hz) Hwrap].
  - reflexivity.
  - exact ex_header_ok.
  - exact ex_txs_ok.
  - exact ex_rcs_ok.
  - split; [|exact Hwrap]. exists b, σ', tdl. split_and!; assumption.
Defined.

Lemma Block_WithSeal_shares_witness :
  ∃ b' c σ',
    Block_WithSeal (Some 9%positive) (Some 1%positive) ex_store
    = Some (Some b', σ')
    ∧ σ' !! c = Some (CHeader ex_header)
    ∧ Block_Transactions (Some b') σ' = Some (ex_txs, σ')
    ∧ (∀ v σ2,
         mutate (Some 1%positive) (SetNumber v) σ' = Some (tt, σ2) →
         block_number σ' (Some b') = 5 ∧ block_number σ2 (Some b') = v).
Proof.
  destruct (Block_WithSeal_shares ex_store 9%positive 1%positive
              (mkBlock (Some 8%positive) ex_txs ex_rcs None None None)
              ex_header)
    as (b' & c & σ' & Hrun & _ & _ & _ & _ & Hc & Ht & _ & _ & _ & Hnum).
  - exact ex_block_at_9.
  - reflexivity.
  - exists b', c, σ'. split_and!; [exact Hrun | exact Hc | exact Ht |].
    intros v σ2. apply (Hnum 2%positive 5 v σ2); reflexivity.
Defined.

Lemma ex_hash_1_3 : ex_hash 1 ≠ ex_hash 3.
Proof.
  intros Heq. apply (f_equal (λ v : common_Hash, v !!! 0%fin)) in Heq.
  vm_compute in Heq. discriminate.
Qed.

Lemma Block_lookup_nil_entry_witness :
  Block_ContrcatReceipt (Some 9%positive) (ex_hash 3) ex_store_nil_receipt
  = None
  ∧ Block_ContrcatReceipt (Some 9%positive) (ex_hash 1)
      ex_store_nil_receipt
    = Some (Some 1%nat, ex_store_nil_receipt).
Proof.
  destruct (Block_lookup_nil_entry ex_store_nil_receipt 9%positive
              (mkBlock (Some 8%positive) ex_txs ex_rcs None None None)
              (ex_hash 3))
    as [_ Hrc3].
  - reflexivity.
  - do 2 eexists. split_and!; [reflexivity | reflexivity | simpl; lia].
  - do 2 eexists. split_and!; [reflexivity | reflexivity | simpl; lia].
  - destruct (Block_lookup_nil_entry ex_store_nil_receipt 9%positive
                (mkBlock (Some 8%positive) ex_txs ex_rcs None None None)
                (ex_hash 1))
      as [_ Hrc1].
    + reflexivity.
    + do 2 eexists. split_and!; [reflexivity | reflexivity | simpl; lia].
    + do 2 eexists. split_and!; [reflexivity | reflexivity | simpl; lia].
    + split.
      * destruct (Hrc3 [Some 1%nat] None []) as [Hnil _].
        -- reflexivity.
        -- constructor; [|constructor]. exists 1%nat.
           split; [reflexivity | exact ex_hash_1_3].
        -- apply Hnil. reflexivity.
      * destruct (Hrc1 [] (Some 1%nat) [None]) as [_ Hhit].
        -- reflexivity.
        -- constructor.
        -- apply (Hhit 1%nat); reflexivity.
Defined.

Lemma scblockSorter_Swap_exchanges_witness :
  ∃ σ2 σ3,
    scblockSorter_Swap (mkSorter ex_blocks BlockBy_Number) 0 2 ex_sort_store
    = Some (tt, σ2)
    ∧ slice_val blocksK σ2 ex_blocks
      = [Some 22%positive; Some 21%positive; Some 20%positive]
    ∧ scblockSorter_Swap (mkSorter ex_blocks BlockBy_Number) 0 2 σ2
      = Some (tt, σ3)
    ∧ slice_val blocksK σ3 ex_blocks
      = slice_val blocksK ex_sort_store ex_blocks.
Proof.
  destruct (scblockSorter_Swap_exchanges ex_sort_store
              (mkSorter ex_blocks BlockBy_Number) 0 2)
    as [Hswap _].
  - exact ex_blocks_ok.
  - destruct (Hswap (Some 20%positive) (Some 22%positive))
      as (σ2 & σ3 & Hrun & Hv & _ & Hrun3 & Hv3);
      [reflexivity | reflexivity |].
    exists σ2, σ3. split_and!; assumption.
Defined.

Lemma BlockBy_Number_strict_order_witness :
  BlockBy_Number (Some 21%positive) (Some 21%positive) ex_sort_store
  = Some (false, ex_sort_store)
  ∧ BlockBy_Number None (Some 22%positive) ex_sort_store = None.
Proof.
  destruct (BlockBy_Number_strict_order ex_sort_store (Some 21%positive)
              (Some 22%positive) (Some 20%positive))
    as (Hirr & _ & _ & _ & Hnil & _).
  - do 4 eexists; split_and!; [reflexivity.. | by eexists].
  - do 4 eexists; split_and!; [reflexivity.. | by eexists].
  - do 4 eexists; split_and!; [reflexivity.. | by eexists].
  - by split.
Defined.

Lemma Header_Size_of_copy_witness :
  Header_Size 500 (Some 1%positive) ex_store = None
  ∧ ∃ c σ',
      CopyHeader (Some 1%positive) ex_store = Some (Some c, σ')
      ∧ Header_Size 500 (Some c) σ' = Some (502, σ').
Proof.
  destruct (Header_Size_of_copy 500 ex_store 1%positive ex_header)
    as (_ & Hnil & c & σ' & Hrun & Hsize).
  - reflexivity.
  - exact ex_header_ok.
  - split.
    + apply Hnil. left. reflexivity.
    + exists c, σ'. split; [exact Hrun | exact Hsize].
Defined.

Lemma Block_DecodeRLP_keeps_hash_cache_witness :
  ∃ σ3,
    Block_DecodeRLP (Some 9%positive) [xc3; xc0; xc0; xc0] ex_store_hashed
    = Some ((None, []), σ3)
    ∧ Block_Hash (Some 9%positive) σ3 = Some (ex_hash 77, σ3).
Proof.
  pose proof (@Block_DecodeRLP_keeps_hash_cache ex_Entities ex_Engines
                ex_store_hashed 9%positive
                (mkBlock (Some 8%positive) ex_txs ex_rcs (Some (ex_hash 77))
                   None None) ex_Decode_frame eq_refl) as Hdec.
  edestruct (Hdec [xc3; xc0; xc0; xc0]) as (σ3 & Hrun & _ & Hhash & _);
    [reflexivity | reflexivity |].
  exists σ3. split; [exact Hrun|]. apply Hhash. reflexivity.
Defined.

Lemma StorageBlock_DecodeRLP_sets_td_witness :
  (∃ σ3,
     StorageBlock_DecodeRLP (Some 9%positive) [xc4] ex_store
     = Some ((None, []), σ3)
     ∧ Block_DeprecatedTd (Some 9%positive) σ3 = Some (None, σ3))
  ∧ StorageBlock_DecodeRLP (Some 9%positive) [x00] ex_store
    = Some ((Some 3%nat, [x00]), ex_store).
Proof.
  split.
  - destruct (@StorageBlock_DecodeRLP_sets_td ex_Entities ex_Engines
                ex_StorageEngine ex_store 9%positive
                (mkBlock (Some 8%positive) ex_txs ex_rcs None None None)
                [xc4])
      as [Hok _].
    + exact ex_Decode_storage_frame.
    + exact ex_block_at_9.
    + destruct (Hok (mkStorageblock None SNil SNil None) [] ex_store)
        as (σ3 & Hrun & _ & Htd & _); [reflexivity|].
      exists σ3. split; [exact Hrun | exact Htd].
  - destruct (@StorageBlock_DecodeRLP_sets_td ex_Entities ex_Engines
                ex_StorageEngine ex_store 9%positive
                (mkBlock (Some 8%positive) ex_txs ex_rcs None None None)
                [x00])
      as [_ Herr].
    + exact ex_Decode_storage_frame.
    + exact ex_block_at_9.
    + destruct (Herr 3%nat [x00] ex_store) as [Hrun _]; [reflexivity|].
      exact Hrun.
Defined.

Lemma Block_WithBody_copies_witness :
  ∃ b' c σ' ts rs,
    Block_WithBody (Some 9%positive) ex_txs ex_rcs ex_store_full
    = Some (Some b', σ')
    ∧ σ' !! b' = Some (CBlock (mkBlock (Some c) ts rs None None None))
    ∧ slice_val txsK σ' ts = slice_val txsK ex_store_full ex_txs
    ∧ slice_val rcsK σ' rs = slice_val rcsK ex_store_full ex_rcs
    ∧ (∀ m σ2, mutate (Some 1%positive) m σ' = Some (tt, σ2) →
               header_val σ2 (Some c) = header_val σ' (Some c)
               ∧ σ2 !! b' = σ' !! b').
Proof.
  destruct (Block_WithBody_copies ex_store_full 9%positive 1%positive
              (mkBlock (Some 1%positive) ex_txs ex_rcs None None None)
              ex_header ex_txs ex_rcs)
    as (b' & c & σ' & ts & rs & Hrun & _ & _ & _ & Hb' & _ & Ht & Hr & _
        & Hiso & _).
  - exact ex_block_full_at_9.
  - reflexivity.
  - reflexivity.
  - exact ex_full_header_ok.
  - exact ex_full_txs_ok.
  - exact ex_full_rcs_ok.
  - exists b', c, σ', ts, rs. split_and!; assumption.
Defined.

Lemma ex_difficulty_header_ok :
  header_ok ex_store_difficulty
    (with_Difficulty (Some 2%positive) ex_header).
Proof.
  split_and!; simpl.
  - by exists 7.
  - by exists 5.
  - by exists 5.
  - by exists (CBytes [x01; x02]), [x01; x02].
Qed.

Lemma CopyHeader_keeps_Hash_witness :
  ∃ v c σ',
    Header_Hash (Some 10%positive) ex_store_difficulty
    = Some (v, ex_store_difficulty)
    ∧ CopyHeader (Some 10%positive) ex_store_difficulty = Some (Some c, σ')
    ∧ Header_Hash (Some c) σ' = Some (v, σ').
Proof.
  destruct (@CopyHeader_keeps_Hash ex_Entities ex_Engines
              ex_store_difficulty 10%positive
              (with_Difficulty (Some 2%positive) ex_header))
    as (v & Hh & (c & σ' & Hrun & Hc) & _).
  - exact ex_Header_encoding_by_content.
  - reflexivity.
  - exact ex_difficulty_header_ok.
  - by eexists.
  - by eexists.
  - by eexists.
  - exists v, c, σ'. split_and!; assumption.
Defined.

Lemma NewBlock_isolated_witness :
  ∃ b c B σ',
    NewBlock (Some 1%positive) ex_txs ex_rcs ex_store = Some (Some b, σ')
    ∧ σ' !! b = Some (CBlock B) ∧ header B = Some c
    ∧ (∀ m σ2, mutate (Some 1%positive) m σ' = Some (tt, σ2) →
               header_val σ2 (Some c) = header_val σ' (Some c)
               ∧ σ2 !! b = σ' !! b).
Proof.
  destruct (NewBlock_isolated ex_store 1%positive ex_header ex_txs ex_rcs)
    as (b & c & B & σ' & Hrun & _ & _ & Hb & HB & _ & Hiso & _).
  - reflexivity.
  - exact ex_header_ok.
  - exact ex_txs_ok.
  - exact ex_rcs_ok.
  - exists b, c, B, σ'. split_and!; assumption.
Defined.

Lemma ex_hash_5_0 : ex_hash 5 ≠ ex_hash 0.
Proof.
  intros Heq. apply (f_equal (λ v : common_Hash, v !!! 0%fin)) in Heq.
  vm_compute in Heq. discriminate.
Qed.

(** The copy of a header whose extra data is an empty window of an array
    holds the same window of the same array: the extra data of the copy is
    not in storage of its own. *)
Lemma CopyHeader_empty_Extra_shared :
  fst <$> copy_then_read_Extra (Some 11%positive) ex_store_empty_extra
  = Some (SArr 4%positive 0 0, SArr 4%positive 0 0)
  ∧ ex_store_empty_extra !! 4%positive = Some (CBytes [x01; x02]).
Proof. split; [vm_compute|]; reflexivity. Qed.

(** A receipt list with a nil entry is taken by [WithBody] as it is, and a
    lookup of a hash that no receipt of the list has then panics at the nil
    entry, on the new block as on the block at 9. *)
Lemma Block_ContrcatReceipt_nil_entry_panics :
  fst <$> withBody_receipts (Some 9%positive) ex_txs ex_rcs
            ex_store_nil_receipt
  = Some [Some 1%nat; None]
  ∧ ContractResult_TxHash 1%nat ≠ ex_hash 3
  ∧ withBody_then_lookup (Some 9%positive) ex_txs ex_rcs (ex_hash 3)
      ex_store_nil_receipt = None
  ∧ Block_ContrcatReceipt (Some 9%positive) (ex_hash 3)
      ex_store_nil_receipt = None.
Proof.
  split_and!.
  - vm_compute. reflexivity.
  - exact ex_hash_1_3.
  - reflexivity.
  - reflexivity.
Qed.
End Further_instances.

Section Stale_hash.
#[local] Existing Instances ex_Entities ex_Engines_unary.

(** A block over a header of number 5 is hashed, a block whose header has
    no number is decoded into it, and it is hashed again: the second hash
    is the first one, from the cache, and not the hash of the header the
    block has now. *)
Lemma Block_Hash_stale_after_DecodeRLP :
  fst <$> hash_decode_hash (Some 9%positive) [xc3; xc0; xc0; xc0]
            ex_store_full
  = Some (ex_hash 5, ex_hash 5, ex_hash 0)
  ∧ ex_hash 5 ≠ ex_hash 0.
Proof. split; [vm_compute; reflexivity | exact ex_hash_5_0]. Qed.
End Stale_hash.
